(** * rpc-cache-cf-worker: the batch-splitting cache layer of [src/index.ts]

    A shallow embedding of the Cloudflare Worker in [src/index.ts] and the
    properties of its key derivation, cache partition, upstream dispatch,
    response assembly and CORS gate.

    Conventions of the embedding.
    - A JavaScript string is modelled by the [string] of its UTF-8 bytes, so
      [TextEncoder.encode] is the passage from [string] to its list of bytes.
    - The platform pieces the worker calls ([crypto.subtle.digest], [JSON],
      [RegExp], [URL], the Cache API and the origin [fetch]) are modelled next
      to the code that uses them; every definition that embeds a piece of
      [index.ts] carries the name it has there and the lines it comes from. *)

From Stdlib Require Import ZArith Lia Bool Ascii String List Sorted.
From Stdlib Require Import Decimal DecimalFacts DecimalPos DecimalZ DecimalString.
From stdpp Require Import base option list strings gmap.

Set Warnings "-register-all".

(** [simpl] computes the concatenation of strings. *)
#[local] Arguments String.append !_ _ / : simpl nomatch.

Local Open Scope string_scope.
Local Open Scope Z_scope.

(* ===================================================================== *)
(** ** Bytes and hexadecimal text *)
(* ===================================================================== *)

Definition byte_of_ascii (c : ascii) : Z := Z.of_N (N_of_ascii c).
Definition ascii_of_byte (b : Z) : ascii := ascii_of_N (Z.to_N (b mod 256)).

(** A string holds the UTF-8 bytes of a JavaScript string. A surrogate code
    unit that is not half of a pair, which UTF-8 cannot express, is held as
    the three bytes of its code point: [ED], then [A0]-[AF] for a high and
    [B0]-[BF] for a low surrogate, then [80]-[BF]. *)
Definition is_high_surrogate (c1 c2 c3 : ascii) : bool :=
  (byte_of_ascii c1 =? 237)
  && (160 <=? byte_of_ascii c2) && (byte_of_ascii c2 <=? 175)
  && (128 <=? byte_of_ascii c3) && (byte_of_ascii c3 <=? 191).

Definition is_low_surrogate (c1 c2 c3 : ascii) : bool :=
  (byte_of_ascii c1 =? 237)
  && (176 <=? byte_of_ascii c2) && (byte_of_ascii c2 <=? 191)
  && (128 <=? byte_of_ascii c3) && (byte_of_ascii c3 <=? 191).

Definition is_surrogate (c1 c2 c3 : ascii) : bool :=
  is_high_surrogate c1 c2 c3 || is_low_surrogate c1 c2 c3.

(** The code unit [D800]-[DFFF] held by the bytes [ED c2 c3]. *)
Definition surrogate_code (c2 c3 : ascii) : Z :=
  53248 + 64 * (byte_of_ascii c2 - 128) + (byte_of_ascii c3 - 128).

(** The replacement character [U+FFFD] for every lone surrogate. *)
Fixpoint replace_surrogates (s : string) : string :=
  match s with
  | EmptyString => EmptyString
  | String c1 t =>
      match t with
      | String c2 (String c3 r) =>
          if is_surrogate c1 c2 c3
          then String (ascii_of_byte 239)
                 (String (ascii_of_byte 191)
                    (String (ascii_of_byte 189) (replace_surrogates r)))
          else String c1 (replace_surrogates t)
      | _ => String c1 (replace_surrogates t)
      end
  end.

(** [new TextEncoder().encode(message)]: the UTF-8 bytes of the message,
    with [U+FFFD] for a lone surrogate. *)
Definition TextEncoder_encode (message : string) : list Z :=
  byte_of_ascii <$> list_ascii_of_string (replace_surrogates message).

Definition hex_digit (d : Z) : ascii :=
  if d <? 10 then ascii_of_byte (48 + d) else ascii_of_byte (87 + d).

(** [b.toString(16).padStart(2, '0')] for a byte [b]. *)
Definition hex2 (b : Z) : string :=
  String (hex_digit (b / 16 mod 16)) (String (hex_digit (b mod 16)) EmptyString).

(* ===================================================================== *)
(** ** [crypto.subtle.digest('MD5', _)] (RFC 1321) on 32-bit words in [Z] *)
(* ===================================================================== *)

Module MD5.

Definition wrap (x : Z) : Z := x mod 2 ^ 32.
Definition add32 (x y : Z) : Z := wrap (x + y).
Definition not32 (x : Z) : Z := Z.lxor x 4294967295.
Definition rotl32 (x : Z) (n : Z) : Z :=
  Z.lor (wrap (Z.shiftl x n)) (Z.shiftr x (32 - n)).

(** The per-round shift amounts. *)
Definition S : list Z :=
  [7; 12; 17; 22; 7; 12; 17; 22; 7; 12; 17; 22; 7; 12; 17; 22;
   5; 9; 14; 20; 5; 9; 14; 20; 5; 9; 14; 20; 5; 9; 14; 20;
   4; 11; 16; 23; 4; 11; 16; 23; 4; 11; 16; 23; 4; 11; 16; 23;
   6; 10; 15; 21; 6; 10; 15; 21; 6; 10; 15; 21; 6; 10; 15; 21].

(** [K i = floor (2^32 * abs (sin (i + 1)))]. *)
Definition K : list Z :=
  [0xd76aa478; 0xe8c7b756; 0x242070db; 0xc1bdceee;
   0xf57c0faf; 0x4787c62a; 0xa8304613; 0xfd469501;
   0x698098d8; 0x8b44f7af; 0xffff5bb1; 0x895cd7be;
   0x6b901122; 0xfd987193; 0xa679438e; 0x49b40821;
   0xf61e2562; 0xc040b340; 0x265e5a51; 0xe9b6c7aa;
   0xd62f105d; 0x02441453; 0xd8a1e681; 0xe7d3fbc8;
   0x21e1cde6; 0xc33707d6; 0xf4d50d87; 0x455a14ed;
   0xa9e3e905; 0xfcefa3f8; 0x676f02d9; 0x8d2a4c8a;
   0xfffa3942; 0x8771f681; 0x6d9d6122; 0xfde5380c;
   0xa4beea44; 0x4bdecfa9; 0xf6bb4b60; 0xbebfbc70;
   0x289b7ec6; 0xeaa127fa; 0xd4ef3085; 0x04881d05;
   0xd9d4d039; 0xe6db99e5; 0x1fa27cf8; 0xc4ac5665;
   0xf4292244; 0x432aff97; 0xab9423a7; 0xfc93a039;
   0x655b59c3; 0x8f0ccc92; 0xffeff47d; 0x85845dd1;
   0x6fa87e4f; 0xfe2ce6e0; 0xa3014314; 0x4e0811a1;
   0xf7537e82; 0xbd3af235; 0x2ad7d2bb; 0xeb86d391].

Record state := State { sA : Z; sB : Z; sC : Z; sD : Z }.

Definition init : state :=
  State 0x67452301 0xefcdab89 0x98badcfe 0x10325476.

(** The message with the 1 bit, the zero fill up to 56 modulo 64 and the
    64-bit little-endian bit length appended. *)
Definition le_bytes (n : nat) (x : Z) : list Z :=
  (fun i => Z.shiftr x (8 * Z.of_nat i) mod 256) <$> seq 0 n.

Definition pad (msg : list Z) : list Z :=
  let len := Z.of_nat (length msg) in
  let zeros := Z.to_nat ((55 - len) mod 64) in
  msg ++ [128] ++ replicate zeros 0 ++ le_bytes 8 (8 * len mod 2 ^ 64).

Definition le_word (bs : list Z) : Z :=
  foldr (fun b acc => b + 256 * acc) 0 bs.

(** The 16 little-endian words of a 64-byte block. *)
Fixpoint words (n : nat) (block : list Z) : list Z :=
  match n with
  | O => []
  | Datatypes.S n' => le_word (take 4 block) :: words n' (drop 4 block)
  end.

Definition step (M : list Z) (st : state) (i : nat) : state :=
  let '(State a b c d) := st in
  let zi := Z.of_nat i in
  let '(f, g) :=
    if zi <? 16 then (Z.lor (Z.land b c) (Z.land (not32 b) d), zi)
    else if zi <? 32 then
      (Z.lor (Z.land d b) (Z.land (not32 d) c), (5 * zi + 1) mod 16)
    else if zi <? 48 then (Z.lxor b (Z.lxor c d), (3 * zi + 5) mod 16)
    else (Z.lxor c (Z.lor b (not32 d)), (7 * zi) mod 16) in
  let f' := add32 (add32 (add32 f a) (nth i K 0)) (nth (Z.to_nat g) M 0) in
  State d (add32 b (rotl32 f' (nth i S 0))) b c.

Definition compress (st : state) (block : list Z) : state :=
  let M := words 16 block in
  let '(State a b c d) := foldl (step M) st (seq 0 64) in
  State (add32 (sA st) a) (add32 (sB st) b) (add32 (sC st) c) (add32 (sD st) d).

Fixpoint blocks (n : nat) (st : state) (bytes : list Z) : state :=
  match n with
  | O => st
  | Datatypes.S n' => blocks n' (compress st (take 64 bytes)) (drop 64 bytes)
  end.

Definition digest (msg : list Z) : list Z :=
  let p := pad msg in
  let st := blocks (length p / 64)%nat init p in
  le_bytes 4 (sA st) ++ le_bytes 4 (sB st) ++ le_bytes 4 (sC st)
    ++ le_bytes 4 (sD st).

End MD5.

(* ===================================================================== *)
(** ** [sha1] (index.ts, lines 1-11): the MD5 digest in lower-case hex *)
(* ===================================================================== *)

Definition sha1 (message : string) : string :=
  let msgBuffer := TextEncoder_encode message in
  let hashBuffer := MD5.digest msgBuffer in
  foldr (fun b acc => hex2 b +:+ acc) EmptyString hashBuffer.

(* ===================================================================== *)
(** ** JSON values, [JSON.stringify] and [JSON.parse] *)
(* ===================================================================== *)

(** What [JSON.parse] returns. A number is a double: [JNum n] is an integer
    with [|n| <= 2^53] (each of them is a double, written as the integer it
    is), and [JDec] is any other finite double, held as the shortest decimal
    that reads as it, which is how [JSON.stringify] writes it: its sign, its
    digits without a zero at either end, and the power of ten of its last
    digit. The worker only ever writes a parsed number back, so the two
    zeros are not told apart, and a number beyond the doubles, which is read
    as [Infinity] and written [null], is held as [JNull]. An object is the
    list of its own properties in the order [JSON.stringify] enumerates
    them. *)
Inductive json : Type :=
| JNull
| JBool (b : bool)
| JNum (n : Z)
| JDec (negative : bool) (digits : string) (exponent : Z)
| JStr (s : string)
| JArr (elems : list json)
| JObj (members : list (string * json)).

Module JSON.

(** *** Property order of an ordinary object *)

Definition is_digit (c : ascii) : bool :=
  (48 <=? byte_of_ascii c) && (byte_of_ascii c <=? 57).

Definition digits_value (ds : string) : Z :=
  foldl (fun acc c => 10 * acc + (byte_of_ascii c - 48)) 0
        (list_ascii_of_string ds).

Definition all_digits (ds : string) : bool :=
  forallb is_digit (list_ascii_of_string ds).

(** An array index: a canonical decimal numeral below [2^32 - 1]. Such keys
    are enumerated first, in ascending numeric order. *)
Definition array_index (k : string) : option Z :=
  match k with
  | EmptyString => None
  | String c rest =>
      if all_digits k
         && (negb (byte_of_ascii c =? 48) || String.eqb rest EmptyString)
         && (Z.of_nat (String.length k) <=? 10)
         && (digits_value k <? 2 ^ 32 - 1)
      then Some (digits_value k) else None
  end.

(** Where a new property lands among the existing ones. *)
Fixpoint obj_insert_new (k : string) (v : json) (o : list (string * json))
  : list (string * json) :=
  match o with
  | [] => [(k, v)]
  | (k', v') :: o' =>
      match array_index k, array_index k' with
      | Some i, Some i' =>
          if i <? i' then (k, v) :: o else (k', v') :: obj_insert_new k v o'
      | Some _, None => (k, v) :: o
      | None, _ => (k', v') :: obj_insert_new k v o'
      end
  end.

(** ['k' in o] for an object made by [JSON.parse]. *)
Definition obj_has (k : string) (o : list (string * json)) : bool :=
  existsb (fun kv => String.eqb (fst kv) k) o.

(** [o[k] = v]: an existing property keeps its place. *)
Definition obj_set (k : string) (v : json) (o : list (string * json))
  : list (string * json) :=
  if obj_has k o
  then List.map (fun kv => if String.eqb (fst kv) k then (fst kv, v) else kv) o
  else obj_insert_new k v o.

(** *** [JSON.stringify] *)

Definition hex4 (n : Z) : string :=
  String (hex_digit (n / 4096 mod 16)) (String (hex_digit (n / 256 mod 16))
    (hex2 (n mod 256))).

Definition dquote : ascii := ascii_of_byte 34.

Definition quote_char (c : ascii) : string :=
  let n := byte_of_ascii c in
  if n =? 34 then String "\" (String c EmptyString)
  else if n =? 92 then "\\"
  else if n =? 8 then "\b"
  else if n =? 12 then "\f"
  else if n =? 10 then "\n"
  else if n =? 13 then "\r"
  else if n =? 9 then "\t"
  else if n <? 32 then "\u" +:+ hex4 n
  else String c EmptyString.

(** The characters of a string and the closing quote. A lone surrogate is
    written as its [\u] escape, in lower-case digits. *)
Fixpoint quote_body (s : string) : string :=
  match s with
  | EmptyString => String dquote EmptyString
  | String c s' =>
      match s' with
      | String c2 (String c3 s'') =>
          if is_surrogate c c2 c3
          then "\u" +:+ hex4 (surrogate_code c2 c3) +:+ quote_body s''
          else quote_char c +:+ quote_body s'
      | _ => quote_char c +:+ quote_body s'
      end
  end.

Definition quote (s : string) : string := String dquote (quote_body s).

Definition number_to_string (n : Z) : string :=
  NilZero.string_of_int (Z.to_int n).

(** *** Doubles and their decimals *)

Fixpoint zeros (n : nat) : string :=
  match n with
  | O => EmptyString
  | Datatypes.S n' => String "0" (zeros n')
  end.

Fixpoint take_string (n : nat) (s : string) : string :=
  match n, s with
  | Datatypes.S n', String c s' => String c (take_string n' s')
  | _, _ => EmptyString
  end.

Fixpoint drop_string (n : nat) (s : string) : string :=
  match n, s with
  | Datatypes.S n', String _ s' => drop_string n' s'
  | _, _ => s
  end.

Fixpoint strip_leading_zeros (ds : string) : string :=
  match ds with
  | String c ds' => if byte_of_ascii c =? 48 then strip_leading_zeros ds' else ds
  | EmptyString => ds
  end.

Fixpoint strip_trailing_zeros (ds : string) : string :=
  match ds with
  | String c ds' =>
      match strip_trailing_zeros ds' with
      | EmptyString =>
          if byte_of_ascii c =? 48 then EmptyString else String c EmptyString
      | String c' kept => String c (String c' kept)
      end
  | EmptyString => ds
  end.

(** [Number::toString] of a finite double that is not zero, from the digits
    and the exponent of its shortest decimal: positional notation when the
    decimal point falls within 21 digits or up to six zeros follow it,
    exponent notation otherwise. *)
Definition decimal_to_string (negative : bool) (digits : string) (exponent : Z)
  : string :=
  let k := Z.of_nat (String.length digits) + exponent in
  let text :=
    if (0 <=? exponent) && (k <=? 21) then digits +:+ zeros (Z.to_nat exponent)
    else if (0 <? k) && (k <=? 21) then
      take_string (Z.to_nat k) digits +:+ "." +:+ drop_string (Z.to_nat k) digits
    else if (-6 <? k) && (k <=? 0) then
      "0." +:+ zeros (Z.to_nat (- k)) +:+ digits
    else
      (match digits with
       | String d (String d' more) => String d ("." +:+ String d' more)
       | _ => digits
       end)
      +:+ "e" +:+ (if 0 <=? k - 1 then "+" else "-")
      +:+ number_to_string (Z.abs (k - 1)) in
  if negative then "-" +:+ text else text.

(** [floor (log2 (P / Q))] for positive [P] and [Q]. *)
Definition floor_log2_ratio (P Q : Z) : Z :=
  let l := Z.log2 P - Z.log2 Q in
  if (if 0 <=? l then Q * 2 ^ l <=? P else Q <=? P * 2 ^ (- l)) then l else l - 1.

(** The integer nearest to [num / den], the even one of two. *)
Definition round_half_even (num den : Z) : Z :=
  let q := num / den in
  let r := num mod den in
  if 2 * r <? den then q
  else if den <? 2 * r then q + 1
  else if Z.even q then q else q + 1.

(** The double nearest to [P / Q], the even one of two, as [(m, e)] for
    [m * 2 ^ e] with [m < 2 ^ 53] and [e >= -1074]; [None] is [Infinity]. *)
Definition round_ratio (P Q : Z) : option (Z * Z) :=
  let e := Z.max (floor_log2_ratio P Q - 52) (-1074) in
  let m := if 0 <=? e then round_half_even P (Q * 2 ^ e)
           else round_half_even (P * 2 ^ (- e)) Q in
  let '(m, e) := if m =? 2 ^ 53 then (2 ^ 52, e + 1) else (m, e) in
  if m =? 0 then Some (0, 0)
  else if 971 <? e then None
  else Some (m, e).

(** The double nearest to [M * 10 ^ E] for a positive [M]. The first two
    tests answer at once what the rounding would find for an exponent far
    beyond the doubles, without raising ten to it. *)
Definition round_decimal (M E : Z) : option (Z * Z) :=
  if 400 <? E then None
  else if E + (Z.log2 M + 3) / 3 <? -330 then Some (0, 0)
  else if 0 <=? E then round_ratio (M * 10 ^ E) 1
  else round_ratio M (10 ^ (- E)).

(** [k] with [10 ^ (k - 1) <= P / Q < 10 ^ k], found from an estimate. *)
Fixpoint adjust_magnitude (fuel : nat) (P Q k : Z) : Z :=
  match fuel with
  | O => k
  | Datatypes.S fuel' =>
      let below := if 0 <=? k then P <? Q * 10 ^ k else P * 10 ^ (- k) <? Q in
      let above := if 0 <=? k - 1 then Q * 10 ^ (k - 1) <=? P
                   else Q <=? P * 10 ^ (1 - k) in
      if negb below then adjust_magnitude fuel' P Q (k + 1)
      else if negb above then adjust_magnitude fuel' P Q (k - 1)
      else k
  end.

Definition decimal_magnitude (P Q : Z) : Z :=
  adjust_magnitude 8 P Q (((Z.log2 P - Z.log2 Q) * 30103) / 100000 + 1).

(** The decimals of [K] digits next to the double [m * 2 ^ e]: [c * 10 ^ p]
    just below and just above it, the nearer first (the even one of two). *)
Definition candidates (m e K : Z) : list (Z * Z) :=
  let '(P, Q) := if 0 <=? e then (m * 2 ^ e, 1) else (m, 2 ^ (- e)) in
  let p := decimal_magnitude P Q - K in
  let '(num, den) := if 0 <=? p then (P, Q * 10 ^ p) else (P * 10 ^ (- p), Q) in
  let q := num / den in
  let r := num mod den in
  if r =? 0 then [(q, p)]
  else if 2 * r <? den then [(q, p); (q + 1, p)]
  else if den <? 2 * r then [(q + 1, p); (q, p)]
  else if Z.even q then [(q, p); (q + 1, p)] else [(q + 1, p); (q, p)].

(** The digits and the exponent of [c * 10 ^ p], without the zeros at the
    end of [c]. *)
Definition normal_decimal (cp : Z * Z) : option (string * Z) :=
  match fst cp with
  | Z.pos c =>
      let ds := NilEmpty.string_of_uint (Pos.to_uint c) in
      let kept := strip_trailing_zeros ds in
      Some (kept,
            snd cp + Z.of_nat (String.length ds) - Z.of_nat (String.length kept))
  | _ => None
  end.

(** Is the double [m * 2 ^ e] the Number value of this decimal? *)
Definition reads_as (m e : Z) (d : string * Z) : bool :=
  match round_decimal (digits_value (fst d)) (snd d) with
  | Some (m', e') => (m' =? m) && (e' =? e)
  | None => false
  end.

Fixpoint shortest_from (fuel : nat) (m e K : Z) : option (string * Z) :=
  match fuel with
  | O => None
  | Datatypes.S fuel' =>
      match List.find (reads_as m e) (omap normal_decimal (candidates m e K)) with
      | Some d => Some d
      | None => shortest_from fuel' m e (K + 1)
      end
  end.

(** The decimal [Number::toString] writes for the double [m * 2 ^ e]: of the
    decimals that read as it, one with the fewest digits, and of these the
    nearest. Seventeen digits always tell a double from its neighbours. *)
Definition shortest (m e : Z) : option (string * Z) := shortest_from 17 m e 1.

(** The value of a double given by its shortest decimal. *)
Definition of_canonical (negative : bool) (digits : string) (exponent : Z)
  : json :=
  let v := digits_value digits * 10 ^ exponent in
  if (0 <=? exponent) && (v <=? 2 ^ 53) then JNum (if negative then - v else v)
  else JDec negative digits exponent.

(** The Number value of [digits * 10 ^ exponent], for digits that are not
    all zero. *)
Definition number_of_digits (negative : bool) (digits : string) (exponent : Z)
  : option json :=
  match round_decimal (digits_value digits) exponent with
  | None => Some JNull
  | Some (m, e) =>
      if m =? 0 then Some (JNum 0)
      else
        match shortest m e with
        | Some (ds, E) => Some (of_canonical negative ds E)
        | None => None
        end
  end.

Fixpoint join_comma (parts : list string) : string :=
  match parts with
  | [] => EmptyString
  | [p] => p
  | p :: ps => p +:+ "," +:+ join_comma ps
  end.

Fixpoint stringify (v : json) : string :=
  match v with
  | JNull => "null"
  | JBool true => "true"
  | JBool false => "false"
  | JNum n => number_to_string n
  | JDec negative digits exponent => decimal_to_string negative digits exponent
  | JStr s => quote s
  | JArr elems => "[" +:+ join_comma (List.map stringify elems) +:+ "]"
  | JObj members =>
      "{" +:+ join_comma
                (List.map (fun kv => match kv with
                                     | (k, x) => quote k +:+ ":" +:+ stringify x
                                     end) members)
          +:+ "}"
  end.

(** *** [JSON.parse]

    A recursive-descent reader of the JSON grammar. *)

Definition is_ws (c : ascii) : bool :=
  let n := byte_of_ascii c in
  (n =? 32) || (n =? 9) || (n =? 10) || (n =? 13).

Fixpoint skip_ws (s : string) : string :=
  match s with
  | String c s' => if is_ws c then skip_ws s' else s
  | EmptyString => s
  end.

Fixpoint strip_prefix (p s : string) : option string :=
  match p, s with
  | EmptyString, _ => Some s
  | String a p', String b s' =>
      if Ascii.eqb a b then strip_prefix p' s' else None
  | String _ _, EmptyString => None
  end.

Fixpoint span_digits (s : string) : string * string :=
  match s with
  | String c s' =>
      if is_digit c
      then let '(ds, rest) := span_digits s' in (String c ds, rest)
      else (EmptyString, s)
  | EmptyString => (EmptyString, s)
  end.

Definition starts_fraction_or_exponent (s : string) : bool :=
  match s with
  | String c _ =>
      let n := byte_of_ascii c in (n =? 46) || (n =? 101) || (n =? 69)
  | EmptyString => false
  end.

(** The fraction of a number, if it has one: the digits after the point. *)
Definition read_fraction (s : string) : option (string * string) :=
  match s with
  | String c s' =>
      if byte_of_ascii c =? 46 then
        match span_digits s' with
        | (EmptyString, _) => None
        | (fs, rest) => Some (fs, rest)
        end
      else Some (EmptyString, s)
  | EmptyString => Some (EmptyString, s)
  end.

(** The digits of an exponent. *)
Definition read_exponent_digits (minus : bool) (s : string)
  : option (option Z * string) :=
  match span_digits s with
  | (EmptyString, _) => None
  | (xs, rest) =>
      Some (Some (if minus then - digits_value xs else digits_value xs), rest)
  end.

(** The exponent of a number, if it has one. *)
Definition read_exponent (s : string) : option (option Z * string) :=
  match s with
  | String c s' =>
      if (byte_of_ascii c =? 101) || (byte_of_ascii c =? 69) then
        match s' with
        | String g s'' =>
            if byte_of_ascii g =? 45 then read_exponent_digits true s''
            else if byte_of_ascii g =? 43 then read_exponent_digits false s''
            else read_exponent_digits false s'
        | EmptyString => None
        end
      else Some (None, s)
  | EmptyString => Some (None, s)
  end.

(** The Number value of a numeral: its digits without the zeros at either
    end, and the power of ten of the last digit that is left. *)
Definition number_of_numeral (negative : bool) (digits : string) (exponent : Z)
  : option json :=
  let ds := strip_leading_zeros digits in
  let kept := strip_trailing_zeros ds in
  match kept with
  | EmptyString => Some (JNum 0)
  | String _ _ =>
      number_of_digits negative kept
        (exponent + Z.of_nat (String.length ds) - Z.of_nat (String.length kept))
  end.

(** A number after its sign: integer part, fraction, exponent. A numeral
    without fraction and exponent of at most [2^53] is the integer it
    writes; any other is rounded to its double. *)
Definition parse_unsigned_number (negative : bool) (s : string)
  : option (json * string) :=
  match span_digits s with
  | (EmptyString, _) => None
  | (String d ds', r1) =>
      if (byte_of_ascii d =? 48) && negb (String.eqb ds' EmptyString) then None
      else
        match read_fraction r1 with
        | None => None
        | Some (fs, r2) =>
            match read_exponent r2 with
            | None => None
            | Some (x, r3) =>
                let n := digits_value (String d ds') in
                match fs, x with
                | EmptyString, None =>
                    if n <=? 2 ^ 53
                    then Some (JNum (if negative then - n else n), r3)
                    else
                      match number_of_numeral negative (String d ds') 0 with
                      | Some v => Some (v, r3)
                      | None => None
                      end
                | _, _ =>
                    match number_of_numeral negative (String d ds' +:+ fs)
                            (default 0 x - Z.of_nat (String.length fs)) with
                    | Some v => Some (v, r3)
                    | None => None
                    end
                end
            end
        end
  end.

Definition parse_number (s : string) : option (json * string) :=
  match s with
  | String c s' =>
      if byte_of_ascii c =? 45 then parse_unsigned_number true s'
      else parse_unsigned_number false s
  | EmptyString => None
  end.

Definition hex_value (c : ascii) : option Z :=
  let n := byte_of_ascii c in
  if (48 <=? n) && (n <=? 57) then Some (n - 48)
  else if (97 <=? n) && (n <=? 102) then Some (n - 87)
  else if (65 <=? n) && (n <=? 70) then Some (n - 55)
  else None.

(** The bytes of the code unit of a [\u] escape: its UTF-8 form, which for
    a surrogate is the three bytes that hold a lone one. *)
Definition utf8_encode (cp : Z) : string :=
  if cp <? 128 then String (ascii_of_byte cp) EmptyString
  else if cp <? 2048 then
    String (ascii_of_byte (192 + cp / 64))
      (String (ascii_of_byte (128 + cp mod 64)) EmptyString)
  else
    String (ascii_of_byte (224 + cp / 4096))
      (String (ascii_of_byte (128 + cp / 64 mod 64))
        (String (ascii_of_byte (128 + cp mod 64)) EmptyString)).

(** The four bytes of the character that a high and a low surrogate, held
    as [ED h2 h3] and [ED l2 l3], make together. *)
Definition pair_bytes (h2 h3 l2 l3 : ascii) : string :=
  let cp := 65536
            + 1024 * (64 * (byte_of_ascii h2 - 160) + (byte_of_ascii h3 - 128))
            + 64 * (byte_of_ascii l2 - 176) + (byte_of_ascii l3 - 128) in
  String (ascii_of_byte (240 + cp / 262144))
    (String (ascii_of_byte (128 + cp / 4096 mod 64))
      (String (ascii_of_byte (128 + cp / 64 mod 64))
        (String (ascii_of_byte (128 + cp mod 64)) EmptyString))).

(** A string is a sequence of code units: where a high surrogate comes to
    stand before a low one, the two are one character. *)
Fixpoint join_surrogates (s : string) : string :=
  match s with
  | EmptyString => EmptyString
  | String c1 t =>
      match t with
      | String c2 (String c3 (String c4 (String c5 (String c6 r)))) =>
          if is_high_surrogate c1 c2 c3 && is_low_surrogate c4 c5 c6
          then pair_bytes c2 c3 c5 c6 +:+ join_surrogates r
          else String c1 (join_surrogates t)
      | _ => String c1 (join_surrogates t)
      end
  end.

Definition unescape (e : ascii) : option ascii :=
  let n := byte_of_ascii e in
  if (n =? 34) || (n =? 92) || (n =? 47) then Some e
  else if n =? 98 then Some (ascii_of_byte 8)
  else if n =? 102 then Some (ascii_of_byte 12)
  else if n =? 110 then Some (ascii_of_byte 10)
  else if n =? 114 then Some (ascii_of_byte 13)
  else if n =? 116 then Some (ascii_of_byte 9)
  else None.

(** The code units of a string literal after its opening quote, each as its
    bytes, and what follows the closing quote. *)
Fixpoint parse_string_units (s : string) : option (string * string) :=
  match s with
  | EmptyString => None
  | String c s' =>
      let n := byte_of_ascii c in
      if n =? 34 then Some (EmptyString, s')
      else if n =? 92 then
        match s' with
        | EmptyString => None
        | String e s'' =>
            match unescape e with
            | Some c' =>
                match parse_string_units s'' with
                | Some (str, rest) => Some (String c' str, rest)
                | None => None
                end
            | None =>
                if byte_of_ascii e =? 117 then
                  match s'' with
                  | String h1 (String h2 (String h3 (String h4 r))) =>
                      match hex_value h1, hex_value h2, hex_value h3, hex_value h4 with
                      | Some a, Some b, Some c4, Some d =>
                          match parse_string_units r with
                          | Some (str, rest) =>
                              Some (utf8_encode (4096 * a + 256 * b + 16 * c4 + d)
                                    +:+ str, rest)
                          | None => None
                          end
                      | _, _, _, _ => None
                      end
                  | _ => None
                  end
                else None
            end
        end
      else if n <? 32 then None
      else
        match parse_string_units s' with
        | Some (str, rest) => Some (String c str, rest)
        | None => None
        end
  end.

(** The text of a string literal after its opening quote, and what follows
    the closing quote. *)
Definition parse_string_body (s : string) : option (string * string) :=
  match parse_string_units s with
  | Some (str, rest) => Some (join_surrogates str, rest)
  | None => None
  end.

Definition parse_literal (lit : string) (v : json) (s : string)
  : option (json * string) :=
  match strip_prefix lit s with
  | Some rest => Some (v, rest)
  | None => None
  end.

Fixpoint parse_value (fuel : nat) (s : string) : option (json * string) :=
  match fuel with
  | O => None
  | Datatypes.S fuel' =>
      match skip_ws s with
      | EmptyString => None
      | String c rest =>
          let n := byte_of_ascii c in
          if n =? 123 then
            match skip_ws rest with
            | EmptyString => None
            | String c' rest' =>
                if byte_of_ascii c' =? 125 then Some (JObj [], rest')
                else
                  match parse_members fuel' [] rest with
                  | Some (o, r) => Some (JObj o, r)
                  | None => None
                  end
            end
          else if n =? 91 then
            match skip_ws rest with
            | EmptyString => None
            | String c' rest' =>
                if byte_of_ascii c' =? 93 then Some (JArr [], rest')
                else
                  match parse_elements fuel' rest with
                  | Some (l, r) => Some (JArr l, r)
                  | None => None
                  end
            end
          else if n =? 34 then
            match parse_string_body rest with
            | Some (str, r) => Some (JStr str, r)
            | None => None
            end
          else if n =? 110 then parse_literal "null" JNull (String c rest)
          else if n =? 116 then parse_literal "true" (JBool true) (String c rest)
          else if n =? 102 then parse_literal "false" (JBool false) (String c rest)
          else
            parse_number (String c rest)
      end
  end
with parse_elements (fuel : nat) (s : string) : option (list json * string) :=
  match fuel with
  | O => None
  | Datatypes.S fuel' =>
      match parse_value fuel' s with
      | None => None
      | Some (v, rest) =>
          match skip_ws rest with
          | EmptyString => None
          | String c rest' =>
              if byte_of_ascii c =? 44 then
                match parse_elements fuel' rest' with
                | Some (vs, r) => Some (v :: vs, r)
                | None => None
                end
              else if byte_of_ascii c =? 93 then Some ([v], rest')
              else None
          end
      end
  end
with parse_members (fuel : nat) (acc : list (string * json)) (s : string)
  : option (list (string * json) * string) :=
  match fuel with
  | O => None
  | Datatypes.S fuel' =>
      match skip_ws s with
      | EmptyString => None
      | String q rest =>
          if byte_of_ascii q =? 34 then
            match parse_string_body rest with
            | None => None
            | Some (k, rest1) =>
                match skip_ws rest1 with
                | EmptyString => None
                | String c1 rest2 =>
                    if byte_of_ascii c1 =? 58 then
                      match parse_value fuel' rest2 with
                      | None => None
                      | Some (v, rest3) =>
                          match skip_ws rest3 with
                          | EmptyString => None
                          | String c3 rest4 =>
                              if byte_of_ascii c3 =? 44
                              then parse_members fuel' (obj_set k v acc) rest4
                              else if byte_of_ascii c3 =? 125
                              then Some (obj_set k v acc, rest4)
                              else None
                          end
                      end
                    else None
                end
            end
          else None
      end
  end.

(** [JSON.parse(text)]; [None] stands for the thrown [SyntaxError]. *)
Definition parse (text : string) : option json :=
  match parse_value (2 * String.length text + 2) text with
  | Some (v, rest) =>
      match skip_ws rest with
      | EmptyString => Some v
      | String _ _ => None
      end
  | None => None
  end.

End JSON.

(** JSON texts in the examples are written with ['] for the double quote. *)
Fixpoint js (s : string) : string :=
  match s with
  | EmptyString => EmptyString
  | String c s' =>
      String (if byte_of_ascii c =? 39 then JSON.dquote else c) (js s')
  end.

(* ===================================================================== *)
(** ** [RegExp.prototype.test] for the patterns of the allow-list *)
(* ===================================================================== *)

Module RegExp.

Inductive regex : Type :=
| Empty
| Eps
| Chr (c : ascii)
| Dot
| Seq (r1 r2 : regex)
| Alt (r1 r2 : regex)
| Star (r : regex).

(** [r+], [r?] and a run of literal characters. *)
Definition Plus (r : regex) : regex := Seq r (Star r).
Definition Opt (r : regex) : regex := Alt r Eps.
Fixpoint Lit (s : string) : regex :=
  match s with
  | EmptyString => Eps
  | String c s' => Seq (Chr c) (Lit s')
  end.

(** [.] matches any character but a line terminator (of these, the line
    feed and the carriage return; the two separators beyond ASCII are not
    told apart in a text of bytes). *)
Definition dot_matches (c : ascii) : bool :=
  negb (byte_of_ascii c =? 10) && negb (byte_of_ascii c =? 13).

Fixpoint nullable (r : regex) : bool :=
  match r with
  | Empty => false
  | Eps => true
  | Chr _ => false
  | Dot => false
  | Seq r1 r2 => nullable r1 && nullable r2
  | Alt r1 r2 => nullable r1 || nullable r2
  | Star _ => true
  end.

(** The Brzozowski derivative: what is left of [r] after reading [c]. *)
Fixpoint deriv (c : ascii) (r : regex) : regex :=
  match r with
  | Empty => Empty
  | Eps => Empty
  | Chr c' => if Ascii.eqb c c' then Eps else Empty
  | Dot => if dot_matches c then Eps else Empty
  | Seq r1 r2 =>
      if nullable r1
      then Alt (Seq (deriv c r1) r2) (deriv c r2)
      else Seq (deriv c r1) r2
  | Alt r1 r2 => Alt (deriv c r1) (deriv c r2)
  | Star r1 => Seq (deriv c r1) (Star r1)
  end.

(** Does [r] match at the start of [s]? *)
Fixpoint match_here (r : regex) (s : string) : bool :=
  nullable r
  || match s with
     | EmptyString => false
     | String c s' => match_here (deriv c r) s'
     end.

(** [r.test(s)] for a pattern without anchors: a match may start anywhere. *)
Fixpoint test (r : regex) (s : string) : bool :=
  match_here r s
  || match s with
     | EmptyString => false
     | String _ s' => test r s'
     end.

End RegExp.

(* ===================================================================== *)
(** ** The platform objects the worker handles *)
(* ===================================================================== *)

(** A parsed [URL]; [url_base] is the scheme and authority and [fragment]
    the part the platform calls [hash]. *)
Record URL : Type := mkURL {
  url_base : string;
  pathname : string;
  search : string;
  fragment : string
}.

Definition URL_toString (u : URL) : string :=
  url_base u +:+ pathname u +:+ search u +:+ fragment u.

Definition lower_ascii (c : ascii) : ascii :=
  let n := byte_of_ascii c in
  if (65 <=? n) && (n <=? 90) then ascii_of_byte (n + 32) else c.

Definition upper_ascii (c : ascii) : ascii :=
  let n := byte_of_ascii c in
  if (97 <=? n) && (n <=? 122) then ascii_of_byte (n - 32) else c.

Fixpoint map_string (f : ascii -> ascii) (s : string) : string :=
  match s with
  | EmptyString => EmptyString
  | String c s' => String (f c) (map_string f s')
  end.

Definition toUpperCase : string -> string := map_string upper_ascii.
Definition toLowerCase : string -> string := map_string lower_ascii.

(** [Headers]: a list of name and value; names compare without case, and
    [get] answers the values of a name in their order, joined by a comma
    and a space. *)
Definition Headers : Type := list (string * string).

Definition Headers_get (name : string) (h : Headers) : option string :=
  match List.filter
          (fun nv => String.eqb (toLowerCase (fst nv)) (toLowerCase name)) h with
  | [] => None
  | nv :: more =>
      Some (foldl (fun joined nv' => joined +:+ ", " +:+ snd nv') (snd nv) more)
  end.

Definition Headers_append (name value : string) (h : Headers) : Headers :=
  (h ++ [(name, value)])%list.

(** An inbound or outbound [Request]; [text] is the text of its body, empty
    when it has none. *)
Record Request : Type := mkRequest {
  method : string;
  url : URL;
  headers : Headers;
  text : string
}.

Record Response : Type := mkResponse {
  status : Z;
  r_headers : Headers;
  r_body : option string
}.

(** [response.text()]. *)
Definition Response_text (r : Response) : string := default EmptyString (r_body r).

(** [new Response(body, { headers })]: status 200, and a text body without
    a declared content type is [text/plain]. *)
Definition new_Response (body : option string) (h : Headers) : Response :=
  let h' :=
    match body, Headers_get "content-type" h with
    | Some _, None => Headers_append "content-type" "text/plain;charset=UTF-8" h
    | _, _ => h
    end in
  mkResponse 200 h' body.

(** [new Response(body, init)] with another response as [init]: its status
    and headers are kept. *)
Definition new_Response_from (body : option string) (init : Response) : Response :=
  let h' :=
    match body, Headers_get "content-type" (r_headers init) with
    | Some _, None =>
        Headers_append "content-type" "text/plain;charset=UTF-8" (r_headers init)
    | _, _ => r_headers init
    end in
  mkResponse (status init) h' body.

(** A thrown [Error]; only its message is observed by the worker. *)
Inductive JsError : Type := Error (message : string).

Definition message_of (e : JsError) : string := let 'Error m := e in m.

(** What [JSON.parse] and [Response.json] throw; the engine's own wording of
    the message is not modelled. *)
Definition SyntaxError : JsError := Error "SyntaxError: Unexpected token in JSON".

Inductive result (A : Type) : Type :=
| Ok (a : A)
| Throw (e : JsError).
Arguments Ok {A} a.
Arguments Throw {A} e.

Definition rbind {A B : Type} (m : result A) (k : A -> result B) : result B :=
  match m with
  | Ok a => k a
  | Throw e => Throw e
  end.

Notation "'let!' x ':=' m 'in' k" := (rbind m (fun x => k))
  (at level 10, x pattern, k at level 200).

Fixpoint mapM {A B : Type} (f : A -> result B) (l : list A) : result (list B) :=
  match l with
  | [] => Ok []
  | a :: l' => let! b := f a in let! bs := mapM f l' in Ok (b :: bs)
  end.

Definition JSON_parse (s : string) : result json :=
  match JSON.parse s with
  | Some v => Ok v
  | None => Throw SyntaxError
  end.

Definition JSON_stringify : json -> string := JSON.stringify.

(** [request.clone().json()] and [response.json()]. *)
Definition Request_json (r : Request) : result json := JSON_parse (text r).
Definition Response_json (r : Response) : result json := JSON_parse (Response_text r).

(** The Cache API store, addressed by the URL of the key request. *)
Abbreviation Cache := (gmap string Response).

(** What one invocation can observe and change: the cache as its lookups
    find it, the requests it sent to the origin and the writes it handed to
    [ctx.waitUntil]. Whether and for how long the platform keeps a write is
    not the handler's doing, and no lookup of the invocation comes after a
    write: the writes are recorded and the cache that was read is left as it
    was read. *)
Record World : Type := mkWorld {
  cache : Cache;
  origin_calls : list Request;
  cache_puts : list (string * Response)
}.

(** An asynchronous step of the worker: it may change the world and either
    yields a value or throws. *)
Definition M (A : Type) : Type := World -> result A * World.

Definition pure {A : Type} (r : result A) : M A := fun w => (r, w).

Definition mbind' {A B : Type} (m : M A) (k : A -> M B) : M B :=
  fun w =>
    match m w with
    | (Ok a, w') => k a w'
    | (Throw e, w') => (Throw e, w')
    end.

Notation "'let*' x ':=' m 'in' k" := (mbind' m (fun x => k))
  (at level 10, x pattern, k at level 200).

(** [await fetch(request)]: the origin answers or the call rejects; the
    request sent is recorded. *)
Definition await_fetch (origin_fetch : Request -> result Response)
    (req : Request) : M Response :=
  fun w =>
    (origin_fetch req,
     mkWorld (cache w) (origin_calls w ++ [req])%list (cache_puts w)).

(** [ctx.waitUntil(cache.put(cacheKey, response))]: the write is issued
    and not awaited. *)
Definition cache_put (cacheKey : Request) (response : Response) : M unit :=
  fun w =>
    let k := URL_toString (url cacheKey) in
    (Ok tt,
     mkWorld (cache w) (origin_calls w) (cache_puts w ++ [(k, response)])%list).

(** [cache.match(cacheKey)]. *)
Definition cache_match (c : Cache) (cacheKey : Request) : option Response :=
  c !! URL_toString (url cacheKey).

(** [fetch(request, { headers: request.headers, body })]: without a body in
    the init the request keeps its own. *)
Definition Request_with_body (request : Request) (body : option string) : Request :=
  mkRequest (method request) (url request) (headers request)
            (default (text request) body).

(* ===================================================================== *)
(** ** The worker: [src/index.ts] *)
(* ===================================================================== *)

Import RegExp.

(** Lines 13-17. *)
Definition ALLOWED_ORIGINS : list regex :=
  [ Seq (Lit "localhost:") (Plus Dot);
    Seq (Opt (Seq (Plus Dot) (Chr "."))) (Lit "daodao.zone");
    Seq (Plus Dot) (Lit "-da0da0.vercel.app") ].

(** Line 20. *)
Definition CACHE_SECONDS : Z := 1.

(** A string in a condition: the empty string is falsy. *)
Definition truthy (s : string) : bool := negb (String.eqb s EmptyString).

(** What a property access on [undefined] and an [in] on a primitive throw;
    the worker never gets there. *)
Definition TypeError : JsError := Error "TypeError".

(** Lines 22-47. *)
Definition cacheKeyForRequestAndBody (request : Request) (body : string)
  : result Request :=
  let! body :=
    if truthy body && String.prefix "{" body then
      let! jsonBody := JSON_parse body in
      match jsonBody with
      | JObj o =>
          if JSON.obj_has "id" o
          then Ok (JSON_stringify (JObj (JSON.obj_set "id" (JNum (-1)) o)))
          else Ok body
      | JArr _ => Ok body
      | _ => Throw TypeError
      end
    else Ok body in
  let hash := if truthy body then sha1 body else EmptyString in
  let cacheUrl := url request in
  let cacheUrl :=
    mkURL (url_base cacheUrl) (pathname cacheUrl +:+ hash) (search cacheUrl)
          (fragment cacheUrl) in
  Ok (mkRequest "GET" cacheUrl (headers request) EmptyString).

(** One element of [bodiesWithResponses] (lines 86-91). *)
Record Entry : Type := mkEntry {
  body : string;
  index : nat;
  response : option string;
  cached : bool
}.

(** [Promise.all(l.map(async (x, i) => f x i))], the callbacks taken in the
    order of the list. *)
Fixpoint mapM_indexed {A B : Type} (f : A -> nat -> result B) (i : nat)
    (l : list A) : result (list B) :=
  match l with
  | [] => Ok []
  | a :: l' =>
      let! b := f a i in
      let! bs := mapM_indexed f (S i) l' in
      Ok (b :: bs)
  end.

(** Lines 61-73: [bodies]. *)
Definition bodies_of (request : Request) : result (list string) :=
  if decide (Headers_get "content-type" (headers request) = Some "application/json")
  then
    let! jsonBody := Request_json request in
    match jsonBody with
    | JArr elems => Ok (JSON_stringify <$> elems)
    | _ => Ok [JSON_stringify jsonBody]
    end
  else Ok [text request].

(** Lines 79-92: the callback that looks one body up in the cache. *)
Definition lookup (c : Cache) (request : Request) (body : string) (index : nat)
  : result Entry :=
  let! cacheKey := cacheKeyForRequestAndBody request body in
  let response := cache_match c cacheKey in
  let responseBody := Response_text <$> response in
  Ok (mkEntry body index responseBody (truthy (default EmptyString responseBody))).

(** Lines 78-93: [bodiesWithResponses]. *)
Definition bodiesWithResponses_of (c : Cache) (request : Request)
    (bodies : list string) : result (list Entry) :=
  mapM_indexed (lookup c request) 0 bodies.

(** Line 96: [uncachedBodies]. *)
Definition uncachedBodies_of (bodiesWithResponses : list Entry) : list Entry :=
  List.filter (fun b => negb (cached b)) bodiesWithResponses.

(** What lines 98-131 leave behind: either the early [return uncachedResponse]
    of line 127, or [uncachedResponse] and [uncachedResponses]. *)
Inductive Dispatched : Type :=
| ReturnVerbatim (uncachedResponse : Response)
| Fetched (uncachedResponse : Response) (uncachedResponses : list json).

(** Lines 98-131. *)
Definition dispatch (origin_fetch : Request -> result Response)
    (request : Request) (uncachedBodies : list Entry) : M Dispatched :=
  if (1 <? length uncachedBodies)%nat then
    let* parsed := pure (mapM (fun b => JSON_parse (body b)) uncachedBodies) in
    let* uncachedResponse :=
      await_fetch origin_fetch
        (Request_with_body request (Some (JSON_stringify (JArr parsed)))) in
    let* uncachedResponses := pure (Response_json uncachedResponse) in
    match uncachedResponses with
    | JArr rs =>
        if negb (length uncachedBodies =? length rs)%nat
        then pure (Throw (Error "Batched responses do not matched uncached requests."))
        else pure (Ok (Fetched uncachedResponse rs))
    | _ => pure (Throw (Error "Batched responses should be an array of responses."))
    end
  else
    match uncachedBodies with
    | [] => pure (Throw TypeError)
    | first :: _ =>
        let* uncachedResponse :=
          await_fetch origin_fetch
            (Request_with_body request
               (if truthy (body first) then Some (body first) else None)) in
        if decide (Headers_get "content-type" (r_headers uncachedResponse)
                   = Some "text/html")
        then pure (Ok (ReturnVerbatim uncachedResponse))
        else
          let* r := pure (Response_json uncachedResponse) in
          pure (Ok (Fetched uncachedResponse [r]))
    end.

(** Lines 135-152: the callback that caches one fetched result and writes it
    into [bodiesWithResponses]. *)
Definition store (request : Request) (uncachedResponse : Response)
    (uncachedResponses : list json) (bodiesWithResponses : list Entry)
    (b : Entry) (queryIndex : nat) : M (list Entry) :=
  let responseBody := JSON_stringify <$> (uncachedResponses !! queryIndex) in
  let* cacheKey := pure (cacheKeyForRequestAndBody request (body b)) in
  let response := new_Response_from responseBody uncachedResponse in
  let response :=
    mkResponse (status response)
      (Headers_append "Cache-Control"
         ("s-maxage=" +:+ JSON.number_to_string CACHE_SECONDS) (r_headers response))
      (r_body response) in
  let* _ := cache_put cacheKey response in
  match bodiesWithResponses !! index b with
  | Some target =>
      pure (Ok (<[index b := mkEntry (body target) (index target) responseBody
                                   (cached target)]> bodiesWithResponses))
  | None => pure (Throw TypeError)
  end.

(** Lines 134-153: the callbacks over [uncachedBodies], in order. *)
Fixpoint store_all (request : Request) (uncachedResponse : Response)
    (uncachedResponses : list json) (uncachedBodies : list Entry)
    (queryIndex : nat) (bodiesWithResponses : list Entry) : M (list Entry) :=
  match uncachedBodies with
  | [] => pure (Ok bodiesWithResponses)
  | b :: rest =>
      let* updated :=
        store request uncachedResponse uncachedResponses bodiesWithResponses
              b queryIndex in
      store_all request uncachedResponse uncachedResponses rest (S queryIndex)
                updated
  end.

(** [ALLOWED_ORIGINS.some((r) => r.test(origin))]. *)
Definition origin_allowed (origin : string) : bool :=
  existsb (fun r => test r origin) ALLOWED_ORIGINS.

(** Lines 161-164 and 183-186: the spread of the CORS header. *)
Definition cors (origin : string) : Headers :=
  if origin_allowed origin
  then [("Access-Control-Allow-Origin", origin)]
  else [].

(** Line 171: [response && JSON.parse(response)]. An [undefined] element is
    written [null] by the [JSON.stringify] of line 169. *)
Definition response_value (b : Entry) : result json :=
  match response b with
  | None => Ok JNull
  | Some r => if truthy r then JSON_parse r else Ok (JStr r)
  end.

(** Lines 156-190. *)
Definition final_response (origin : string) (bodiesWithResponses : list Entry)
  : result Response :=
  if (length bodiesWithResponses =? 1)%nat then
    match bodiesWithResponses with
    | first :: _ =>
        Ok (new_Response (response first)
              ([("Content-Type", "application/json");
                ("Cached", JSON_stringify (JBool (cached first)))]
               ++ cors origin)%list)
    | [] => Throw TypeError
    end
  else
    let! values := mapM response_value bodiesWithResponses in
    Ok (new_Response (Some (JSON_stringify (JArr values)))
          ([("Content-Type", "application/json");
            ("Cached",
             JSON_stringify
               (JArr ((fun b => JNum (Z.of_nat (index b)))
                        <$> List.filter cached bodiesWithResponses)))]
           ++ cors origin)%list).

(** Lines 61-154: [bodiesWithResponses] once the misses were fetched and
    written back, or the response that line 127 returns as it is. *)
Definition resolve (origin_fetch : Request -> result Response)
    (request : Request) : M (Response + list Entry) :=
  fun w =>
    (let* bodies := pure (bodies_of request) in
     let* bodiesWithResponses :=
       pure (bodiesWithResponses_of (cache w) request bodies) in
     let uncachedBodies := uncachedBodies_of bodiesWithResponses in
     if (0 <? length uncachedBodies)%nat then
       let* d := dispatch origin_fetch request uncachedBodies in
       match d with
       | ReturnVerbatim uncachedResponse => pure (Ok (inl uncachedResponse))
       | Fetched uncachedResponse uncachedResponses =>
           let* updated :=
             store_all request uncachedResponse uncachedResponses
                       uncachedBodies 0 bodiesWithResponses in
           pure (Ok (inr updated))
       end
     else pure (Ok (inr bodiesWithResponses))) w.

(** Lines 61-190: the branch of [GET] and [POST]. *)
Definition handle_rpc (origin_fetch : Request -> result Response)
    (request : Request) (origin : string) : M Response :=
  let* resolved := resolve origin_fetch request in
  match resolved with
  | inl uncachedResponse => pure (Ok uncachedResponse)
  | inr bodiesWithResponses => pure (final_response origin bodiesWithResponses)
  end.

(** Lines 191-219: the branch of [OPTIONS]. *)
Definition handle_options (request : Request) (origin : string) : Response :=
  let corsRequestHeaders :=
    Headers_get "Access-Control-Request-Headers" (headers request) in
  if truthy origin
     && bool_decide (Headers_get "Access-Control-Request-Method" (headers request)
                     <> None)
     && truthy (default EmptyString corsRequestHeaders)
     && origin_allowed origin
  then
    new_Response None
      [("Access-Control-Allow-Origin", origin);
       ("Access-Control-Allow-Methods", "GET,HEAD,POST,OPTIONS");
       ("Access-Control-Max-Age", "86400");
       ("Access-Control-Allow-Headers", default EmptyString corsRequestHeaders)]
  else new_Response None [("Allow", "GET, HEAD, POST, OPTIONS")].

(** What the body of the [try] block hands back with [return]: a response,
    or (line 222) the promise of [fetch(request)], which is not awaited. *)
Inductive Returned : Type :=
| Value (r : Response)
| Promise (settles_to : result Response).

(** Lines 59-222: the body of the [try] block. *)
Definition try_block (origin_fetch : Request -> result Response)
    (request : Request) (origin : string) : M Returned :=
  let method := toUpperCase (method request) in
  if String.eqb method "GET" || String.eqb method "POST" then
    let* r := handle_rpc origin_fetch request origin in
    pure (Ok (Value r))
  else if String.eqb method "OPTIONS" then
    pure (Ok (Value (handle_options request origin)))
  else
    fun w =>
      let '(p, w') := await_fetch origin_fetch request w in
      (Ok (Promise p), w').

(** How the promise of the handler settles. *)
Inductive Outcome : Type :=
| Resolved (r : Response)
| Rejected (e : JsError).

(** Line 56: [request.headers.get('Origin') || '']. *)
Definition origin_of (request : Request) : string :=
  default EmptyString (Headers_get "Origin" (headers request)).

(** Lines 225-227: the response built in the [catch] block. *)
Definition error_response (e : JsError) : Response :=
  new_Response (Some ("Error thrown " +:+ message_of e)) [].

(** Lines 51-229: the entry point. An exception thrown inside the [try]
    block is caught (lines 223-228); a promise that the block returned is
    adopted once the block has been left, so its rejection is the
    handler's. *)
Definition fetch (origin_fetch : Request -> result Response)
    (request : Request) (w : World) : Outcome * World :=
  let origin := origin_of request in
  match try_block origin_fetch request origin w with
  | (Ok (Value r), w') => (Resolved r, w')
  | (Ok (Promise (Ok r)), w') => (Resolved r, w')
  | (Ok (Promise (Throw e)), w') => (Rejected e, w')
  | (Throw e, w') => (Resolved (error_response e), w')
  end.

(* ===================================================================== *)
(** ** Notions the properties are stated with *)
(* ===================================================================== *)

(** Two call bodies that are JSON objects with an [id], equal but for the
    value of that [id]: the second is the first with its [id] replaced. *)
Definition same_except_id (b1 b2 : string) : Prop :=
  exists (o : list (string * json)) (x : json),
    JSON.parse b1 = Some (JObj o)
    /\ JSON.obj_has "id" o = true
    /\ JSON.parse b2 = Some (JObj (JSON.obj_set "id" x o)).

(** The request used in the examples: a call on [https://rpc.example/]. *)
Definition example_url : URL :=
  mkURL "https://rpc.example" "/" EmptyString EmptyString.

Definition example_request (m content_type origin body : string) : Request :=
  mkRequest m example_url
            [("content-type", content_type); ("origin", origin)] body.

Definition empty_world : World := mkWorld ∅ [] [].

(** A cache that holds, under the key of the call [status], a response with
    an empty body. *)
Definition status_call : string := js "{'id':1,'method':'status'}".

Definition status_key : string :=
  "https://rpc.example/" +:+ sha1 (js "{'id':-1,'method':'status'}").

Definition cache_with_empty_body : Cache :=
  <[status_key := mkResponse 200 [] (Some EmptyString)]> ∅.

(** The words a pattern denotes, against which [RegExp.test] is checked. *)
Inductive matches : regex -> string -> Prop :=
| MEps : matches Eps EmptyString
| MChr (c : ascii) : matches (Chr c) (String c EmptyString)
| MDot (c : ascii) : dot_matches c = true -> matches Dot (String c EmptyString)
| MSeq (r1 r2 : regex) (s1 s2 : string) :
    matches r1 s1 -> matches r2 s2 -> matches (Seq r1 r2) (s1 +:+ s2)
| MAltL (r1 r2 : regex) (s : string) : matches r1 s -> matches (Alt r1 r2) s
| MAltR (r1 r2 : regex) (s : string) : matches r2 s -> matches (Alt r1 r2) s
| MStarNil (r : regex) : matches (Star r) EmptyString
| MStarApp (r : regex) (s1 s2 : string) :
    matches r s1 -> matches (Star r) s2 -> matches (Star r) (s1 +:+ s2).

(** The allow-list as the specification describes it: local development
    hosts, the production domain and its subdomains, and the preview
    deployments. [host_of] is the host of an origin [scheme://host:port]. *)
Fixpoint drop_through_slashes (s : string) : string :=
  match s with
  | String a (String b rest as tail) =>
      if (byte_of_ascii a =? 47) && (byte_of_ascii b =? 47) then rest
      else drop_through_slashes tail
  | _ => s
  end.

Fixpoint up_to_colon (s : string) : string :=
  match s with
  | EmptyString => EmptyString
  | String c rest =>
      if byte_of_ascii c =? 58 then EmptyString else String c (up_to_colon rest)
  end.

Definition host_of (origin : string) : string :=
  up_to_colon (drop_through_slashes origin).

Fixpoint ends_with (suffix s : string) : bool :=
  String.eqb suffix s
  || match s with
     | EmptyString => false
     | String _ s' => ends_with suffix s'
     end.

Definition described_allow_list (origin : string) : bool :=
  let host := host_of origin in
  String.eqb host "localhost"
  || String.eqb host "daodao.zone" || ends_with ".daodao.zone" host
  || ends_with "-da0da0.vercel.app" host.

(** The methods served from the cache (line 60). *)
Definition rpc_method (request : Request) : bool :=
  String.eqb (toUpperCase (method request)) "GET"
  || String.eqb (toUpperCase (method request)) "POST".

(** What lines 134-153 are to leave in [bodiesWithResponses]: the k-th miss
    carries the text of the k-th fetched result, a hit is untouched. *)
Fixpoint backfilled (uncachedResponses : list json) (queryIndex : nat)
    (bodiesWithResponses : list Entry) : list Entry :=
  match bodiesWithResponses with
  | [] => []
  | b :: rest =>
      if cached b then b :: backfilled uncachedResponses queryIndex rest
      else mkEntry (body b) (index b)
                   (JSON_stringify <$> (uncachedResponses !! queryIndex))
                   (cached b)
           :: backfilled uncachedResponses (S queryIndex) rest
  end.

(** The positions of the flags that are set. *)
Fixpoint positions_from (i : nat) (flags : list bool) : list nat :=
  match flags with
  | [] => []
  | f :: rest =>
      if f then i :: positions_from (S i) rest else positions_from (S i) rest
  end.

Definition hit_positions (bodiesWithResponses : list Entry) : list nat :=
  positions_from 0 (cached <$> bodiesWithResponses).

(** The world once a request was sent to the origin. *)
Definition sent (req : Request) (w : World) : World :=
  mkWorld (cache w) (origin_calls w ++ [req])%list (cache_puts w).

(** The two errors of lines 108-118. *)
Definition not_an_array : JsError :=
  Error "Batched responses should be an array of responses.".
Definition count_mismatch : JsError :=
  Error "Batched responses do not matched uncached requests.".

(** An origin that answers every request with the given JSON text. *)
Definition origin_answering (json_text : string) (_ : Request) : result Response :=
  Ok (mkResponse 200 [("content-type", "application/json")] (Some json_text)).

(** An origin that cannot be reached. *)
Definition origin_down (_ : Request) : result Response :=
  Throw (Error "Network connection lost.").

(** A batch of two calls, and the entries of its two misses. *)
Definition two_calls : string :=
  js "[{'id':1,'method':'status'},{'id':2,'method':'health'}]".

Definition two_misses : list Entry :=
  [mkEntry (js "{'id':1,'method':'status'}") 0 None false;
   mkEntry (js "{'id':2,'method':'health'}") 1 None false].

(** A batch of three calls, and a cache that holds the results of the first
    and of the third. *)
Definition three_calls : string :=
  js "[{'id':1,'method':'status'},{'id':2,'method':'health'},{'id':3,'method':'genesis'}]".

Definition three_elems : list json :=
  [JObj [("id", JNum 1); ("method", JStr "status")];
   JObj [("id", JNum 2); ("method", JStr "health")];
   JObj [("id", JNum 3); ("method", JStr "genesis")]].

Definition cached_result (json_text : string) : Response :=
  mkResponse 200
    [("content-type", "application/json"); ("Cache-Control", "s-maxage=1")]
    (Some json_text).

Definition cache_with_two_hits : Cache :=
  <[status_key := cached_result (js "{'result':'ok'}")]>
    (<["https://rpc.example/" +:+ sha1 (js "{'id':-1,'method':'genesis'}")
       := cached_result (js "{'result':'g'}")]> ∅).

Definition world_with_two_hits : World := mkWorld cache_with_two_hits [] [].

Definition three_entries : list Entry :=
  [mkEntry (js "{'id':1,'method':'status'}") 0 (Some (js "{'result':'ok'}")) true;
   mkEntry (js "{'id':2,'method':'health'}") 1 None false;
   mkEntry (js "{'id':3,'method':'genesis'}") 2 (Some (js "{'result':'g'}")) true].

(** What the batch of three calls leads to when the origin answers the one
    miss: the entries that reach the assembly and the assembled response. *)
Definition three_bodies : list string :=
  [js "{'id':1,'method':'status'}"; js "{'id':2,'method':'health'}";
   js "{'id':3,'method':'genesis'}"].

Definition three_final_entries : list Entry :=
  [mkEntry (js "{'id':1,'method':'status'}") 0 (Some (js "{'result':'ok'}")) true;
   mkEntry (js "{'id':2,'method':'health'}") 1 (Some (js "{'result':'h'}")) false;
   mkEntry (js "{'id':3,'method':'genesis'}") 2 (Some (js "{'result':'g'}")) true].

Definition three_request : Request :=
  example_request "POST" "application/json" "https://dao.daodao.zone" three_calls.

Definition three_response : Response :=
  mkResponse 200
    [("Content-Type", "application/json"); ("Cached", "[0,2]");
     ("Access-Control-Allow-Origin", "https://dao.daodao.zone")]
    (Some (js "[{'result':'ok'},{'result':'h'},{'result':'g'}]")).

(** A batch of one call. *)
Definition one_call_batch : Request :=
  example_request "POST" "application/json" EmptyString
                  (js "[{'id':1,'method':'status'}]").

(** A world whose cache holds the result of the call [status]. *)
Definition world_with_status_hit : World :=
  mkWorld (<[status_key := cached_result (js "{'result':'ok'}")]> ∅) [] [].

(** A call sent from a page of an origin that only contains [daodao.zone]. *)
Definition evil_request : Request :=
  example_request "POST" "application/json" "https://daodao.zone.evil.example"
                  status_call.

(** What may follow a number in a JSON text: not a digit, and not the start
    of a fraction or of an exponent. *)
Definition number_end (rest : string) : bool :=
  match rest with
  | EmptyString => true
  | String c _ =>
      negb (JSON.is_digit c) && negb (JSON.starts_fraction_or_exponent rest)
  end.

(** *** Objects as [JSON.parse] builds them

    [stop k e]: a new key [k] is put before the existing key [e]. *)
Definition stop (k e : string) : bool :=
  match JSON.array_index k, JSON.array_index e with
  | Some i, Some i' => i <? i'
  | Some _, None => true
  | None, _ => false
  end.

(** [e] may stand before [k] in an object. *)
Definition key_order (e k : string) : Prop := k <> e /\ stop k e = false.

(** The keys of an object stand in the order in which they are enumerated,
    and no key stands twice. *)
Definition canonical (o : list (string * json)) : Prop :=
  Sorted.StronglySorted key_order (List.map fst o).

(** The digits of a shortest decimal: at least one, and no zero at either
    end. *)
Definition shortest_digits (ds : string) : bool :=
  JSON.all_digits ds && negb (String.eqb ds EmptyString)
  && String.eqb (JSON.strip_leading_zeros ds) ds
  && String.eqb (JSON.strip_trailing_zeros ds) ds.

(** A string in which no high surrogate stands before a low one: the two
    would be one character. *)
Definition wf_string (s : string) : Prop := JSON.join_surrogates s = s.

(** The values that [JSON.parse] can return. A [JDec] is the shortest
    decimal of the double it denotes: it is the Number value of its own
    digits. *)
Inductive wf_json : json -> Prop :=
| wf_null : wf_json JNull
| wf_bool (b : bool) : wf_json (JBool b)
| wf_num (n : Z) : Z.abs n <= 2 ^ 53 -> wf_json (JNum n)
| wf_dec (negative : bool) (digits : string) (exponent : Z) :
    shortest_digits digits = true ->
    JSON.number_of_digits negative digits exponent
    = Some (JDec negative digits exponent) ->
    wf_json (JDec negative digits exponent)
| wf_str (s : string) : wf_string s -> wf_json (JStr s)
| wf_arr (elems : list json) : List.Forall wf_json elems -> wf_json (JArr elems)
| wf_obj (members : list (string * json)) :
    canonical members ->
    List.Forall (fun kv => wf_string (fst kv)) members ->
    List.Forall (fun kv => wf_json (snd kv)) members ->
    wf_json (JObj members).

(** Induction on a JSON value with the elements of arrays and the values of
    objects as induction hypotheses. *)
Section json_induction.
Variable P : json -> Prop.
Hypothesis Hnull : P JNull.
Hypothesis Hbool : forall b : bool, P (JBool b).
Hypothesis Hnum : forall n : Z, P (JNum n).
Hypothesis Hdec :
  forall (negative : bool) (digits : string) (exponent : Z),
    P (JDec negative digits exponent).
Hypothesis Hstr : forall s : string, P (JStr s).
Hypothesis Harr : forall elems : list json, List.Forall P elems -> P (JArr elems).
Hypothesis Hobj :
  forall members : list (string * json),
    List.Forall (fun kv => P (snd kv)) members -> P (JObj members).

Fixpoint json_ind' (v : json) : P v :=
  match v with
  | JNull => Hnull
  | JBool b => Hbool b
  | JNum n => Hnum n
  | JDec negative digits exponent => Hdec negative digits exponent
  | JStr s => Hstr s
  | JArr elems =>
      Harr elems
        ((fix all (l : list json) : List.Forall P l :=
            match l with
            | [] => List.Forall_nil P
            | x :: l' => @List.Forall_cons _ P x l' (json_ind' x) (all l')
            end) elems)
  | JObj members =>
      Hobj members
        ((fix all (l : list (string * json))
            : List.Forall (fun kv => P (snd kv)) l :=
            match l with
            | [] => List.Forall_nil _
            | kv :: l' =>
                @List.Forall_cons _ (fun kv => P (snd kv)) kv l'
                                  (json_ind' (snd kv)) (all l')
            end) members)
  end.
End json_induction.

(** The text of one member of an object. *)
Definition member_text (kv : string * json) : string :=
  JSON.quote (fst kv) +:+ ":" +:+ JSON_stringify (snd kv).

(** A text that begins a value: its first character is neither white space
    nor a closing bracket. *)
Definition starts_value (s : string) : Prop :=
  match s with
  | EmptyString => False
  | String c _ =>
      JSON.is_ws c = false
      /\ (byte_of_ascii c =? 93) = false /\ (byte_of_ascii c =? 125) = false
  end.

(** [JSON.parse] reads [v] back from the text [JSON.stringify] wrote,
    whatever follows it that can follow a value. *)
Definition reads_back (v : json) : Prop :=
  wf_json v ->
  forall (rest : string) (fuel : nat),
    number_end rest = true ->
    (2 * String.length (JSON_stringify v +:+ rest) + 1 <= fuel)%nat ->
    JSON.parse_value fuel (JSON_stringify v +:+ rest) = Some (v, rest).

(** The calls of a batch that were not found in the cache, in order. *)
Definition missed_calls (elems : list json) (bodiesWithResponses : list Entry)
  : list json :=
  omap (fun b => elems !! index b) (uncachedBodies_of bodiesWithResponses).

(** *** Notions of the further properties *)

(** A character of a lower-case hexadecimal text. *)
Definition is_lower_hex (c : ascii) : bool :=
  let n := byte_of_ascii c in
  (48 <=? n) && (n <=? 57) || (97 <=? n) && (n <=? 102).

Fixpoint all_chars (p : ascii -> bool) (s : string) : bool :=
  match s with
  | EmptyString => true
  | String c s' => p c && all_chars p s'
  end.

(** An origin that answers every request with a page. *)
Definition origin_answering_html (page : string) (_ : Request) : result Response :=
  Ok (mkResponse 200 [("content-type", "text/html")] (Some page)).

(** What the handler answers to a [GET] or [POST] whose entries are all
    assembled: the response of lines 156-190, or the diagnostic when the
    assembly throws. *)
Definition assembled_or_diagnostic (origin : string) (entries : list Entry)
  : Response :=
  match final_response origin entries with
  | Ok r => r
  | Throw e => error_response e
  end.

(** The response that lines 141-145 store for a fetched result: the status
    and the headers of the origin's reply, [Cache-Control: s-maxage=1]
    appended to them, and the text of the result as body. *)
Definition stored_response (uncachedResponse : Response) (result : json)
  : Response :=
  let response :=
    new_Response_from (Some (JSON_stringify result)) uncachedResponse in
  mkResponse (status response)
    (Headers_append "Cache-Control" "s-maxage=1" (r_headers response))
    (r_body response).

(** A cache after a list of writes, the first of them first. *)
Definition apply_puts (c : Cache) (puts : list (string * Response)) : Cache :=
  foldl (fun c kr => <[fst kr := snd kr]> c) c puts.

(** A later state of the world: one in which every write that was handed
    to the platform has been carried out and is still there. *)
Definition after_writes (w : World) : World :=
  mkWorld (apply_puts (cache w) (cache_puts w)) (origin_calls w) (cache_puts w).

(** The cache holds, under a key, a response with a text that is not
    empty: what a lookup takes as a hit. *)
Definition holds_text (c : Cache) (k : string) : Prop :=
  exists found : Response,
    c !! k = Some found /\ truthy (Response_text found) = true.


(** What follows the digits of a numeral: not a digit. *)
Definition no_digit_head (rest : string) : bool :=
  match rest with
  | EmptyString => true
  | String c _ => negb (JSON.is_digit c)
  end.

(* ===================================================================== *)
(** * Properties *)
(* ===================================================================== *)

(** ** The digest *)

Example sha1_empty : sha1 EmptyString = "d41d8cd98f00b204e9800998ecf8427e".
Proof. vm_compute. reflexivity. Qed.

Example sha1_abc : sha1 "abc" = "900150983cd24fb0d6963f7d28e17f72".
Proof. vm_compute. reflexivity. Qed.

Example sha1_two_blocks :
  sha1 "12345678901234567890123456789012345678901234567890123456789012345678901234567890"
  = "57edf4a22be3c955ac49da2e2107b67a".
Proof. vm_compute. reflexivity. Qed.

Lemma length_append (s t : string) :
  String.length (s +:+ t) = (String.length s + String.length t)%nat.
Proof.
  induction s as [|c s IH]; cbn [String.append String.length];
    [reflexivity | now rewrite IH].
Qed.

Lemma length_hex_fold (bs : list Z) :
  String.length (foldr (fun b acc => hex2 b +:+ acc) EmptyString bs)
  = (2 * length bs)%nat.
Proof.
  induction bs as [|b bs IH]; [reflexivity|].
  cbn [foldr]. rewrite length_append, IH. unfold hex2. simpl. lia.
Qed.

Lemma length_le_bytes (n : nat) (x : Z) : length (MD5.le_bytes n x) = n.
Proof. unfold MD5.le_bytes. now rewrite length_fmap, length_seq. Qed.

(** The digest is 16 bytes, so its hexadecimal text has 32 characters. *)
Lemma sha1_length (message : string) : String.length (sha1 message) = 32%nat.
Proof.
  unfold sha1, MD5.digest. rewrite length_hex_fold.
  rewrite !length_app, !length_le_bytes. reflexivity.
Qed.

Lemma truthy_length (s : string) : truthy s = true <-> (0 < String.length s)%nat.
Proof. destruct s; simpl; split; intros; try lia; try reflexivity; discriminate. Qed.

Lemma sha1_truthy (message : string) : truthy (sha1 message) = true.
Proof. apply truthy_length. rewrite sha1_length. lia. Qed.

(** ** Objects *)

Lemma obj_has_map_value (k : string) (f : string * json -> json)
    (o : list (string * json)) :
  JSON.obj_has k (List.map (fun kv => (fst kv, f kv)) o) = JSON.obj_has k o.
Proof.
  unfold JSON.obj_has. induction o as [|kv o IH]; simpl; [reflexivity|].
  now rewrite IH.
Qed.

Lemma obj_set_present (k : string) (v : json) (o : list (string * json)) :
  JSON.obj_has k o = true ->
  JSON.obj_set k v o
  = List.map (fun kv => (fst kv, if String.eqb (fst kv) k then v else snd kv)) o.
Proof.
  intros H. unfold JSON.obj_set. rewrite H. apply List.map_ext.
  intros [k' v']. simpl. destruct (String.eqb k' k); reflexivity.
Qed.

Lemma obj_has_set (k : string) (v : json) (o : list (string * json)) :
  JSON.obj_has k o = true -> JSON.obj_has k (JSON.obj_set k v o) = true.
Proof.
  intros H. rewrite obj_set_present by exact H.
  rewrite (obj_has_map_value k (fun kv => if String.eqb (fst kv) k then v else snd kv)).
  exact H.
Qed.

(** Assigning a property twice keeps the last value only. *)
Lemma obj_set_set (k : string) (v x : json) (o : list (string * json)) :
  JSON.obj_has k o = true ->
  JSON.obj_set k v (JSON.obj_set k x o) = JSON.obj_set k v o.
Proof.
  intros H. rewrite (obj_set_present k v (JSON.obj_set k x o)) by now apply obj_has_set.
  rewrite (obj_set_present k x o), (obj_set_present k v o) by exact H.
  rewrite List.map_map. apply List.map_ext. intros [k' v']. simpl.
  destruct (String.eqb k' k); reflexivity.
Qed.

(** ** The reader of JSON texts never runs out of fuel *)

Ltac break_match_in H :=
  match type of H with
  | context [match ?x with _ => _ end] =>
      let E := fresh "E" in destruct x eqn:E; try discriminate H
  end.

Lemma skip_ws_length (s : string) :
  (String.length (JSON.skip_ws s) <= String.length s)%nat.
Proof.
  induction s as [|c s IH]; simpl; [lia|].
  destruct (JSON.is_ws c); simpl; lia.
Qed.

Lemma strip_prefix_length (p : string) :
  forall s r : string,
    JSON.strip_prefix p s = Some r ->
    (String.length r + String.length p = String.length s)%nat.
Proof.
  induction p as [|a p IH]; intros s r H; simpl in H.
  - injection H as <-. simpl. lia.
  - destruct s as [|b s]; [discriminate H|].
    destruct (Ascii.eqb a b); [|discriminate H].
    apply IH in H. simpl. lia.
Qed.

Lemma span_digits_length (s : string) :
  forall ds rest : string,
    JSON.span_digits s = (ds, rest) ->
    (String.length ds + String.length rest = String.length s)%nat.
Proof.
  induction s as [|c s IH]; intros ds rest H; simpl in H.
  - injection H as <- <-. reflexivity.
  - destruct (JSON.is_digit c).
    + destruct (JSON.span_digits s) as [ds' rest'] eqn:E.
      injection H as <- <-. specialize (IH ds' rest' eq_refl). simpl. lia.
    + injection H as <- <-. reflexivity.
Qed.

Lemma read_fraction_length (s fs r : string) :
  JSON.read_fraction s = Some (fs, r) -> (String.length r <= String.length s)%nat.
Proof.
  unfold JSON.read_fraction. destruct s as [|c s'].
  - intros H. injection H as _ <-. reflexivity.
  - destruct (byte_of_ascii c =? 46).
    + destruct (JSON.span_digits s') as [ds rest] eqn:E.
      apply span_digits_length in E.
      destruct ds; intros H; [discriminate H|].
      injection H as _ <-. simpl in E |- *. lia.
    + intros H. injection H as _ <-. reflexivity.
Qed.

Lemma read_exponent_digits_length (minus : bool) (s : string) (x : option Z)
    (r : string) :
  JSON.read_exponent_digits minus s = Some (x, r) ->
  (String.length r < String.length s)%nat.
Proof.
  unfold JSON.read_exponent_digits.
  destruct (JSON.span_digits s) as [ds rest] eqn:E.
  apply span_digits_length in E.
  destruct ds; intros H; [discriminate H|].
  injection H as _ <-. simpl in E. lia.
Qed.

Lemma read_exponent_length (s : string) (x : option Z) (r : string) :
  JSON.read_exponent s = Some (x, r) -> (String.length r <= String.length s)%nat.
Proof.
  unfold JSON.read_exponent. destruct s as [|c s'].
  - intros H. injection H as _ <-. reflexivity.
  - destruct ((byte_of_ascii c =? 101) || (byte_of_ascii c =? 69)).
    + destruct s' as [|g s'']; [discriminate|].
      destruct (byte_of_ascii g =? 45);
        [|destruct (byte_of_ascii g =? 43)];
        intros H; apply read_exponent_digits_length in H; simpl in H |- *; lia.
    + intros H. injection H as _ <-. reflexivity.
Qed.

Lemma parse_unsigned_number_length (negative : bool) (s : string) (v : json)
    (r : string) :
  JSON.parse_unsigned_number negative s = Some (v, r) ->
  (String.length r < String.length s)%nat.
Proof.
  unfold JSON.parse_unsigned_number. intros H1.
  destruct (JSON.span_digits s) as [ds r1] eqn:E.
  apply span_digits_length in E.
  destruct ds as [|d ds']; [discriminate H1|].
  destruct ((byte_of_ascii d =? 48) && negb (String.eqb ds' EmptyString));
    [discriminate H1|].
  destruct (JSON.read_fraction r1) as [[fs r2]|] eqn:Ef; [|discriminate H1].
  apply read_fraction_length in Ef.
  destruct (JSON.read_exponent r2) as [[x r3]|] eqn:Ex; [|discriminate H1].
  apply read_exponent_length in Ex. cbv zeta in H1.
  assert (Hr : r = r3).
  { destruct fs, x; repeat break_match_in H1; now injection H1 as _ <-. }
  subst r. simpl in E. lia.
Qed.

Lemma parse_number_length (s : string) (v : json) (r : string) :
  JSON.parse_number s = Some (v, r) -> (String.length r < String.length s)%nat.
Proof.
  unfold JSON.parse_number. destruct s as [|c s']; [discriminate|].
  destruct (byte_of_ascii c =? 45); intros H;
    apply parse_unsigned_number_length in H; simpl in H |- *; lia.
Qed.

Lemma parse_string_units_length (n : nat) :
  forall s str r : string,
    (String.length s <= n)%nat ->
    JSON.parse_string_units s = Some (str, r) ->
    (String.length r < String.length s)%nat.
Proof.
  induction n as [|n IH]; intros s str r Hn H.
  - destruct s; [discriminate H | simpl in Hn; lia].
  - destruct s as [|c s]; [discriminate H|]. simpl in Hn.
    cbn [JSON.parse_string_units] in H. cbv zeta in H.
    destruct (byte_of_ascii c =? 34).
    { injection H as _ <-. simpl. lia. }
    destruct (byte_of_ascii c =? 92).
    + destruct s as [|e s]; [discriminate H|]. simpl in Hn.
      destruct (JSON.unescape e).
      * destruct (JSON.parse_string_units s) as [[str' r']|] eqn:E;
          [|discriminate H].
        injection H as _ <-. apply IH in E; simpl; lia.
      * destruct (byte_of_ascii e =? 117); [|discriminate H].
        destruct s as [|h1 [|h2 [|h3 [|h4 s]]]]; try discriminate H.
        simpl in Hn. repeat break_match_in H.
        match goal with
        | E : JSON.parse_string_units s = Some _ |- _ => apply IH in E; [|lia]
        end.
        injection H as _ <-. simpl. lia.
    + destruct (byte_of_ascii c <? 32); [discriminate H|].
      destruct (JSON.parse_string_units s) as [[str' r']|] eqn:E;
        [|discriminate H].
      injection H as _ <-. apply IH in E; simpl; lia.
Qed.

Lemma parse_string_body_length (n : nat) :
  forall s str r : string,
    (String.length s <= n)%nat ->
    JSON.parse_string_body s = Some (str, r) ->
    (String.length r < String.length s)%nat.
Proof.
  intros s str r Hn H. unfold JSON.parse_string_body in H.
  destruct (JSON.parse_string_units s) as [[str' r']|] eqn:E; [|discriminate H].
  injection H as _ <-. exact (parse_string_units_length n s str' r' Hn E).
Qed.

Lemma parse_literal_length (lit : string) (v v' : json) (s r : string) :
  (0 < String.length lit)%nat ->
  JSON.parse_literal lit v s = Some (v', r) ->
  (String.length r < String.length s)%nat.
Proof.
  unfold JSON.parse_literal. intros Hlit H.
  destruct (JSON.strip_prefix lit s) as [rest|] eqn:E; [|discriminate H].
  injection H as _ <-. apply strip_prefix_length in E. lia.
Qed.

(** Every reader consumes at least one character of what it is given. *)
Lemma parse_consumes (n : nat) :
  (forall (s : string) (v : json) (r : string),
      JSON.parse_value n s = Some (v, r) ->
      (String.length r < String.length s)%nat)
  /\ (forall (s : string) (l : list json) (r : string),
         JSON.parse_elements n s = Some (l, r) ->
         (String.length r < String.length s)%nat)
  /\ (forall (acc : list (string * json)) (s : string)
             (o : list (string * json)) (r : string),
         JSON.parse_members n acc s = Some (o, r) ->
         (String.length r < String.length s)%nat).
Proof.
  induction n as [|n (IHv & IHe & IHm)];
    [repeat split; intros; discriminate|].
  repeat split.
  - intros s v r H. simpl in H.
    pose proof (skip_ws_length s) as Hs.
    destruct (JSON.skip_ws s) as [|c rest]; [discriminate H|]. simpl in Hs.
    pose proof (skip_ws_length rest) as Hrest.
    destruct (byte_of_ascii c =? 123).
    { destruct (JSON.skip_ws rest) as [|c' rest']; [discriminate H|].
      simpl in Hrest. destruct (byte_of_ascii c' =? 125).
      - injection H as _ <-. lia.
      - destruct (JSON.parse_members n [] rest) as [[o r']|] eqn:E;
          [|discriminate H].
        injection H as _ <-. apply IHm in E. lia. }
    destruct (byte_of_ascii c =? 91).
    { destruct (JSON.skip_ws rest) as [|c' rest']; [discriminate H|].
      simpl in Hrest. destruct (byte_of_ascii c' =? 93).
      - injection H as _ <-. lia.
      - destruct (JSON.parse_elements n rest) as [[l r']|] eqn:E;
          [|discriminate H].
        injection H as _ <-. apply IHe in E. lia. }
    destruct (byte_of_ascii c =? 34).
    { destruct (JSON.parse_string_body rest) as [[str r']|] eqn:E;
        [|discriminate H].
      injection H as _ <-.
      apply (parse_string_body_length (String.length rest)) in E; lia. }
    destruct (byte_of_ascii c =? 110);
      [apply parse_literal_length in H; [simpl in H; lia | simpl; lia]|].
    destruct (byte_of_ascii c =? 116);
      [apply parse_literal_length in H; [simpl in H; lia | simpl; lia]|].
    destruct (byte_of_ascii c =? 102);
      [apply parse_literal_length in H; [simpl in H; lia | simpl; lia]|].
    change (JSON.parse_number (String c rest) = Some (v, r)) in H.
    apply parse_number_length in H. simpl in H. lia.
  - intros s l r H. simpl in H.
    destruct (JSON.parse_value n s) as [[v rest]|] eqn:E; [|discriminate H].
    apply IHv in E. pose proof (skip_ws_length rest) as Hrest.
    destruct (JSON.skip_ws rest) as [|c rest']; [discriminate H|].
    simpl in Hrest. destruct (byte_of_ascii c =? 44).
    + destruct (JSON.parse_elements n rest') as [[vs r']|] eqn:E';
        [|discriminate H].
      injection H as _ <-. apply IHe in E'. lia.
    + destruct (byte_of_ascii c =? 93); [|discriminate H].
      injection H as _ <-. lia.
  - intros acc s o r H. simpl in H.
    pose proof (skip_ws_length s) as Hs.
    destruct (JSON.skip_ws s) as [|q rest]; [discriminate H|]. simpl in Hs.
    destruct (byte_of_ascii q =? 34); [|discriminate H].
    destruct (JSON.parse_string_body rest) as [[k rest1]|] eqn:Ek;
      [|discriminate H].
    apply (parse_string_body_length (String.length rest)) in Ek; [|lia].
    pose proof (skip_ws_length rest1) as H1.
    destruct (JSON.skip_ws rest1) as [|c1 rest2]; [discriminate H|].
    simpl in H1. destruct (byte_of_ascii c1 =? 58); [|discriminate H].
    destruct (JSON.parse_value n rest2) as [[v rest3]|] eqn:Ev;
      [|discriminate H].
    apply IHv in Ev. pose proof (skip_ws_length rest3) as H3.
    destruct (JSON.skip_ws rest3) as [|c3 rest4]; [discriminate H|].
    simpl in H3. destruct (byte_of_ascii c3 =? 44).
    + apply IHm in H. lia.
    + destruct (byte_of_ascii c3 =? 125); [|discriminate H].
      injection H as _ <-. lia.
Qed.

(** Past twice the length of the text, more fuel changes nothing. *)
Lemma parse_fuel_stable (n : nat) :
  (forall (s : string) (m : nat),
      (2 * String.length s + 1 <= n)%nat -> (n <= m)%nat ->
      JSON.parse_value m s = JSON.parse_value n s)
  /\ (forall (s : string) (m : nat),
         (2 * String.length s + 2 <= n)%nat -> (n <= m)%nat ->
         JSON.parse_elements m s = JSON.parse_elements n s)
  /\ (forall (acc : list (string * json)) (s : string) (m : nat),
         (2 * String.length s + 2 <= n)%nat -> (n <= m)%nat ->
         JSON.parse_members m acc s = JSON.parse_members n acc s).
Proof.
  induction n as [|n (IHv & IHe & IHm)]; [repeat split; intros; lia|].
  destruct (parse_consumes n) as (Cv & _ & _).
  repeat split.
  - intros s [|m] Hn Hm; [lia|]. simpl.
    pose proof (skip_ws_length s) as Hs.
    destruct (JSON.skip_ws s) as [|c rest]; [reflexivity|]. simpl in Hs.
    rewrite (IHm [] rest m), (IHe rest m) by lia. reflexivity.
  - intros s [|m] Hn Hm; [lia|]. simpl.
    rewrite (IHv s m) by lia.
    destruct (JSON.parse_value n s) as [[v rest]|] eqn:E; [|reflexivity].
    apply Cv in E. pose proof (skip_ws_length rest) as Hrest.
    destruct (JSON.skip_ws rest) as [|c rest']; [reflexivity|].
    simpl in Hrest. rewrite (IHe rest' m) by lia. reflexivity.
  - intros acc s [|m] Hn Hm; [lia|]. simpl.
    pose proof (skip_ws_length s) as Hs.
    destruct (JSON.skip_ws s) as [|q rest]; [reflexivity|]. simpl in Hs.
    destruct (byte_of_ascii q =? 34); [|reflexivity].
    destruct (JSON.parse_string_body rest) as [[k rest1]|] eqn:Ek;
      [|reflexivity].
    apply (parse_string_body_length (String.length rest)) in Ek; [|lia].
    pose proof (skip_ws_length rest1) as H1.
    destruct (JSON.skip_ws rest1) as [|c1 rest2]; [reflexivity|].
    simpl in H1. destruct (byte_of_ascii c1 =? 58); [|reflexivity].
    rewrite (IHv rest2 m) by lia.
    destruct (JSON.parse_value n rest2) as [[v rest3]|] eqn:Ev; [|reflexivity].
    apply Cv in Ev. pose proof (skip_ws_length rest3) as H3.
    destruct (JSON.skip_ws rest3) as [|c3 rest4]; [reflexivity|].
    simpl in H3. rewrite (IHm (JSON.obj_set k v acc) rest4 m) by lia.
    reflexivity.
Qed.

(** The fuel [JSON.parse] gives its reader is enough: with any larger
    amount the reading is the same, so [None] is a rejection of the text and
    never an exhausted reader. *)
Theorem parse_fuel_enough (text : string) (fuel : nat) :
  (2 * String.length text + 2 <= fuel)%nat ->
  JSON.parse_value fuel text
  = JSON.parse_value (2 * String.length text + 2) text.
Proof.
  intros H.
  destruct (parse_fuel_stable (2 * String.length text + 2)) as (Hv & _ & _).
  apply Hv; lia.
Qed.

(** ** Reading back what [JSON.stringify] wrote *)

Lemma ascii_of_byte_of_ascii (c : ascii) : ascii_of_byte (byte_of_ascii c) = c.
Proof. destruct c as [[] [] [] [] [] [] [] []]; reflexivity. Qed.

Lemma byte_of_ascii_range (c : ascii) : 0 <= byte_of_ascii c < 256.
Proof. destruct c as [[] [] [] [] [] [] [] []]; vm_compute; split; congruence. Qed.

Lemma byte_of_ascii_of_byte (n : Z) :
  0 <= n < 256 -> byte_of_ascii (ascii_of_byte n) = n.
Proof.
  intros H. unfold byte_of_ascii, ascii_of_byte.
  rewrite N_ascii_embedding.
  - rewrite Z2N.id; [apply Z.mod_small; lia | apply Z.mod_pos_bound; lia].
  - apply N2Z.inj_lt. rewrite Z2N.id by (apply Z.mod_pos_bound; lia).
    change (Z.of_N 256) with 256. apply Z.mod_pos_bound. lia.
Qed.

Lemma hex_value_hex_digit (d : Z) :
  0 <= d < 16 -> JSON.hex_value (hex_digit d) = Some d.
Proof.
  intros H.
  assert (Hd : d = 0 \/ d = 1 \/ d = 2 \/ d = 3 \/ d = 4 \/ d = 5 \/ d = 6
               \/ d = 7 \/ d = 8 \/ d = 9 \/ d = 10 \/ d = 11 \/ d = 12
               \/ d = 13 \/ d = 14 \/ d = 15) by lia.
  repeat (destruct Hd as [->|Hd]; [reflexivity|]). subst d. reflexivity.
Qed.

Lemma is_surrogate_bytes (c1 c2 c3 : ascii) :
  is_surrogate c1 c2 c3 = true ->
  byte_of_ascii c1 = 237
  /\ 160 <= byte_of_ascii c2 <= 191 /\ 128 <= byte_of_ascii c3 <= 191.
Proof.
  unfold is_surrogate, is_high_surrogate, is_low_surrogate. intros H.
  apply orb_true_iff in H as [H|H];
    repeat (apply andb_true_iff in H as [H ?]);
    repeat match goal with
           | E : (_ <=? _) = true |- _ => apply Z.leb_le in E
           | E : (_ =? _) = true |- _ => apply Z.eqb_eq in E
           end; lia.
Qed.

(** A quoted character is read back as the character. *)
Lemma parse_quote_char (c : ascii) (t : string) :
  JSON.parse_string_units (JSON.quote_char c +:+ t)
  = match JSON.parse_string_units t with
    | Some (str, r) => Some (String c str, r)
    | None => None
    end.
Proof.
  destruct c as [[] [] [] [] [] [] [] []]; reflexivity.
Qed.

(** The escape of a lone surrogate is read back as its three bytes. *)
Lemma append_assoc (s1 s2 s3 : string) :
  (s1 +:+ s2) +:+ s3 = s1 +:+ (s2 +:+ s3).
Proof. induction s1 as [|c s1 IH]; simpl; [reflexivity | now rewrite IH]. Qed.

Lemma parse_surrogate_escape (c1 c2 c3 : ascii) (t : string) :
  is_surrogate c1 c2 c3 = true ->
  JSON.parse_string_units ("\u" +:+ JSON.hex4 (surrogate_code c2 c3) +:+ t)
  = match JSON.parse_string_units t with
    | Some (str, r) => Some (String c1 (String c2 (String c3 str)), r)
    | None => None
    end.
Proof.
  intros H. destruct (is_surrogate_bytes _ _ _ H) as (H1 & H2 & H3).
  set (n := surrogate_code c2 c3).
  assert (Hn : n = 53248 + 64 * (byte_of_ascii c2 - 128)
                   + (byte_of_ascii c3 - 128)) by reflexivity.
  clearbody n.
  unfold JSON.hex4, hex2. cbn [String.append JSON.parse_string_units].
  change (byte_of_ascii "\" =? 34) with false.
  change (byte_of_ascii "\" =? 92) with true.
  change (JSON.unescape "u") with (@None ascii).
  change (byte_of_ascii "u" =? 117) with true. cbv iota zeta.
  rewrite !hex_value_hex_digit
    by (apply Z.mod_pos_bound; reflexivity).
  destruct (JSON.parse_string_units t) as [[str r]|]; [|reflexivity].
  replace (4096 * (n / 4096 mod 16) + 256 * (n / 256 mod 16)
           + 16 * (n mod 256 / 16 mod 16) + n mod 256 mod 16) with n
    by (subst n; Z.div_mod_to_equations; lia).
  unfold JSON.utf8_encode.
  destruct (Z.ltb_spec n 128); [lia|]. destruct (Z.ltb_spec n 2048); [lia|].
  replace (224 + n / 4096) with (byte_of_ascii c1)
    by (subst n; Z.div_mod_to_equations; lia).
  replace (128 + n / 64 mod 64) with (byte_of_ascii c2)
    by (subst n; Z.div_mod_to_equations; lia).
  replace (128 + n mod 64) with (byte_of_ascii c3)
    by (subst n; Z.div_mod_to_equations; lia).
  rewrite !ascii_of_byte_of_ascii. reflexivity.
Qed.

Lemma quote_body_three (c c2 c3 : ascii) (s : string) :
  JSON.quote_body (String c (String c2 (String c3 s)))
  = if is_surrogate c c2 c3
    then "\u" +:+ JSON.hex4 (surrogate_code c2 c3) +:+ JSON.quote_body s
    else JSON.quote_char c +:+ JSON.quote_body (String c2 (String c3 s)).
Proof. reflexivity. Qed.

Lemma quote_body_two (c c2 : ascii) :
  JSON.quote_body (String c (String c2 EmptyString))
  = JSON.quote_char c +:+ JSON.quote_body (String c2 EmptyString).
Proof. reflexivity. Qed.

Lemma quote_body_one (c : ascii) :
  JSON.quote_body (String c EmptyString)
  = JSON.quote_char c +:+ String JSON.dquote EmptyString.
Proof. reflexivity. Qed.

Lemma parse_quote_units (n : nat) :
  forall s rest : string,
    (String.length s <= n)%nat ->
    JSON.parse_string_units (JSON.quote_body s +:+ rest) = Some (s, rest).
Proof.
  induction n as [|n IH]; intros s rest Hn.
  - destruct s; [reflexivity | simpl in Hn; lia].
  - destruct s as [|c [|c2 [|c3 s]]]; cbn [String.length] in Hn.
    + reflexivity.
    + rewrite quote_body_one, append_assoc, parse_quote_char. reflexivity.
    + rewrite quote_body_two, append_assoc, parse_quote_char.
      rewrite IH by (cbn [String.length]; lia). reflexivity.
    + rewrite quote_body_three. destruct (is_surrogate c c2 c3) eqn:Hs.
      * rewrite !append_assoc, (parse_surrogate_escape c c2 c3 _ Hs).
        rewrite IH by lia. reflexivity.
      * rewrite append_assoc, parse_quote_char.
        rewrite IH by (cbn [String.length]; lia). reflexivity.
Qed.

Lemma parse_quote_body (s rest : string) :
  wf_string s ->
  JSON.parse_string_body (JSON.quote_body s +:+ rest) = Some (s, rest).
Proof.
  intros Hwf. unfold JSON.parse_string_body.
  rewrite (parse_quote_units (String.length s)) by lia. now rewrite Hwf.
Qed.

Lemma join_surrogates_six (c1 c2 c3 c4 c5 c6 : ascii) (r : string) :
  JSON.join_surrogates
    (String c1 (String c2 (String c3 (String c4 (String c5 (String c6 r))))))
  = if is_high_surrogate c1 c2 c3 && is_low_surrogate c4 c5 c6
    then JSON.pair_bytes c2 c3 c5 c6 +:+ JSON.join_surrogates r
    else String c1
           (JSON.join_surrogates
              (String c2 (String c3 (String c4 (String c5 (String c6 r)))))).
Proof. reflexivity. Qed.

(** How [join_surrogates] goes on at a character: over a pair, or over the
    character alone. *)
Lemma join_surrogates_cases (c1 : ascii) (t : string) :
  (exists (c2 c3 c4 c5 c6 : ascii) (r : string),
      t = String c2 (String c3 (String c4 (String c5 (String c6 r))))
      /\ is_high_surrogate c1 c2 c3 = true /\ is_low_surrogate c4 c5 c6 = true
      /\ JSON.join_surrogates (String c1 t)
         = JSON.pair_bytes c2 c3 c5 c6 +:+ JSON.join_surrogates r)
  \/ (JSON.join_surrogates (String c1 t) = String c1 (JSON.join_surrogates t)
      /\ forall (c2 c3 c4 c5 c6 : ascii) (r : string),
           t = String c2 (String c3 (String c4 (String c5 (String c6 r)))) ->
           is_high_surrogate c1 c2 c3 && is_low_surrogate c4 c5 c6 = false).
Proof.
  destruct t as [|c2 [|c3 [|c4 [|c5 [|c6 r]]]]];
    try (right; split; [reflexivity | intros; discriminate]).
  rewrite join_surrogates_six.
  destruct (is_high_surrogate c1 c2 c3 && is_low_surrogate c4 c5 c6) eqn:Hp.
  - left. apply andb_true_iff in Hp as [Hh Hl].
    exists c2, c3, c4, c5, c6, r. repeat split; assumption.
  - right. split; [reflexivity|]. intros ? ? ? ? ? ? Heq.
    injection Heq as <- <- <- <- <- <-. exact Hp.
Qed.

Lemma is_high_surrogate_bytes (c1 c2 c3 : ascii) :
  is_high_surrogate c1 c2 c3 = true ->
  byte_of_ascii c1 = 237
  /\ 160 <= byte_of_ascii c2 <= 175 /\ 128 <= byte_of_ascii c3 <= 191.
Proof.
  unfold is_high_surrogate. intros H.
  repeat (apply andb_true_iff in H as [H ?]);
    repeat match goal with
           | E : (_ <=? _) = true |- _ => apply Z.leb_le in E
           | E : (_ =? _) = true |- _ => apply Z.eqb_eq in E
           end; lia.
Qed.

Lemma is_low_surrogate_bytes (c1 c2 c3 : ascii) :
  is_low_surrogate c1 c2 c3 = true ->
  byte_of_ascii c1 = 237
  /\ 176 <= byte_of_ascii c2 <= 191 /\ 128 <= byte_of_ascii c3 <= 191.
Proof.
  unfold is_low_surrogate. intros H.
  repeat (apply andb_true_iff in H as [H ?]);
    repeat match goal with
           | E : (_ <=? _) = true |- _ => apply Z.leb_le in E
           | E : (_ =? _) = true |- _ => apply Z.eqb_eq in E
           end; lia.
Qed.

Lemma join_surrogates_other (c : ascii) (t : string) :
  byte_of_ascii c <> 237 ->
  JSON.join_surrogates (String c t) = String c (JSON.join_surrogates t).
Proof.
  intros Hc.
  destruct (join_surrogates_cases c t)
    as [(c2 & c3 & c4 & c5 & c6 & r & _ & Hh & _) | [H _]]; [|exact H].
  apply is_high_surrogate_bytes in Hh as [Hh _]. contradiction.
Qed.

(** The four bytes of a pair: a first byte of [F0] or more and three bytes
    up to [BF]. *)
Lemma pair_bytes_spec (h1 h2 h3 l1 l2 l3 : ascii) :
  is_high_surrogate h1 h2 h3 = true ->
  is_low_surrogate l1 l2 l3 = true ->
  exists b1 b2 b3 b4 : ascii,
    JSON.pair_bytes h2 h3 l2 l3
    = String b1 (String b2 (String b3 (String b4 EmptyString)))
    /\ 240 <= byte_of_ascii b1 /\ byte_of_ascii b2 <= 191
    /\ byte_of_ascii b3 <= 191 /\ byte_of_ascii b4 <= 191.
Proof.
  intros Hh Hl.
  apply is_high_surrogate_bytes in Hh as (_ & Hh2 & Hh3).
  apply is_low_surrogate_bytes in Hl as (_ & Hl2 & Hl3).
  unfold JSON.pair_bytes. cbv zeta.
  set (cp := 65536
             + 1024 * (64 * (byte_of_ascii h2 - 160) + (byte_of_ascii h3 - 128))
             + 64 * (byte_of_ascii l2 - 176) + (byte_of_ascii l3 - 128)).
  assert (Hcp : 65536 <= cp < 1114112) by (subst cp; lia).
  clearbody cp.
  eexists _, _, _, _. split; [reflexivity|].
  rewrite !byte_of_ascii_of_byte
    by (Z.div_mod_to_equations; lia).
  Z.div_mod_to_equations. lia.
Qed.

(** Where the text after [join_surrogates] begins with a byte below [F0],
    the text before began with it. *)
Lemma join_surrogates_head (t u : string) (a : ascii) :
  JSON.join_surrogates t = String a u ->
  byte_of_ascii a < 240 ->
  exists t' : string, t = String a t' /\ u = JSON.join_surrogates t'.
Proof.
  intros H Ha. destruct t as [|c1 t]; [discriminate H|].
  destruct (join_surrogates_cases c1 t)
    as [(c2 & c3 & c4 & c5 & c6 & r & _ & Hh & Hl & Hj) | [Hj _]];
    rewrite Hj in H.
  - destruct (pair_bytes_spec c1 c2 c3 c4 c5 c6 Hh Hl)
      as (b1 & b2 & b3 & b4 & Hp & Hb1 & _).
    rewrite Hp in H. cbn [String.append] in H. injection H as <- _. lia.
  - injection H as <- <-. now exists t.
Qed.

Lemma join_surrogates_idem_aux (n : nat) :
  forall s : string,
    (String.length s <= n)%nat ->
    JSON.join_surrogates (JSON.join_surrogates s) = JSON.join_surrogates s.
Proof.
  induction n as [|n IH]; intros s Hn.
  - destruct s; [reflexivity | simpl in Hn; lia].
  - destruct s as [|c1 t]; [reflexivity|]. cbn [String.length] in Hn.
    destruct (join_surrogates_cases c1 t)
      as [(c2 & c3 & c4 & c5 & c6 & r & -> & Hh & Hl & Hj) | [Hj Hno]];
      rewrite Hj.
    + destruct (pair_bytes_spec c1 c2 c3 c4 c5 c6 Hh Hl)
        as (b1 & b2 & b3 & b4 & -> & Hb1 & Hb2 & Hb3 & Hb4).
      cbn [String.append].
      rewrite !join_surrogates_other by lia.
      rewrite IH by (cbn [String.length] in Hn; lia). reflexivity.
    + destruct (join_surrogates_cases c1 (JSON.join_surrogates t))
        as [(c2 & c3 & c4 & c5 & c6 & r & Ht & Hh & Hl & _) | [Hj' _]].
      * exfalso.
        destruct (is_high_surrogate_bytes _ _ _ Hh) as (_ & H2 & H3).
        destruct (is_low_surrogate_bytes _ _ _ Hl) as (H4 & H5 & H6).
        apply join_surrogates_head in Ht as (t2 & -> & Ht); [|lia].
        symmetry in Ht.
        apply join_surrogates_head in Ht as (t3 & -> & Ht); [|lia].
        symmetry in Ht.
        apply join_surrogates_head in Ht as (t4 & -> & Ht); [|lia].
        symmetry in Ht.
        apply join_surrogates_head in Ht as (t5 & -> & Ht); [|lia].
        symmetry in Ht.
        apply join_surrogates_head in Ht as (t6 & -> & Ht); [|lia].
        specialize (Hno c2 c3 c4 c5 c6 t6 eq_refl).
        rewrite Hh, Hl in Hno. discriminate Hno.
      * rewrite Hj', IH by lia. reflexivity.
Qed.

(** What [join_surrogates] gives has no pair left to join. *)
Lemma join_surrogates_wf (s : string) : wf_string (JSON.join_surrogates s).
Proof. exact (join_surrogates_idem_aux (String.length s) s (le_n _)). Qed.

Lemma parse_string_body_wf (s str r : string) :
  JSON.parse_string_body s = Some (str, r) -> wf_string str.
Proof.
  unfold JSON.parse_string_body.
  destruct (JSON.parse_string_units s) as [[str' r']|]; [|discriminate].
  intros H. injection H as <- _. apply join_surrogates_wf.
Qed.

Lemma all_digits_string_of_uint (u : Decimal.uint) :
  JSON.all_digits (NilEmpty.string_of_uint u) = true.
Proof.
  unfold JSON.all_digits. induction u; simpl; try reflexivity; exact IHu.
Qed.

Lemma to_uint_no_leading_zero (p : positive) (u : Decimal.uint) :
  Pos.to_uint p <> Decimal.D0 u.
Proof.
  intros H.
  assert (Hnorm : Decimal.unorm (Pos.to_uint p) = Pos.to_uint p).
  { rewrite <- (DecimalPos.Unsigned.to_of (Pos.to_uint p)).
    now rewrite DecimalPos.Unsigned.of_to. }
  rewrite H in Hnorm. unfold Decimal.unorm in Hnorm.
  destruct (Decimal.nzhead (Decimal.D0 u)) eqn:E;
    try (exact (DecimalFacts.nzhead_nonzero _ _ (eq_trans E Hnorm))).
  apply (DecimalPos.Unsigned.to_uint_nonzero p). rewrite H. now symmetry.
Qed.

Lemma span_digits_digits (s : string) :
  forall ds rest : string,
    JSON.span_digits s = (ds, rest) -> JSON.all_digits ds = true.
Proof.
  unfold JSON.all_digits.
  induction s as [|c s IH]; intros ds rest H; simpl in H.
  - injection H as <- _. reflexivity.
  - destruct (JSON.is_digit c) eqn:Hc.
    + destruct (JSON.span_digits s) as [ds' rest'] eqn:E.
      injection H as <- _. simpl. rewrite Hc. exact (IH ds' rest' eq_refl).
    + injection H as <- _. reflexivity.
Qed.

Lemma all_digits_cons (c : ascii) (ds : string) :
  JSON.all_digits (String c ds) = JSON.is_digit c && JSON.all_digits ds.
Proof. reflexivity. Qed.

Lemma strip_trailing_zeros_digits (ds : string) :
  JSON.all_digits ds = true -> JSON.all_digits (JSON.strip_trailing_zeros ds) = true.
Proof.
  induction ds as [|c ds IH]; [reflexivity|].
  rewrite all_digits_cons. intros H. apply andb_true_iff in H as [Hc Hds].
  specialize (IH Hds). cbn [JSON.strip_trailing_zeros].
  destruct (JSON.strip_trailing_zeros ds) as [|c' kept].
  - destruct (byte_of_ascii c =? 48); [reflexivity|].
    rewrite all_digits_cons, Hc. reflexivity.
  - rewrite all_digits_cons, Hc. exact IH.
Qed.

Lemma strip_trailing_zeros_idem (ds : string) :
  JSON.strip_trailing_zeros (JSON.strip_trailing_zeros ds)
  = JSON.strip_trailing_zeros ds.
Proof.
  induction ds as [|c ds IH]; [reflexivity|].
  cbn [JSON.strip_trailing_zeros].
  destruct (JSON.strip_trailing_zeros ds) as [|c' kept] eqn:E.
  - destruct (byte_of_ascii c =? 48) eqn:Hc; [reflexivity|].
    cbn [JSON.strip_trailing_zeros]. now rewrite Hc.
  - cbn [JSON.strip_trailing_zeros] in IH |- *.
    destruct (JSON.strip_trailing_zeros kept) as [|c'' kept'] eqn:E';
      destruct (byte_of_ascii c' =? 48); try discriminate IH; now rewrite IH.
Qed.

Lemma strip_trailing_zeros_head (c : ascii) (ds : string) :
  (byte_of_ascii c =? 48) = false ->
  exists kept : string, JSON.strip_trailing_zeros (String c ds) = String c kept.
Proof.
  intros Hc. cbn [JSON.strip_trailing_zeros].
  destruct (JSON.strip_trailing_zeros ds) as [|c' kept]; rewrite ?Hc; eauto.
Qed.

Lemma digits_of_positive_head (p : positive) :
  exists (d : ascii) (ds : string),
    NilEmpty.string_of_uint (Pos.to_uint p) = String d ds
    /\ (byte_of_ascii d =? 48) = false.
Proof.
  pose proof (to_uint_no_leading_zero p) as Hlead.
  pose proof (DecimalPos.Unsigned.to_uint_nonnil p) as Hnil.
  destruct (Pos.to_uint p) as [|u|u|u|u|u|u|u|u|u|u];
    [now destruct Hnil | now destruct (Hlead u) | ..];
    eexists _, _; (split; [reflexivity | reflexivity]).
Qed.

Lemma normal_decimal_digits (cp : Z * Z) (d : string * Z) :
  JSON.normal_decimal cp = Some d -> shortest_digits (fst d) = true.
Proof.
  unfold JSON.normal_decimal. destruct (fst cp) as [|c|c]; try discriminate.
  intros H. injection H as <-. cbn [fst].
  destruct (digits_of_positive_head c) as (d0 & ds & Htext & Hd0).
  rewrite Htext.
  destruct (strip_trailing_zeros_head d0 ds Hd0) as [kept Hkept].
  unfold shortest_digits.
  rewrite strip_trailing_zeros_idem.
  rewrite (strip_trailing_zeros_digits (String d0 ds))
    by (rewrite <- Htext; apply all_digits_string_of_uint).
  rewrite Hkept. cbn [JSON.strip_leading_zeros]. rewrite Hd0.
  rewrite String.eqb_refl. reflexivity.
Qed.

Lemma shortest_from_spec (fuel : nat) :
  forall (m e K : Z) (d : string * Z),
    JSON.shortest_from fuel m e K = Some d ->
    JSON.reads_as m e d = true /\ shortest_digits (fst d) = true.
Proof.
  induction fuel as [|fuel IH]; intros m e K d H; [discriminate H|].
  cbn [JSON.shortest_from] in H.
  destruct (List.find _ _) as [d'|] eqn:E.
  - injection H as <-. apply List.find_some in E as [Hin Hr].
    split; [exact Hr|].
    apply list_elem_of_In, list_elem_of_omap in Hin as (cp & _ & Hcp).
    exact (normal_decimal_digits cp d' Hcp).
  - exact (IH _ _ _ _ H).
Qed.

Lemma digits_value_nonneg_aux (l : list ascii) :
  forall acc : Z,
    forallb JSON.is_digit l = true -> 0 <= acc ->
    0 <= foldl (fun acc c => 10 * acc + (byte_of_ascii c - 48)) acc l.
Proof.
  induction l as [|c l IH]; intros acc Hl Hacc; [exact Hacc|].
  cbn [forallb] in Hl. apply andb_true_iff in Hl as [Hc Hl].
  cbn [foldl]. apply IH; [exact Hl|].
  unfold JSON.is_digit in Hc. apply andb_true_iff in Hc as [Hc _].
  apply Z.leb_le in Hc. lia.
Qed.

Lemma digits_value_nonneg (ds : string) :
  JSON.all_digits ds = true -> 0 <= JSON.digits_value ds.
Proof.
  intros H. apply digits_value_nonneg_aux; [exact H | lia].
Qed.

Lemma of_canonical_wf (negative : bool) (ds : string) (E m e : Z) :
  shortest_digits ds = true ->
  (m =? 0) = false ->
  JSON.round_decimal (JSON.digits_value ds) E = Some (m, e) ->
  JSON.shortest m e = Some (ds, E) ->
  wf_json (JSON.of_canonical negative ds E).
Proof.
  intros Hds Hm Hround Hshort. unfold JSON.of_canonical.
  destruct ((0 <=? E) && (JSON.digits_value ds * 10 ^ E <=? 2 ^ 53)) eqn:Hsafe.
  - apply andb_true_iff in Hsafe as [HE Hle].
    apply Z.leb_le in HE, Hle. constructor.
    assert (0 <= JSON.digits_value ds * 10 ^ E).
    { apply Z.mul_nonneg_nonneg; [|apply Z.pow_nonneg; lia].
      apply digits_value_nonneg. unfold shortest_digits in Hds.
      now repeat (apply andb_true_iff in Hds as [Hds _]). }
    destruct negative; lia.
  - constructor; [exact Hds|].
    unfold JSON.number_of_digits. rewrite Hround, Hm, Hshort.
    unfold JSON.of_canonical. now rewrite Hsafe.
Qed.

Lemma number_of_digits_wf (negative : bool) (ds : string) (E : Z) (v : json) :
  JSON.number_of_digits negative ds E = Some v -> wf_json v.
Proof.
  unfold JSON.number_of_digits.
  destruct (JSON.round_decimal (JSON.digits_value ds) E) as [[m e]|];
    [|intros H; injection H as <-; constructor].
  destruct (m =? 0) eqn:Hm.
  { intros H. injection H as <-. constructor. simpl. lia. }
  destruct (JSON.shortest m e) as [[ds' E']|] eqn:Hs; [|discriminate].
  intros H. injection H as <-.
  destruct (shortest_from_spec _ _ _ _ _ Hs) as [Hr Hd]. cbn [fst] in Hd.
  unfold JSON.reads_as in Hr. cbn [fst snd] in Hr.
  destruct (JSON.round_decimal (JSON.digits_value ds') E') as [[m' e']|] eqn:Hr';
    [|discriminate Hr].
  apply andb_true_iff in Hr as [Hm' He']. apply Z.eqb_eq in Hm', He'. subst.
  exact (of_canonical_wf negative ds' E' m e Hd Hm Hr' Hs).
Qed.

(** *** Numerals and their values *)

Lemma digits_value_acc (u : Decimal.uint) :
  forall acc : positive,
    foldl (fun acc c => 10 * acc + (byte_of_ascii c - 48)) (Z.pos acc)
          (list_ascii_of_string (NilEmpty.string_of_uint u))
    = Z.pos (Pos.of_uint_acc u acc).
Proof.
  induction u as [|u IH|u IH|u IH|u IH|u IH|u IH|u IH|u IH|u IH|u IH];
    intros acc; [reflexivity | ..];
    cbn [NilEmpty.string_of_uint list_ascii_of_string foldl Pos.of_uint_acc];
    rewrite <- IH; f_equal; vm_compute byte_of_ascii; lia.
Qed.

Lemma digits_value_of_uint (u : Decimal.uint) :
  JSON.digits_value (NilEmpty.string_of_uint u) = Z.of_N (Pos.of_uint u).
Proof.
  unfold JSON.digits_value.
  induction u as [|u IH|u IH|u IH|u IH|u IH|u IH|u IH|u IH|u IH|u IH];
    [reflexivity | exact IH | ..];
    cbn [NilEmpty.string_of_uint list_ascii_of_string foldl Pos.of_uint];
    cbn [N2Z.inj Z.of_N]; rewrite <- digits_value_acc; reflexivity.
Qed.

Lemma digits_value_of_positive (p : positive) :
  JSON.digits_value (NilEmpty.string_of_uint (Pos.to_uint p)) = Z.pos p.
Proof.
  now rewrite digits_value_of_uint, DecimalPos.Unsigned.of_to.
Qed.

(** The digits of a positive number begin with a digit that is not zero. *)

Lemma number_to_string_pos (p : positive) :
  JSON.number_to_string (Z.pos p) = NilEmpty.string_of_uint (Pos.to_uint p).
Proof.
  unfold JSON.number_to_string. simpl.
  pose proof (DecimalPos.Unsigned.to_uint_nonnil p) as Hnil.
  destruct (Pos.to_uint p); [now destruct Hnil | reflexivity ..].
Qed.

Lemma number_to_string_neg (p : positive) :
  JSON.number_to_string (Z.neg p)
  = String "-" (NilEmpty.string_of_uint (Pos.to_uint p)).
Proof.
  unfold JSON.number_to_string. simpl.
  pose proof (DecimalPos.Unsigned.to_uint_nonnil p) as Hnil.
  destruct (Pos.to_uint p); [now destruct Hnil | reflexivity ..].
Qed.

Lemma number_end_no_digit (rest : string) :
  number_end rest = true -> no_digit_head rest = true.
Proof.
  destruct rest as [|c rest]; [reflexivity|]. simpl.
  intros H. now apply andb_true_iff in H as [H _].
Qed.

Lemma span_digits_stop (t rest : string) :
  JSON.all_digits t = true ->
  no_digit_head rest = true ->
  JSON.span_digits (t +:+ rest) = (t, rest).
Proof.
  unfold JSON.all_digits. intros Ht Hrest.
  induction t as [|c t IH]; simpl in Ht |- *.
  - destruct rest as [|c rest]; [reflexivity|]. simpl in Hrest |- *.
    apply negb_true_iff in Hrest. now rewrite Hrest.
  - apply andb_true_iff in Ht as [Hc Ht]. rewrite Hc, (IH Ht). reflexivity.
Qed.

Lemma read_fraction_none (rest : string) :
  number_end rest = true -> JSON.read_fraction rest = Some (EmptyString, rest).
Proof.
  destruct rest as [|c rest]; [reflexivity|]. simpl. intros H.
  apply andb_true_iff in H as [_ H]. apply negb_true_iff in H.
  apply orb_false_iff in H as [H _]. apply orb_false_iff in H as [H _].
  now rewrite H.
Qed.

Lemma read_exponent_none (rest : string) :
  number_end rest = true -> JSON.read_exponent rest = Some (None, rest).
Proof.
  destruct rest as [|c rest]; [reflexivity|]. simpl. intros H.
  apply andb_true_iff in H as [_ H]. apply negb_true_iff in H.
  apply orb_false_iff in H as [H H69]. apply orb_false_iff in H as [_ H101].
  now rewrite H101, H69.
Qed.

(** An integer numeral is read as the integer it writes. *)
Lemma parse_unsigned_number_integer (negative : bool) (p : positive)
    (rest : string) :
  number_end rest = true ->
  Z.pos p <= 2 ^ 53 ->
  JSON.parse_unsigned_number negative
    (NilEmpty.string_of_uint (Pos.to_uint p) +:+ rest)
  = Some (JNum (if negative then Z.neg p else Z.pos p), rest).
Proof.
  intros Hrest Hbound. unfold JSON.parse_unsigned_number.
  rewrite span_digits_stop;
    [|apply all_digits_string_of_uint | now apply number_end_no_digit].
  pose proof (digits_value_of_positive p) as Hvalue.
  destruct (digits_of_positive_head p) as (d & ds & Htext & Hd).
  rewrite Htext in Hvalue |- *. rewrite Hd. cbn [andb].
  rewrite (read_fraction_none rest Hrest), (read_exponent_none rest Hrest).
  cbv zeta. rewrite Hvalue.
  apply Z.leb_le in Hbound. rewrite Hbound. reflexivity.
Qed.

Lemma parse_number_to_string (n : Z) (rest : string) :
  Z.abs n <= 2 ^ 53 ->
  number_end rest = true ->
  JSON.parse_number (JSON.number_to_string n +:+ rest) = Some (JNum n, rest).
Proof.
  intros Hbound Hrest. destruct n as [|p|p].
  - change (JSON.number_to_string 0) with "0". unfold JSON.parse_number.
    cbn [String.append]. change (byte_of_ascii "0" =? 45) with false. cbv iota.
    unfold JSON.parse_unsigned_number.
    change (String "0" rest) with ("0" +:+ rest).
    rewrite (span_digits_stop "0" rest eq_refl (number_end_no_digit _ Hrest)).
    cbn [andb negb String.eqb].
    rewrite (read_fraction_none rest Hrest), (read_exponent_none rest Hrest).
    reflexivity.
  - rewrite number_to_string_pos. unfold JSON.parse_number.
    destruct (digits_of_positive_head p) as (d & ds & Htext & Hd).
    pose proof (all_digits_string_of_uint (Pos.to_uint p)) as Hall.
    rewrite Htext in Hall. unfold JSON.all_digits in Hall. simpl in Hall.
    apply andb_true_iff in Hall as [Hdig _].
    assert (Hminus : (byte_of_ascii d =? 45) = false).
    { unfold JSON.is_digit in Hdig. apply andb_true_iff in Hdig as [Hdig _].
      apply Z.leb_le in Hdig. apply Z.eqb_neq. lia. }
    pose proof (parse_unsigned_number_integer false p rest Hrest) as Hparse.
    rewrite Htext in Hparse |- *. cbn [String.append] in Hparse |- *.
    rewrite Hminus. apply Hparse. simpl in Hbound. lia.
  - rewrite number_to_string_neg. unfold JSON.parse_number.
    cbn [String.append]. change (byte_of_ascii "-" =? 45) with true. cbv iota.
    apply (parse_unsigned_number_integer true p rest Hrest).
    simpl in Hbound. lia.
Qed.

(** *** Decimals and their texts *)

Lemma shortest_digits_inv (ds : string) :
  shortest_digits ds = true ->
  JSON.all_digits ds = true
  /\ JSON.strip_trailing_zeros ds = ds
  /\ exists (d : ascii) (ds' : string),
       ds = String d ds' /\ (byte_of_ascii d =? 48) = false.
Proof.
  unfold shortest_digits. intros H.
  apply andb_true_iff in H as [H Htrail]. apply andb_true_iff in H as [H Hlead].
  apply andb_true_iff in H as [Hall Hne].
  apply String.eqb_eq in Htrail, Hlead.
  split; [exact Hall|]. split; [exact Htrail|].
  destruct ds as [|d ds']; [discriminate Hne|].
  exists d, ds'. split; [reflexivity|].
  destruct (byte_of_ascii d =? 48) eqn:Hd; [|reflexivity].
  cbn [JSON.strip_leading_zeros] in Hlead. rewrite Hd in Hlead.
  assert (Hlen : forall s : string,
             (String.length (JSON.strip_leading_zeros s) <= String.length s)%nat).
  { induction s as [|c s IH]; [reflexivity|]. cbn [JSON.strip_leading_zeros].
    destruct (byte_of_ascii c =? 48); simpl; lia. }
  specialize (Hlen ds'). rewrite Hlead in Hlen. simpl in Hlen. lia.
Qed.

Lemma all_digits_append (s t : string) :
  JSON.all_digits (s +:+ t) = JSON.all_digits s && JSON.all_digits t.
Proof.
  unfold JSON.all_digits. induction s as [|c s IH]; [reflexivity|].
  simpl. now rewrite IH, andb_assoc.
Qed.

Lemma all_digits_zeros (j : nat) : JSON.all_digits (JSON.zeros j) = true.
Proof. induction j as [|j IH]; [reflexivity | exact IH]. Qed.

Lemma length_zeros (j : nat) : String.length (JSON.zeros j) = j.
Proof. induction j as [|j IH]; [reflexivity | simpl; now rewrite IH]. Qed.

Lemma take_drop_string (k : nat) :
  forall s : string, JSON.take_string k s +:+ JSON.drop_string k s = s.
Proof.
  induction k as [|k IH]; intros [|c s]; try reflexivity.
  cbn [JSON.take_string JSON.drop_string String.append]. now rewrite IH.
Qed.

Lemma length_drop_string (k : nat) :
  forall s : string,
    String.length (JSON.drop_string k s) = (String.length s - k)%nat.
Proof.
  induction k as [|k IH]; intros [|c s]; try reflexivity.
  cbn [JSON.drop_string String.length]. now rewrite IH.
Qed.

Lemma digits_value_append (s t : string) :
  JSON.digits_value (s +:+ t)
  = foldl (fun acc c => 10 * acc + (byte_of_ascii c - 48))
          (JSON.digits_value s) (list_ascii_of_string t).
Proof.
  unfold JSON.digits_value.
  assert (H : list_ascii_of_string (s +:+ t)
              = (list_ascii_of_string s ++ list_ascii_of_string t)%list).
  { induction s as [|c s IH]; [reflexivity|]. simpl. now rewrite IH. }
  now rewrite H, foldl_app.
Qed.

Lemma digits_value_zeros (s : string) (j : nat) :
  JSON.digits_value (s +:+ JSON.zeros j) = JSON.digits_value s * 10 ^ Z.of_nat j.
Proof.
  rewrite digits_value_append. generalize (JSON.digits_value s) as a.
  induction j as [|j IH]; intros a.
  - simpl. lia.
  - cbn [JSON.zeros list_ascii_of_string foldl]. rewrite IH.
    change (byte_of_ascii "0") with 48.
    rewrite Nat2Z.inj_succ, Z.pow_succ_r by lia. lia.
Qed.

Lemma strip_leading_zeros_zeros (j : nat) (s : string) :
  JSON.strip_leading_zeros (JSON.zeros j +:+ s) = JSON.strip_leading_zeros s.
Proof. induction j as [|j IH]; [reflexivity | exact IH]. Qed.

Lemma strip_trailing_zeros_zeros (j : nat) :
  JSON.strip_trailing_zeros (JSON.zeros j) = EmptyString.
Proof.
  induction j as [|j IH]; [reflexivity|].
  cbn [JSON.zeros JSON.strip_trailing_zeros]. now rewrite IH.
Qed.

Lemma strip_trailing_zeros_append (s : string) (j : nat) :
  JSON.strip_trailing_zeros (s +:+ JSON.zeros j) = JSON.strip_trailing_zeros s.
Proof.
  induction s as [|c s IH]; [apply strip_trailing_zeros_zeros|].
  cbn [String.append JSON.strip_trailing_zeros]. now rewrite IH.
Qed.

(** The numeral of a shortest decimal, however it is written, has the
    Number value of the decimal. *)
Lemma number_of_numeral_digits (negative : bool) (ds : string) (E : Z)
    (lead trail : nat) (E0 : Z) :
  shortest_digits ds = true ->
  E0 + Z.of_nat trail = E ->
  JSON.number_of_numeral negative
    (JSON.zeros lead +:+ ds +:+ JSON.zeros trail) E0
  = JSON.number_of_digits negative ds E.
Proof.
  intros Hds HE. destruct (shortest_digits_inv ds Hds) as (_ & Htrail & d & ds' & -> & Hd).
  unfold JSON.number_of_numeral. rewrite strip_leading_zeros_zeros.
  assert (Hlead : JSON.strip_leading_zeros (String d ds' +:+ JSON.zeros trail)
                  = String d ds' +:+ JSON.zeros trail).
  { cbn [String.append JSON.strip_leading_zeros]. now rewrite Hd. }
  rewrite Hlead, strip_trailing_zeros_append, Htrail.
  rewrite length_append, length_zeros. f_equal. lia.
Qed.

Lemma number_text (a : Z) :
  0 <= a ->
  JSON.all_digits (JSON.number_to_string a) = true
  /\ JSON.digits_value (JSON.number_to_string a) = a
  /\ exists (c : ascii) (t : string), JSON.number_to_string a = String c t.
Proof.
  intros Ha. destruct a as [|p|p]; [repeat split; eauto | | lia].
  rewrite number_to_string_pos.
  split; [apply all_digits_string_of_uint|].
  split; [apply digits_value_of_positive|].
  destruct (digits_of_positive_head p) as (d & ds & -> & _). eauto.
Qed.

(** The exponent [e+x] or [e-x] is read back. *)
Lemma read_exponent_text (x : Z) (rest : string) :
  number_end rest = true ->
  JSON.read_exponent
    ("e" +:+ (if 0 <=? x then "+" else "-")
         +:+ JSON.number_to_string (Z.abs x) +:+ rest)
  = Some (Some x, rest).
Proof.
  intros Hrest.
  destruct (number_text (Z.abs x) (Z.abs_nonneg x)) as (Hall & Hvalue & c & t & Ht).
  pose proof (span_digits_stop _ rest Hall (number_end_no_digit _ Hrest)) as Hspan.
  unfold JSON.read_exponent. cbn [String.append].
  change (byte_of_ascii "e" =? 101) with true. cbn [orb].
  destruct (0 <=? x) eqn:Hx; cbn [String.append].
  - change (byte_of_ascii "+" =? 45) with false.
    change (byte_of_ascii "+" =? 43) with true. cbv iota.
    unfold JSON.read_exponent_digits. rewrite Hspan, Ht, <- Ht, Hvalue.
    apply Z.leb_le in Hx. do 3 f_equal. lia.
  - change (byte_of_ascii "-" =? 45) with true. cbv iota.
    unfold JSON.read_exponent_digits. rewrite Hspan, Ht, <- Ht, Hvalue.
    apply Z.leb_gt in Hx. do 3 f_equal. lia.
Qed.

Lemma append_nil_r (s : string) : s +:+ EmptyString = s.
Proof. induction s as [|c s IH]; simpl; [reflexivity | now rewrite IH]. Qed.

(** A decimal written as an integer: digits and zeros. *)
Lemma read_integer_form (negative : bool) (ds : string) (E : Z) (rest : string) :
  shortest_digits ds = true ->
  number_end rest = true ->
  0 <= E ->
  2 ^ 53 < JSON.digits_value ds * 10 ^ E ->
  JSON.parse_unsigned_number negative
    ((ds +:+ JSON.zeros (Z.to_nat E)) +:+ rest)
  = match JSON.number_of_digits negative ds E with
    | Some v => Some (v, rest)
    | None => None
    end.
Proof.
  intros Hds Hrest HE Hbig.
  destruct (shortest_digits_inv ds Hds) as (Hall & _ & d & ds' & Heq & Hd).
  unfold JSON.parse_unsigned_number.
  rewrite span_digits_stop;
    [|rewrite all_digits_append, Hall; apply all_digits_zeros
     |now apply number_end_no_digit].
  pose proof (digits_value_zeros ds (Z.to_nat E)) as Hvalue.
  pose proof (number_of_numeral_digits negative ds E 0 (Z.to_nat E) 0 Hds) as Hnum.
  cbn [JSON.zeros String.append] in Hnum.
  rewrite Heq in Hvalue, Hnum, Hbig |- *. cbn [String.append] in Hvalue, Hnum |- *.
  rewrite Hd. cbn [andb].
  rewrite (read_fraction_none rest Hrest), (read_exponent_none rest Hrest).
  cbv zeta. rewrite Hvalue, Z2Nat.id by lia.
  apply Z.leb_gt in Hbig. rewrite Hbig, Hnum by lia. reflexivity.
Qed.

(** A decimal written with its point among the digits. *)
Lemma read_point_form (negative : bool) (ds : string) (E : Z) (k : nat)
    (rest : string) :
  shortest_digits ds = true ->
  number_end rest = true ->
  (0 < k < String.length ds)%nat ->
  E = Z.of_nat k - Z.of_nat (String.length ds) ->
  JSON.parse_unsigned_number negative
    ((JSON.take_string k ds +:+ "." +:+ JSON.drop_string k ds) +:+ rest)
  = match JSON.number_of_digits negative ds E with
    | Some v => Some (v, rest)
    | None => None
    end.
Proof.
  intros Hds Hrest Hk HE.
  destruct (shortest_digits_inv ds Hds) as (Hall & _ & d & ds' & Heq & Hd).
  subst ds. set (ds := String d ds') in *.
  pose proof (take_drop_string k ds) as Htd.
  pose proof (length_drop_string k ds) as Hld.
  assert (Hsplit : JSON.all_digits (JSON.take_string k ds) = true
                   /\ JSON.all_digits (JSON.drop_string k ds) = true).
  { rewrite <- Htd, all_digits_append in Hall. now apply andb_true_iff in Hall. }
  destruct Hsplit as [Htake Hdrop].
  pose proof (number_of_numeral_digits negative ds E 0 0
                (- Z.of_nat (String.length (JSON.drop_string k ds))) Hds) as Hnum.
  cbn [JSON.zeros String.append] in Hnum. rewrite append_nil_r in Hnum.
  unfold JSON.parse_unsigned_number.
  rewrite !append_assoc.
  rewrite span_digits_stop; [|exact Htake | reflexivity].
  destruct k as [|k]; [lia|]. subst ds.
  cbn [JSON.take_string] in Htd |- *. rewrite Hd. cbn [andb].
  unfold JSON.read_fraction. cbn [String.append].
  change (byte_of_ascii "." =? 46) with true. cbv iota.
  rewrite span_digits_stop;
    [|exact Hdrop | now apply number_end_no_digit].
  destruct (JSON.drop_string (S k) (String d ds')) as [|f fs] eqn:Hf.
  { simpl in Hld, Hk. lia. }
  rewrite (read_exponent_none rest Hrest). cbv zeta. cbn [default].
  cbn [String.append] in Htd. rewrite Htd.
  replace (0 - Z.of_nat (String.length (String f fs)))
    with (- Z.of_nat (String.length (String f fs))) by lia.
  rewrite Hnum; [reflexivity|].
  rewrite Hld in *. cbn [String.length] in *. lia.
Qed.

(** A decimal below one written without an exponent. *)
Lemma read_fraction_form (negative : bool) (ds : string) (E : Z) (j : nat)
    (rest : string) :
  shortest_digits ds = true ->
  number_end rest = true ->
  E = - Z.of_nat j - Z.of_nat (String.length ds) ->
  JSON.parse_unsigned_number negative
    (("0." +:+ JSON.zeros j +:+ ds) +:+ rest)
  = match JSON.number_of_digits negative ds E with
    | Some v => Some (v, rest)
    | None => None
    end.
Proof.
  intros Hds Hrest HE.
  destruct (shortest_digits_inv ds Hds) as (Hall & _ & d & ds' & Heq & Hd).
  pose proof (number_of_numeral_digits negative ds E (S j) 0
                (- Z.of_nat (String.length (JSON.zeros j +:+ ds))) Hds) as Hnum.
  cbn [JSON.zeros String.append] in Hnum. rewrite append_nil_r in Hnum.
  unfold JSON.parse_unsigned_number. cbn [String.append].
  change (JSON.span_digits (String "0" (String "." ((JSON.zeros j +:+ ds) +:+ rest))))
    with ("0", String "." ((JSON.zeros j +:+ ds) +:+ rest)).
  cbn [andb negb String.eqb]. change (byte_of_ascii "0" =? 48) with true.
  cbn [andb]. unfold JSON.read_fraction.
  change (byte_of_ascii "." =? 46) with true. cbv iota.
  rewrite span_digits_stop;
    [|rewrite all_digits_append, all_digits_zeros; exact Hall
     |now apply number_end_no_digit].
  destruct (JSON.zeros j +:+ ds) as [|f fs] eqn:Hf.
  { destruct j; rewrite Heq in Hf; discriminate Hf. }
  rewrite (read_exponent_none rest Hrest). cbv zeta. cbn [default].
  replace (0 - Z.of_nat (String.length (String f fs)))
    with (- Z.of_nat (String.length (String f fs))) by lia.
  cbn [String.append]. rewrite Hnum; [reflexivity|].
  rewrite <- Hf, length_append, length_zeros. lia.
Qed.

(** A decimal written with an exponent. *)
Lemma read_exponent_form (negative : bool) (ds : string) (E x : Z)
    (rest : string) :
  shortest_digits ds = true ->
  number_end rest = true ->
  E = x - (Z.of_nat (String.length ds) - 1) ->
  JSON.parse_unsigned_number negative
    (((match ds with
       | String d (String d' more) => String d ("." +:+ String d' more)
       | _ => ds
       end)
      +:+ "e" +:+ (if 0 <=? x then "+" else "-")
      +:+ JSON.number_to_string (Z.abs x)) +:+ rest)
  = match JSON.number_of_digits negative ds E with
    | Some v => Some (v, rest)
    | None => None
    end.
Proof.
  intros Hds Hrest HE.
  destruct (shortest_digits_inv ds Hds) as (Hall & _ & d & ds' & Heq & Hd).
  pose proof (number_of_numeral_digits negative ds E 0 0 E Hds) as Hnum.
  cbn [JSON.zeros String.append] in Hnum. rewrite append_nil_r in Hnum.
  pose proof (read_exponent_text x rest Hrest) as Hexp.
  subst ds. rewrite all_digits_cons in Hall.
  apply andb_true_iff in Hall as [Hdig Hall'].
  unfold JSON.parse_unsigned_number.
  destruct ds' as [|d' more].
  - rewrite !append_assoc. cbn [String.append] in Hexp |- *.
    cbn [JSON.span_digits]. rewrite Hdig.
    cbn [JSON.span_digits JSON.is_digit]. change (JSON.is_digit "e") with false.
    cbv iota. cbn [andb negb String.eqb]. rewrite andb_false_r.
    unfold JSON.read_fraction. change (byte_of_ascii "e" =? 46) with false.
    cbv iota. rewrite Hexp. cbv zeta. cbn [default from_option id String.length String.append].
    replace (x - Z.of_nat 0) with E by (cbn [String.length] in HE; lia).
    rewrite Hnum by lia. reflexivity.
  - rewrite !append_assoc. cbn [String.append] in Hexp |- *.
    cbn [JSON.span_digits]. rewrite Hdig.
    change (JSON.is_digit ".") with false. cbv iota. rewrite Hd. cbn [andb].
    unfold JSON.read_fraction. change (byte_of_ascii "." =? 46) with true.
    cbv iota.
    change (String d' (more +:+ String "e" ?t))
      with (String d' more +:+ String "e" t).
    rewrite span_digits_stop; [|exact Hall' | reflexivity].
    rewrite Hexp. cbv zeta. cbn [default from_option id].
    replace (x - Z.of_nat (String.length (String d' more))) with E
      by (cbn [String.length] in HE |- *; lia).
    cbn [String.append] in Hnum |- *. rewrite Hnum by lia. reflexivity.
Qed.

Lemma wf_dec_inv (negative : bool) (ds : string) (E : Z) :
  wf_json (JDec negative ds E) ->
  shortest_digits ds = true
  /\ JSON.number_of_digits negative ds E = Some (JDec negative ds E)
  /\ (0 <=? E) && (JSON.digits_value ds * 10 ^ E <=? 2 ^ 53) = false.
Proof.
  intros Hwf. inversion Hwf as [| | |? ? ? Hds Hnum| | |]; subst.
  split; [exact Hds|]. split; [exact Hnum|].
  unfold JSON.number_of_digits in Hnum.
  destruct (JSON.round_decimal _ _) as [[m e]|]; [|discriminate Hnum].
  destruct (m =? 0); [discriminate Hnum|].
  destruct (JSON.shortest m e) as [[ds' E']|]; [|discriminate Hnum].
  injection Hnum as Hnum. unfold JSON.of_canonical in Hnum. cbv zeta in Hnum.
  destruct ((0 <=? E') && (JSON.digits_value ds' * 10 ^ E' <=? 2 ^ 53)) eqn:Ht;
    [discriminate Hnum|].
  injection Hnum as <- <-. exact Ht.
Qed.

Lemma take_string_head (k : nat) (d : ascii) (ds : string) :
  JSON.take_string (S k) (String d ds) = String d (JSON.take_string k ds).
Proof. reflexivity. Qed.

(** The text of a decimal without its sign starts with a digit. *)
Lemma decimal_head (ds : string) (E : Z) :
  shortest_digits ds = true ->
  exists (c : ascii) (t : string),
    JSON.decimal_to_string false ds E = String c t /\ JSON.is_digit c = true.
Proof.
  intros Hds.
  destruct (shortest_digits_inv ds Hds) as (Hall & _ & d & ds' & -> & Hd).
  rewrite all_digits_cons in Hall. apply andb_true_iff in Hall as [Hdig _].
  unfold JSON.decimal_to_string. cbv zeta.
  set (k := Z.of_nat (String.length (String d ds')) + E).
  destruct ((0 <=? E) && (k <=? 21)).
  { cbn [String.append]. eauto. }
  destruct ((0 <? k) && (k <=? 21)) eqn:Hk.
  { apply andb_true_iff in Hk as [Hk _]. apply Z.ltb_lt in Hk.
    destruct (Z.to_nat k) as [|k'] eqn:Hn; [lia|].
    rewrite take_string_head. cbn [String.append]. eauto. }
  destruct ((-6 <? k) && (k <=? 0)).
  { cbn [String.append]. exists "0"%char. eauto. }
  destruct ds' as [|d' more]; cbn [String.append]; eauto.
Qed.

Lemma decimal_to_string_negative (ds : string) (E : Z) :
  JSON.decimal_to_string true ds E
  = String "-" (JSON.decimal_to_string false ds E).
Proof. reflexivity. Qed.

Lemma parse_unsigned_decimal_to_string (negative : bool) (ds : string) (E : Z)
    (rest : string) :
  wf_json (JDec negative ds E) ->
  number_end rest = true ->
  JSON.parse_unsigned_number negative
    (JSON.decimal_to_string false ds E +:+ rest)
  = Some (JDec negative ds E, rest).
Proof.
  intros Hwf Hrest. destruct (wf_dec_inv _ _ _ Hwf) as (Hds & Hnum & Hbig).
  assert (Hlen : (0 < String.length ds)%nat).
  { destruct (shortest_digits_inv ds Hds) as (_ & _ & d & ds' & -> & _).
    simpl. lia. }
  unfold JSON.decimal_to_string. cbv zeta.
  set (k := Z.of_nat (String.length ds) + E).
  destruct ((0 <=? E) && (k <=? 21)) eqn:H1.
  { apply andb_true_iff in H1 as [HE _]. rewrite HE in Hbig.
    apply Z.leb_le in HE. cbn [andb] in Hbig. apply Z.leb_gt in Hbig.
    rewrite read_integer_form, Hnum by assumption. reflexivity. }
  destruct ((0 <? k) && (k <=? 21)) eqn:H2.
  { apply andb_true_iff in H2 as [Hk Hk']. apply Z.ltb_lt in Hk.
    apply Z.leb_le in Hk'.
    assert (HE : E < 0).
    { destruct (0 <=? E) eqn:HE; [|now apply Z.leb_gt in HE].
      cbn [andb] in H1. apply Z.leb_gt in H1. lia. }
    rewrite (read_point_form negative ds E (Z.to_nat k) rest), Hnum
      by (assumption || lia).
    reflexivity. }
  destruct ((-6 <? k) && (k <=? 0)) eqn:H3.
  { apply andb_true_iff in H3 as [_ Hk]. apply Z.leb_le in Hk.
    rewrite (read_fraction_form negative ds E (Z.to_nat (- k)) rest), Hnum
      by (assumption || lia).
    reflexivity. }
  rewrite (read_exponent_form negative ds E (k - 1) rest), Hnum
    by (assumption || lia).
  reflexivity.
Qed.

(** [JSON.parse] reads a decimal back from the text [JSON.stringify] wrote. *)
Lemma parse_decimal_to_string (negative : bool) (ds : string) (E : Z)
    (rest : string) :
  wf_json (JDec negative ds E) ->
  number_end rest = true ->
  JSON.parse_number (JSON.decimal_to_string negative ds E +:+ rest)
  = Some (JDec negative ds E, rest).
Proof.
  intros Hwf Hrest.
  pose proof (parse_unsigned_decimal_to_string negative ds E rest Hwf Hrest)
    as Hparse.
  destruct negative.
  - rewrite decimal_to_string_negative. cbn [String.append].
    unfold JSON.parse_number. change (byte_of_ascii "-" =? 45) with true.
    exact Hparse.
  - destruct (wf_dec_inv _ _ _ Hwf) as (Hds & _ & _).
    destruct (decimal_head ds E Hds) as (c & t & Ht & Hc).
    rewrite Ht in Hparse |- *. cbn [String.append] in Hparse |- *.
    unfold JSON.parse_number.
    assert (Hminus : (byte_of_ascii c =? 45) = false).
    { unfold JSON.is_digit in Hc. apply andb_true_iff in Hc as [Hlo _].
      apply Z.leb_le in Hlo. apply Z.eqb_neq. lia. }
    rewrite Hminus. exact Hparse.
Qed.

Lemma number_of_numeral_wf (negative : bool) (ds : string) (E : Z) (v : json) :
  JSON.number_of_numeral negative ds E = Some v -> wf_json v.
Proof.
  unfold JSON.number_of_numeral. cbv zeta.
  destruct (JSON.strip_trailing_zeros _) as [|c kept].
  - intros H. injection H as <-. constructor. simpl. lia.
  - apply number_of_digits_wf.
Qed.

Lemma parse_unsigned_number_wf (negative : bool) (s : string) (v : json)
    (r : string) :
  JSON.parse_unsigned_number negative s = Some (v, r) -> wf_json v.
Proof.
  unfold JSON.parse_unsigned_number.
  destruct (JSON.span_digits s) as [[|d ds'] r1] eqn:Hspan; [discriminate|].
  apply span_digits_digits in Hspan.
  destruct (_ && _); [discriminate|].
  destruct (JSON.read_fraction r1) as [[fs r2]|]; [|discriminate].
  destruct (JSON.read_exponent r2) as [[x r3]|]; [|discriminate].
  cbv zeta.
  assert (Hround : forall (digits : string) (E : Z),
             match JSON.number_of_numeral negative digits E with
             | Some v' => Some (v', r3)
             | None => None
             end = Some (v, r) -> wf_json v).
  { intros digits E H.
    destruct (JSON.number_of_numeral negative digits E) as [v'|] eqn:Hn;
      [|discriminate H].
    injection H as <- _. exact (number_of_numeral_wf _ _ _ _ Hn). }
  destruct fs as [|f fs]; [destruct x as [x|]|]; try apply Hround.
  pose proof (digits_value_nonneg (String d ds') Hspan) as Hpos.
  destruct (JSON.digits_value (String d ds') <=? 2 ^ 53) eqn:Hle;
    [|apply Hround].
  apply Z.leb_le in Hle. intros H. injection H as <- _.
  constructor. destruct negative; lia.
Qed.

Lemma parse_number_wf (s : string) (v : json) (r : string) :
  JSON.parse_number s = Some (v, r) -> wf_json v.
Proof.
  unfold JSON.parse_number. destruct s as [|c s']; [discriminate|].
  destruct (byte_of_ascii c =? 45); apply parse_unsigned_number_wf.
Qed.

(** *** Objects in order *)

Lemma obj_insert_new_cons (k : string) (v : json) (k' : string) (v' : json)
    (o : list (string * json)) :
  JSON.obj_insert_new k v ((k', v') :: o)
  = if stop k k' then (k, v) :: (k', v') :: o
    else (k', v') :: JSON.obj_insert_new k v o.
Proof.
  unfold stop. simpl.
  destruct (JSON.array_index k), (JSON.array_index k'); reflexivity.
Qed.

Lemma obj_has_false (k : string) (o : list (string * json)) :
  JSON.obj_has k o = false <-> ~ In k (List.map fst o).
Proof.
  unfold JSON.obj_has. induction o as [|[k' v'] o IH]; simpl.
  - tauto.
  - rewrite orb_false_iff, IH, String.eqb_neq. tauto.
Qed.

Lemma keys_obj_insert_new (k : string) (v : json) (o : list (string * json)) :
  forall x : string,
    In x (List.map fst (JSON.obj_insert_new k v o))
    <-> x = k \/ In x (List.map fst o).
Proof.
  induction o as [|[k' v'] o IH]; intros x.
  - simpl. intuition.
  - rewrite obj_insert_new_cons. destruct (stop k k'); simpl.
    + intuition.
    + rewrite IH. intuition.
Qed.

(** A key that is put before [e] stays before whatever may follow [e]. *)
Lemma stop_before (k e e' : string) :
  stop k e = true -> stop e' e = false -> stop e' k = false.
Proof.
  unfold stop.
  destruct (JSON.array_index k) as [i|], (JSON.array_index e) as [i0|],
    (JSON.array_index e') as [i'|]; intros H1 H2;
    try reflexivity; try discriminate.
  apply Z.ltb_lt in H1. apply Z.ltb_ge in H2. apply Z.ltb_ge. lia.
Qed.

Lemma stop_asym (k e : string) : stop k e = true -> stop e k = false.
Proof.
  unfold stop.
  destruct (JSON.array_index k) as [i|], (JSON.array_index e) as [i0|];
    intros H; try reflexivity; try discriminate.
  apply Z.ltb_lt in H. apply Z.ltb_ge. lia.
Qed.

Lemma canonical_insert_new (k : string) (v : json) (o : list (string * json)) :
  canonical o ->
  ~ In k (List.map fst o) ->
  canonical (JSON.obj_insert_new k v o).
Proof.
  unfold canonical. induction o as [|[k' v'] o IH]; intros Hc Hnew.
  - simpl. repeat constructor.
  - simpl in Hc, Hnew. apply Sorted.StronglySorted_inv in Hc as [Hc Hall].
    rewrite obj_insert_new_cons. destruct (stop k k') eqn:Hstop; simpl.
    + constructor; [constructor; assumption|].
      constructor.
      * split; [intros ->; tauto | now apply stop_asym].
      * rewrite List.Forall_forall in Hall |- *. intros e He.
        destruct (Hall e He) as [Hne Hs].
        split; [intros ->; tauto | exact (stop_before k k' e Hstop Hs)].
    + constructor; [apply IH; tauto|].
      rewrite List.Forall_forall in Hall |- *. intros e He.
      apply keys_obj_insert_new in He as [->|He]; [|now apply Hall].
      split; [intros ->; tauto | exact Hstop].
Qed.

Lemma keys_obj_set_present (k : string) (v : json) (o : list (string * json)) :
  JSON.obj_has k o = true ->
  List.map fst (JSON.obj_set k v o) = List.map fst o.
Proof.
  intros H. rewrite obj_set_present by exact H. rewrite List.map_map.
  reflexivity.
Qed.

(** An assignment keeps an object in order. *)
Lemma canonical_obj_set (k : string) (v : json) (o : list (string * json)) :
  canonical o -> canonical (JSON.obj_set k v o).
Proof.
  intros Hc. destruct (JSON.obj_has k o) eqn:Hhas.
  - unfold canonical. now rewrite keys_obj_set_present.
  - unfold JSON.obj_set. rewrite Hhas.
    apply canonical_insert_new; [exact Hc | now apply obj_has_false].
Qed.

Lemma obj_insert_new_last (k : string) (v : json) (o : list (string * json)) :
  List.Forall (fun e => stop k e = false) (List.map fst o) ->
  JSON.obj_insert_new k v o = (o ++ [(k, v)])%list.
Proof.
  induction o as [|[k' v'] o IH]; intros H; [reflexivity|].
  simpl in H. apply List.Forall_cons_iff in H as [Hk' H].
  rewrite obj_insert_new_cons, Hk', IH by exact H. reflexivity.
Qed.

Lemma StronglySorted_app_inv {A : Type} (R : A -> A -> Prop) (l1 l2 : list A) :
  Sorted.StronglySorted R (l1 ++ l2)%list ->
  forall x y : A, In x l1 -> In y l2 -> R x y.
Proof.
  induction l1 as [|a l1 IH]; intros H x y Hx Hy; [destruct Hx|].
  simpl in H. apply Sorted.StronglySorted_inv in H as [H Hall].
  destruct Hx as [->|Hx]; [|now apply IH].
  rewrite List.Forall_forall in Hall. apply Hall. apply List.in_or_app. now right.
Qed.

(** Adding the members of an object that is in order, one after the other,
    gives the object back: that is how [JSON.parse] reads it. *)
Lemma foldl_obj_set (rest : list (string * json)) :
  forall acc : list (string * json),
    canonical (acc ++ rest)%list ->
    foldl (fun a kv => JSON.obj_set (fst kv) (snd kv) a) acc rest
    = (acc ++ rest)%list.
Proof.
  induction rest as [|[k v] rest IH]; intros acc Hc; simpl.
  - now rewrite List.app_nil_r.
  - assert (Hset : JSON.obj_set k v acc = (acc ++ [(k, v)])%list).
    { unfold canonical in Hc. rewrite List.map_app in Hc. simpl in Hc.
      pose proof (StronglySorted_app_inv _ _ _ Hc) as Hord.
      assert (Hall : forall e, In e (List.map fst acc) -> key_order e k)
        by (intros e He; apply Hord; [exact He | now left]).
      unfold JSON.obj_set.
      assert (Hhas : JSON.obj_has k acc = false).
      { apply obj_has_false. intros Hin. now destruct (Hall k Hin). }
      rewrite Hhas. apply obj_insert_new_last.
      rewrite List.Forall_forall. intros e He. now destruct (Hall e He). }
    rewrite Hset, IH; rewrite <- List.app_assoc; [reflexivity | exact Hc].
Qed.

(** *** What [JSON.parse] returns is well formed *)

Lemma Forall_obj_insert_new (P : json -> Prop) (k : string) (v : json)
    (o : list (string * json)) :
  P v ->
  List.Forall (fun kv => P (snd kv)) o ->
  List.Forall (fun kv => P (snd kv)) (JSON.obj_insert_new k v o).
Proof.
  intros Hv. induction o as [|[k' v'] o IH]; intros Ho.
  - repeat constructor. exact Hv.
  - rewrite obj_insert_new_cons. apply List.Forall_cons_iff in Ho as [Hk' Ho].
    destruct (stop k k'); repeat constructor; auto.
Qed.

Lemma Forall_obj_set (P : json -> Prop) (k : string) (v : json)
    (o : list (string * json)) :
  P v ->
  List.Forall (fun kv => P (snd kv)) o ->
  List.Forall (fun kv => P (snd kv)) (JSON.obj_set k v o).
Proof.
  intros Hv Ho. unfold JSON.obj_set. destruct (JSON.obj_has k o).
  - rewrite List.Forall_forall in Ho |- *. intros kv Hin.
    apply List.in_map_iff in Hin as (kv' & <- & Hin').
    destruct (String.eqb (fst kv') k); [exact Hv | now apply Ho].
  - now apply Forall_obj_insert_new.
Qed.

Lemma Forall_keys_obj_insert_new (Q : string -> Prop) (k : string) (v : json)
    (o : list (string * json)) :
  Q k ->
  List.Forall (fun kv => Q (fst kv)) o ->
  List.Forall (fun kv => Q (fst kv)) (JSON.obj_insert_new k v o).
Proof.
  intros Hk. induction o as [|[k' v'] o IH]; intros Ho.
  - repeat constructor. exact Hk.
  - rewrite obj_insert_new_cons. apply List.Forall_cons_iff in Ho as [Hk' Ho].
    destruct (stop k k'); repeat constructor; auto.
Qed.

Lemma Forall_keys_obj_set (Q : string -> Prop) (k : string) (v : json)
    (o : list (string * json)) :
  Q k ->
  List.Forall (fun kv => Q (fst kv)) o ->
  List.Forall (fun kv => Q (fst kv)) (JSON.obj_set k v o).
Proof.
  intros Hk Ho. unfold JSON.obj_set. destruct (JSON.obj_has k o).
  - rewrite List.Forall_forall in Ho |- *. intros kv Hin.
    apply List.in_map_iff in Hin as (kv' & <- & Hin').
    destruct (String.eqb (fst kv') k); cbn [fst]; now apply Ho.
  - now apply Forall_keys_obj_insert_new.
Qed.

Lemma parse_literal_value (lit : string) (v v' : json) (s r : string) :
  JSON.parse_literal lit v s = Some (v', r) -> v' = v.
Proof.
  unfold JSON.parse_literal. destruct (JSON.strip_prefix lit s); [|discriminate].
  intros H. now injection H as <- _.
Qed.

Lemma parse_wf (n : nat) :
  (forall (s : string) (v : json) (r : string),
      JSON.parse_value n s = Some (v, r) -> wf_json v)
  /\ (forall (s : string) (l : list json) (r : string),
         JSON.parse_elements n s = Some (l, r) -> List.Forall wf_json l)
  /\ (forall (acc : list (string * json)) (s : string)
             (o : list (string * json)) (r : string),
         JSON.parse_members n acc s = Some (o, r) ->
         canonical acc ->
         List.Forall (fun kv => wf_string (fst kv)) acc ->
         List.Forall (fun kv => wf_json (snd kv)) acc ->
         canonical o
         /\ List.Forall (fun kv => wf_string (fst kv)) o
         /\ List.Forall (fun kv => wf_json (snd kv)) o).
Proof.
  induction n as [|n (IHv & IHe & IHm)];
    [repeat split; intros; discriminate|].
  split; [|split].
  - intros s v r H. simpl in H.
    destruct (JSON.skip_ws s) as [|c rest]; [discriminate H|].
    destruct (byte_of_ascii c =? 123).
    { destruct (JSON.skip_ws rest) as [|c' rest']; [discriminate H|].
      destruct (byte_of_ascii c' =? 125).
      - injection H as <- _. constructor; constructor.
      - destruct (JSON.parse_members n [] rest) as [[o r']|] eqn:E;
          [|discriminate H].
        injection H as <- _.
        destruct (IHm [] rest o r' E) as (Hc & Hk & Hw);
          [constructor | constructor | constructor|].
        now apply wf_obj. }
    destruct (byte_of_ascii c =? 91).
    { destruct (JSON.skip_ws rest) as [|c' rest']; [discriminate H|].
      destruct (byte_of_ascii c' =? 93).
      - injection H as <- _. repeat constructor.
      - destruct (JSON.parse_elements n rest) as [[l r']|] eqn:E;
          [|discriminate H].
        injection H as <- _. constructor. exact (IHe rest l r' E). }
    destruct (byte_of_ascii c =? 34).
    { destruct (JSON.parse_string_body rest) as [[str r']|] eqn:E;
        [|discriminate H].
      injection H as <- _. constructor.
      exact (parse_string_body_wf _ _ _ E). }
    destruct (byte_of_ascii c =? 110);
      [apply parse_literal_value in H; subst v; constructor|].
    destruct (byte_of_ascii c =? 116);
      [apply parse_literal_value in H; subst v; constructor|].
    destruct (byte_of_ascii c =? 102);
      [apply parse_literal_value in H; subst v; constructor|].
    exact (parse_number_wf (String c rest) _ _ H).
  - intros s l r H. simpl in H.
    destruct (JSON.parse_value n s) as [[v rest]|] eqn:E; [|discriminate H].
    apply IHv in E.
    destruct (JSON.skip_ws rest) as [|c rest']; [discriminate H|].
    destruct (byte_of_ascii c =? 44).
    + destruct (JSON.parse_elements n rest') as [[vs r']|] eqn:E';
        [|discriminate H].
      injection H as <- _. constructor; [exact E | exact (IHe rest' vs r' E')].
    + destruct (byte_of_ascii c =? 93); [|discriminate H].
      injection H as <- _. repeat constructor. exact E.
  - intros acc s o r H Hc Hk Hw. simpl in H.
    destruct (JSON.skip_ws s) as [|q rest]; [discriminate H|].
    destruct (byte_of_ascii q =? 34); [|discriminate H].
    destruct (JSON.parse_string_body rest) as [[k rest1]|] eqn:Ek;
      [|discriminate H].
    apply parse_string_body_wf in Ek.
    destruct (JSON.skip_ws rest1) as [|c1 rest2]; [discriminate H|].
    destruct (byte_of_ascii c1 =? 58); [|discriminate H].
    destruct (JSON.parse_value n rest2) as [[v rest3]|] eqn:Ev;
      [|discriminate H].
    apply IHv in Ev.
    destruct (JSON.skip_ws rest3) as [|c3 rest4]; [discriminate H|].
    destruct (byte_of_ascii c3 =? 44).
    + apply (IHm _ _ _ _ H);
        [now apply canonical_obj_set
        |now apply (Forall_keys_obj_set wf_string)
        |now apply Forall_obj_set].
    + destruct (byte_of_ascii c3 =? 125); [|discriminate H].
      injection H as <- _.
      split; [now apply canonical_obj_set|].
      split; [now apply (Forall_keys_obj_set wf_string)
             |now apply Forall_obj_set].
Qed.

(** Every value [JSON.parse] returns is well formed. *)
Lemma JSON_parse_wf (text : string) (v : json) :
  JSON.parse text = Some v -> wf_json v.
Proof.
  unfold JSON.parse. intros H.
  destruct (JSON.parse_value _ text) as [[v' rest]|] eqn:E; [|discriminate H].
  destruct (JSON.skip_ws rest); [|discriminate H]. injection H as <-.
  destruct (parse_wf (2 * String.length text + 2)) as (Hv & _ & _).
  exact (Hv text v' rest E).
Qed.

(** *** The round trip *)

Ltac decide_bytes :=
  repeat (cbn [orb andb negb];
          match goal with
          | |- context [byte_of_ascii ?c =? ?k] =>
              destruct (Z.eqb_spec (byte_of_ascii c) k); [lia|]
          end);
  cbn [orb andb negb].

Lemma parse_value_at_number (c : ascii) (t : string) (f : nat) :
  JSON.is_digit c = true \/ c = "-"%char ->
  JSON.parse_value (S f) (String c t) = JSON.parse_number (String c t).
Proof.
  intros [H| ->]; [|reflexivity].
  unfold JSON.is_digit in H. apply andb_true_iff in H as [H1 H2].
  apply Z.leb_le in H1, H2.
  cbn [JSON.parse_value JSON.skip_ws]. unfold JSON.is_ws. cbv zeta.
  decide_bytes. reflexivity.
Qed.

Lemma number_head (n : Z) :
  exists (c : ascii) (t : string),
    JSON.number_to_string n = String c t
    /\ (JSON.is_digit c = true \/ c = "-"%char).
Proof.
  unfold JSON.number_to_string. destruct n as [|p|p].
  - exists "0"%char, EmptyString. split; [reflexivity | now left].
  - pose proof (all_digits_string_of_uint (Pos.to_uint p)) as Hall.
    pose proof (DecimalPos.Unsigned.to_uint_nonnil p) as Hnil.
    assert (Htext : NilZero.string_of_int (Z.to_int (Z.pos p))
                    = NilEmpty.string_of_uint (Pos.to_uint p))
      by (simpl; destruct (Pos.to_uint p); [now destruct Hnil | reflexivity ..]).
    rewrite Htext.
    destruct (NilEmpty.string_of_uint (Pos.to_uint p)) as [|d ds] eqn:E.
    { destruct (Pos.to_uint p); [now destruct Hnil | discriminate E ..]. }
    exists d, ds. split; [reflexivity|]. left.
    unfold JSON.all_digits in Hall. simpl in Hall.
    now apply andb_true_iff in Hall as [? _].
  - eexists "-"%char, _. split; [reflexivity | now right].
Qed.

Lemma decimal_text_head (negative : bool) (ds : string) (E : Z) :
  shortest_digits ds = true ->
  exists (c : ascii) (t : string),
    JSON.decimal_to_string negative ds E = String c t
    /\ (JSON.is_digit c = true \/ c = "-"%char).
Proof.
  intros Hds. destruct negative.
  - rewrite decimal_to_string_negative. eexists _, _. split; [reflexivity|].
    now right.
  - destruct (decimal_head ds E Hds) as (c & t & Ht & Hc). eauto.
Qed.

Lemma reads_back_number (n : Z) : reads_back (JNum n).
Proof.
  intros Hwf rest fuel Hrest Hfuel. inversion Hwf as [| |? Hbound| | | |]; subst.
  destruct fuel as [|f]; [lia|].
  change (JSON_stringify (JNum n)) with (JSON.number_to_string n).
  destruct (number_head n) as (c & t & Ht & Hc).
  pose proof (parse_number_to_string n rest Hbound Hrest) as Hparse.
  rewrite Ht in Hparse |- *. cbn [String.append] in Hparse |- *.
  now rewrite parse_value_at_number, Hparse.
Qed.

Lemma reads_back_decimal (negative : bool) (ds : string) (E : Z) :
  reads_back (JDec negative ds E).
Proof.
  intros Hwf rest fuel Hrest Hfuel.
  destruct (wf_dec_inv _ _ _ Hwf) as (Hds & _ & _).
  destruct fuel as [|f]; [lia|].
  change (JSON_stringify (JDec negative ds E))
    with (JSON.decimal_to_string negative ds E).
  destruct (decimal_text_head negative ds E Hds) as (c & t & Ht & Hc).
  pose proof (parse_decimal_to_string negative ds E rest Hwf Hrest) as Hparse.
  rewrite Ht in Hparse |- *. cbn [String.append] in Hparse |- *.
  now rewrite parse_value_at_number, Hparse.
Qed.

Lemma reads_back_string (s : string) : reads_back (JStr s).
Proof.
  intros Hwf rest fuel _ Hfuel. inversion Hwf as [| | | |? Hs| |]; subst.
  destruct fuel as [|f]; [lia|].
  change (JSON_stringify (JStr s)) with (String JSON.dquote (JSON.quote_body s)).
  cbn [String.append].
  change (JSON.parse_value (S f) (String JSON.dquote (JSON.quote_body s +:+ rest)))
    with (match JSON.parse_string_body (JSON.quote_body s +:+ rest) with
          | Some (str, r) => Some (JStr str, r)
          | None => None
          end).
  now rewrite parse_quote_body.
Qed.

Lemma starts_value_number (c : ascii) (t : string) :
  JSON.is_digit c = true \/ c = "-"%char -> starts_value (String c t).
Proof.
  intros [Hc| ->]; [|repeat split; reflexivity].
  unfold JSON.is_digit in Hc. apply andb_true_iff in Hc as [H1 H2].
  apply Z.leb_le in H1, H2. unfold starts_value, JSON.is_ws. cbv zeta.
  repeat split; decide_bytes; reflexivity.
Qed.

Lemma stringify_starts (v : json) :
  wf_json v -> starts_value (JSON_stringify v).
Proof.
  intros Hwf.
  destruct v as [|[]|n|negative ds E|s|l|o]; try (repeat split; reflexivity).
  - change (JSON_stringify (JNum n)) with (JSON.number_to_string n).
    destruct (number_head n) as (c & t & -> & Hc).
    now apply starts_value_number.
  - change (JSON_stringify (JDec negative ds E))
      with (JSON.decimal_to_string negative ds E).
    destruct (wf_dec_inv _ _ _ Hwf) as (Hds & _ & _).
    destruct (decimal_text_head negative ds E Hds) as (c & t & -> & Hc).
    now apply starts_value_number.
Qed.

Lemma starts_value_append (s tail : string) :
  starts_value s -> starts_value (s +:+ tail).
Proof. destruct s; [intros [] | exact (fun H => H)]. Qed.

Lemma parse_value_at_bracket (f : nat) (X : string) :
  starts_value X ->
  JSON.parse_value (S f) (String "[" X)
  = match JSON.parse_elements f X with
    | Some (l, r) => Some (JArr l, r)
    | None => None
    end.
Proof.
  destruct X as [|c t]; [intros []|]. intros (Hws & H93 & _).
  cbn [JSON.parse_value JSON.skip_ws]. rewrite Hws.
  change (JSON.is_ws "[") with false. cbv iota zeta.
  change (byte_of_ascii "[" =? 123) with false.
  change (byte_of_ascii "[" =? 91) with true. cbv iota.
  cbn [JSON.skip_ws]. rewrite Hws, H93. reflexivity.
Qed.

Lemma parse_value_at_brace (f : nat) (X : string) :
  starts_value X ->
  JSON.parse_value (S f) (String "{" X)
  = match JSON.parse_members f [] X with
    | Some (o, r) => Some (JObj o, r)
    | None => None
    end.
Proof.
  destruct X as [|c t]; [intros []|]. intros (Hws & _ & H125).
  cbn [JSON.parse_value JSON.skip_ws]. rewrite Hws.
  change (JSON.is_ws "{") with false. cbv iota zeta.
  change (byte_of_ascii "{" =? 123) with true. cbv iota.
  cbn [JSON.skip_ws]. rewrite Hws, H125. reflexivity.
Qed.

Ltac length_lia :=
  repeat (rewrite ?length_append in *; cbn [String.length List.map] in * );
  lia.

Lemma join_comma_cons2 (a b : string) (l : list string) :
  JSON.join_comma (a :: b :: l) = a +:+ "," +:+ JSON.join_comma (b :: l).
Proof. reflexivity. Qed.

Lemma join_comma_starts (a : string) (l : list string) :
  starts_value a -> starts_value (JSON.join_comma (a :: l)).
Proof.
  intros Ha. destruct l as [|b l]; [exact Ha|].
  rewrite join_comma_cons2. now apply starts_value_append.
Qed.

Lemma parse_elements_text (l : list json) :
  l <> [] ->
  List.Forall reads_back l ->
  List.Forall wf_json l ->
  forall (rest : string) (fuel : nat),
    (2 * String.length
           (JSON.join_comma (List.map JSON_stringify l) +:+ "]" +:+ rest) + 2
     <= fuel)%nat ->
    JSON.parse_elements fuel
      (JSON.join_comma (List.map JSON_stringify l) +:+ "]" +:+ rest)
    = Some (l, rest).
Proof.
  induction l as [|v l IH]; [contradiction|].
  intros _ HP Hwf rest fuel Hfuel.
  apply List.Forall_cons_iff in HP as [Hv HP].
  apply List.Forall_cons_iff in Hwf as [Hwv Hwf].
  destruct fuel as [|f]; [lia|]. destruct l as [|v2 l].
  - cbn [List.map JSON.join_comma] in Hfuel |- *.
    cbn [JSON.parse_elements].
    rewrite (Hv Hwv ("]" +:+ rest) f eq_refl) by lia. reflexivity.
  - cbn [List.map] in Hfuel |- *. rewrite join_comma_cons2 in Hfuel |- *.
    rewrite !append_assoc in Hfuel |- *.
    cbn [JSON.parse_elements].
    rewrite !length_append in Hfuel. cbn [String.length] in Hfuel.
    match goal with
    | |- context [JSON.parse_value f (JSON_stringify v +:+ ?t)] =>
        rewrite (Hv Hwv t f eq_refl)
          by length_lia
    end.
    change ("," +:+ JSON.join_comma (JSON_stringify v2 :: List.map JSON_stringify l)
              +:+ "]" +:+ rest)
      with (String ","
              (JSON.join_comma (List.map JSON_stringify (v2 :: l))
               +:+ "]" +:+ rest)).
    cbn [JSON.skip_ws]. change (JSON.is_ws ",") with false. cbv iota.
    change (byte_of_ascii "," =? 44) with true. cbv iota.
    rewrite (IH ltac:(discriminate) HP Hwf rest f);
      [reflexivity | length_lia].
Qed.

Lemma member_text_unfold (k : string) (x : json) (tail : string) :
  member_text (k, x) +:+ tail
  = String JSON.dquote
      (JSON.quote_body k +:+ String ":" (JSON_stringify x +:+ tail)).
Proof.
  unfold member_text, JSON.quote. cbn [fst snd String.append].
  now rewrite !append_assoc.
Qed.

Lemma parse_members_at_quote (f : nat) (acc : list (string * json))
    (k : string) (x : json) (tail : string) :
  wf_string k ->
  JSON.parse_members (S f) acc (member_text (k, x) +:+ tail)
  = match JSON.parse_value f (JSON_stringify x +:+ tail) with
    | None => None
    | Some (v, rest3) =>
        match JSON.skip_ws rest3 with
        | EmptyString => None
        | String c3 rest4 =>
            if byte_of_ascii c3 =? 44
            then JSON.parse_members f (JSON.obj_set k v acc) rest4
            else if byte_of_ascii c3 =? 125
                 then Some (JSON.obj_set k v acc, rest4)
                 else None
        end
    end.
Proof.
  intros Hk.
  rewrite member_text_unfold. cbn [JSON.parse_members JSON.skip_ws].
  change (JSON.is_ws JSON.dquote) with false. cbv iota.
  change (byte_of_ascii JSON.dquote =? 34) with true. cbv iota.
  rewrite parse_quote_body by exact Hk. cbn [JSON.skip_ws].
  change (JSON.is_ws ":") with false. cbv iota.
  change (byte_of_ascii ":" =? 58) with true. cbv iota.
  reflexivity.
Qed.

Lemma parse_members_text (o : list (string * json)) :
  o <> [] ->
  List.Forall (fun kv => reads_back (snd kv)) o ->
  List.Forall (fun kv => wf_string (fst kv)) o ->
  List.Forall (fun kv => wf_json (snd kv)) o ->
  forall (acc : list (string * json)) (rest : string) (fuel : nat),
    (2 * String.length
           (JSON.join_comma (List.map member_text o) +:+ "}" +:+ rest) + 2
     <= fuel)%nat ->
    JSON.parse_members fuel acc
      (JSON.join_comma (List.map member_text o) +:+ "}" +:+ rest)
    = Some (foldl (fun a kv => JSON.obj_set (fst kv) (snd kv) a) acc o, rest).
Proof.
  induction o as [|[k x] o IH]; [contradiction|].
  intros _ HP Hkeys Hwf acc rest fuel Hfuel.
  apply List.Forall_cons_iff in HP as [Hx HP].
  apply List.Forall_cons_iff in Hkeys as [Hk Hkeys]. cbn [fst] in Hk.
  apply List.Forall_cons_iff in Hwf as [Hwx Hwf]. cbn [snd] in Hx, Hwx.
  destruct fuel as [|f]; [lia|]. destruct o as [|kv2 o].
  - cbn [List.map JSON.join_comma] in Hfuel |- *.
    rewrite parse_members_at_quote by exact Hk.
    rewrite member_text_unfold in Hfuel. cbn [String.length] in Hfuel.
    rewrite !length_append in Hfuel. cbn [String.length] in Hfuel.
    rewrite (Hx Hwx ("}" +:+ rest) f eq_refl);
      [reflexivity
      |length_lia].
  - cbn [List.map] in Hfuel |- *. rewrite join_comma_cons2 in Hfuel |- *.
    rewrite !append_assoc in Hfuel |- *.
    rewrite parse_members_at_quote by exact Hk.
    rewrite member_text_unfold in Hfuel. cbn [String.length] in Hfuel.
    rewrite !length_append in Hfuel. cbn [String.length] in Hfuel.
    match goal with
    | |- context [JSON.parse_value f (JSON_stringify x +:+ ?t)] =>
        rewrite (Hx Hwx t f eq_refl)
          by length_lia
    end.
    change ("," +:+ JSON.join_comma (member_text kv2 :: List.map member_text o)
              +:+ "}" +:+ rest)
      with (String ","
              (JSON.join_comma (List.map member_text (kv2 :: o))
               +:+ "}" +:+ rest)).
    cbn [JSON.skip_ws]. change (JSON.is_ws ",") with false. cbv iota.
    change (byte_of_ascii "," =? 44) with true. cbv iota.
    rewrite (IH ltac:(discriminate) HP Hkeys Hwf (JSON.obj_set k x acc) rest f);
      [reflexivity | length_lia].
Qed.

Lemma stringify_object (o : list (string * json)) :
  JSON_stringify (JObj o)
  = "{" +:+ JSON.join_comma (List.map member_text o) +:+ "}".
Proof.
  unfold JSON_stringify. cbn [JSON.stringify]. do 3 f_equal.
  apply List.map_ext. intros [k x]. reflexivity.
Qed.

Lemma member_text_starts (kv : string * json) : starts_value (member_text kv).
Proof. destruct kv as [k x]. repeat split; reflexivity. Qed.

(** Every well-formed value is read back from its text. *)
Lemma stringify_reads_back (v : json) : reads_back v.
Proof.
  induction v as [|b|n|negative ds E|s|l IH|o IH] using json_ind'.
  - intros _ rest [|f] _ Hf; [lia | reflexivity].
  - intros _ rest [|f] _ Hf; [lia | destruct b; reflexivity].
  - apply reads_back_number.
  - apply reads_back_decimal.
  - apply reads_back_string.
  - intros Hwf rest fuel _ Hfuel. inversion Hwf as [| | | | |? Hall|]; subst.
    destruct fuel as [|f]; [lia|].
    change (JSON_stringify (JArr l))
      with ("[" +:+ JSON.join_comma (List.map JSON_stringify l) +:+ "]")
      in Hfuel |- *.
    rewrite !append_assoc in Hfuel |- *. cbn [String.append] in Hfuel |- *.
    destruct l as [|v l]; [reflexivity|].
    rewrite parse_value_at_bracket.
    + cbn [String.length] in Hfuel.
      pose proof (parse_elements_text (v :: l) ltac:(discriminate) IH Hall rest f)
        as E.
      cbn [String.append] in E. rewrite E; [reflexivity | lia].
    + apply starts_value_append. cbn [List.map].
      apply join_comma_starts, stringify_starts.
      now inversion Hall.
  - intros Hwf rest fuel _ Hfuel.
    inversion Hwf as [| | | | | |? Hc Hkeys Hall]; subst.
    destruct fuel as [|f]; [lia|].
    rewrite stringify_object in Hfuel |- *.
    rewrite !append_assoc in Hfuel |- *. cbn [String.append] in Hfuel |- *.
    destruct o as [|kv o]; [reflexivity|].
    rewrite parse_value_at_brace.
    + cbn [String.length] in Hfuel.
      pose proof (parse_members_text (kv :: o) ltac:(discriminate) IH Hkeys
                    Hall [] rest f) as E.
      cbn [String.append] in E. rewrite E; [|lia].
      rewrite (foldl_obj_set (kv :: o) []); [reflexivity | exact Hc].
    + apply starts_value_append. cbn [List.map].
      apply join_comma_starts, member_text_starts.
Qed.

(** [JSON.parse(JSON.stringify(v))] is [v] for every well-formed [v]. *)
Theorem JSON_parse_stringify (v : json) :
  wf_json v -> JSON.parse (JSON_stringify v) = Some v.
Proof.
  intros Hwf. unfold JSON.parse.
  pose proof (stringify_reads_back v Hwf EmptyString
                (2 * String.length (JSON_stringify v) + 2)%nat eq_refl) as H.
  rewrite append_nil_r in H. rewrite H by lia. reflexivity.
Qed.

(** In particular for every value that [JSON.parse] returned. *)
Corollary JSON_parse_stringify_parsed (text : string) (v : json) :
  JSON.parse text = Some v -> JSON.parse (JSON_stringify v) = Some v.
Proof. intros H. apply JSON_parse_stringify. exact (JSON_parse_wf text v H). Qed.

(** ** Key derivation *)

Lemma prefix_truthy (p s : string) :
  truthy p = true -> String.prefix p s = true -> truthy s = true.
Proof. destruct p, s; simpl; intros; try reflexivity; discriminate. Qed.

Lemma URL_eta (u : URL) :
  mkURL (url_base u) (pathname u +:+ EmptyString) (search u) (fragment u) = u.
Proof.
  destruct u as [b p s f]. cbn [url_base pathname search fragment]. f_equal.
  induction p as [|c p IH]; cbn [String.append]; [reflexivity | now rewrite IH].
Qed.

(** The key of a body that begins with [{], parses to an object and has an
    [id]: the digest is taken of the object with its [id] set to [-1]. *)
Lemma cacheKey_of_object_with_id (request : Request) (b : string)
    (o : list (string * json)) :
  String.prefix "{" b = true ->
  JSON.parse b = Some (JObj o) ->
  JSON.obj_has "id" o = true ->
  cacheKeyForRequestAndBody request b
  = Ok (mkRequest "GET"
          (mkURL (url_base (url request))
                 (pathname (url request)
                  +:+ sha1 (JSON_stringify (JObj (JSON.obj_set "id" (JNum (-1)) o))))
                 (search (url request)) (fragment (url request)))
          (headers request) EmptyString).
Proof.
  intros Hp Hparse Hid. unfold cacheKeyForRequestAndBody, JSON_parse.
  rewrite (prefix_truthy "{" b eq_refl Hp), Hp, Hparse. simpl. rewrite Hid. simpl.
  reflexivity.
Qed.

Lemma prefix_brace_object (o : list (string * json)) :
  String.prefix "{" (JSON_stringify (JObj o)) = true.
Proof.
  rewrite stringify_object. cbn [String.append]. simpl.
  destruct (_ +:+ _); reflexivity.
Qed.

(** The key of a call that the worker re-serialized from an object with an
    [id]. *)
Lemma cacheKey_of_parsed_object (request : Request) (text : string)
    (o : list (string * json)) :
  JSON.parse text = Some (JObj o) ->
  JSON.obj_has "id" o = true ->
  cacheKeyForRequestAndBody request (JSON_stringify (JObj o))
  = Ok (mkRequest "GET"
          (mkURL (url_base (url request))
                 (pathname (url request)
                  +:+ sha1 (JSON_stringify (JObj (JSON.obj_set "id" (JNum (-1)) o))))
                 (search (url request)) (fragment (url request)))
          (headers request) EmptyString).
Proof.
  intros Hparse Hid.
  apply cacheKey_of_object_with_id; [apply prefix_brace_object | | exact Hid].
  exact (JSON_parse_stringify_parsed text _ Hparse).
Qed.

(** Where the code does what line 26 says. For every request and every two
    call bodies that are JSON objects equal but for the value of their
    top-level [id]: [cacheKeyForRequestAndBody] gives both the same key when
    both texts begin with [{], and it gives the same key to the two bodies
    that the worker re-serializes from them (the calls of a payload of type
    [application/json]). The digest is taken of the object with its [id]
    rewritten to [-1]. *)
Theorem cacheKey_ignores_id (request : Request) (b1 b2 : string) :
  same_except_id b1 b2 ->
  (String.prefix "{" b1 = true ->
   String.prefix "{" b2 = true ->
   cacheKeyForRequestAndBody request b1 = cacheKeyForRequestAndBody request b2)
  /\ (forall v1 v2 : json,
         JSON.parse b1 = Some v1 ->
         JSON.parse b2 = Some v2 ->
         cacheKeyForRequestAndBody request (JSON_stringify v1)
         = cacheKeyForRequestAndBody request (JSON_stringify v2))
  /\ exists o : list (string * json),
       JSON.parse b1 = Some (JObj o)
       /\ cacheKeyForRequestAndBody request (JSON_stringify (JObj o))
          = Ok (mkRequest "GET"
                  (mkURL (url_base (url request))
                     (pathname (url request)
                      +:+ sha1 (JSON_stringify
                                  (JObj (JSON.obj_set "id" (JNum (-1)) o))))
                     (search (url request)) (fragment (url request)))
                  (headers request) EmptyString).
Proof.
  intros (o & x & H1 & Hid & H2).
  pose proof (obj_has_set "id" x o Hid) as Hid2.
  split; [|split].
  - intros Hp1 Hp2.
    rewrite (cacheKey_of_object_with_id request b1 o Hp1 H1 Hid).
    rewrite (cacheKey_of_object_with_id request b2 _ Hp2 H2 Hid2).
    now rewrite obj_set_set.
  - intros v1 v2 Hv1 Hv2.
    rewrite H1 in Hv1. injection Hv1 as <-.
    rewrite H2 in Hv2. injection Hv2 as <-.
    rewrite (cacheKey_of_parsed_object request b1 o H1 Hid).
    rewrite (cacheKey_of_parsed_object request b2 _ H2 Hid2).
    now rewrite obj_set_set.
  - exists o. split; [exact H1|].
    exact (cacheKey_of_parsed_object request b1 o H1 Hid).
Qed.

Lemma cacheKey_ignores_id_witness :
  cacheKeyForRequestAndBody
    (example_request "POST" "application/json" "https://dao.daodao.zone" EmptyString)
    (js "{'jsonrpc':'2.0','id':1,'method':'status'}")
  = cacheKeyForRequestAndBody
      (example_request "POST" "application/json" "https://dao.daodao.zone" EmptyString)
      (js "{'jsonrpc':'2.0','id':77,'method':'status'}").
Proof.
  refine (proj1 (cacheKey_ignores_id _ _ _ _) _ _).
  - exists [("jsonrpc", JStr "2.0"); ("id", JNum 1); ("method", JStr "status")],
      (JNum 77).
    vm_compute. repeat split.
  - vm_compute. reflexivity.
  - vm_compute. reflexivity.
Defined.

(** The key of a body that does not begin with [{]: the digest is taken of
    the text as it came. *)
Lemma cacheKey_of_raw_text (request : Request) (b : string) :
  truthy b = true ->
  String.prefix "{" b = false ->
  cacheKeyForRequestAndBody request b
  = Ok (mkRequest "GET"
          (mkURL (url_base (url request)) (pathname (url request) +:+ sha1 b)
                 (search (url request)) (fragment (url request)))
          (headers request) EmptyString).
Proof.
  intros Hb Hp. unfold cacheKeyForRequestAndBody. rewrite Hp, andb_false_r.
  cbn [rbind]. now rewrite Hb.
Qed.

Lemma parsed_text_truthy (b : string) (v : json) :
  JSON.parse b = Some v -> truthy b = true.
Proof. destruct b; [discriminate | reflexivity]. Qed.

Lemma append_inj_l (p s1 s2 : string) : p +:+ s1 = p +:+ s2 -> s1 = s2.
Proof.
  induction p as [|c p IH]; cbn [String.append]; intros H; [exact H|].
  injection H as H. exact (IH H).
Qed.

(** C1, at the input where the code departs from it. Line 26 says that the
    [id] of a body that is a JSON object is set to [-1]; line 27 tests
    instead whether the text begins with [{]. A body that is a JSON object
    with an [id] but begins with another character (white space, which JSON
    allows before a value) is not parsed: the digest is taken of the text as
    it came, its [id] included. Two such bodies that differ in their [id]
    alone therefore get different keys, unless their digests collide. *)
Theorem cacheKey_keeps_id_without_leading_brace (request : Request)
    (b1 b2 : string) :
  same_except_id b1 b2 ->
  String.prefix "{" b1 = false ->
  String.prefix "{" b2 = false ->
  cacheKeyForRequestAndBody request b1
  = Ok (mkRequest "GET"
          (mkURL (url_base (url request)) (pathname (url request) +:+ sha1 b1)
                 (search (url request)) (fragment (url request)))
          (headers request) EmptyString)
  /\ cacheKeyForRequestAndBody request b2
     = Ok (mkRequest "GET"
             (mkURL (url_base (url request)) (pathname (url request) +:+ sha1 b2)
                    (search (url request)) (fragment (url request)))
             (headers request) EmptyString)
  /\ (sha1 b1 <> sha1 b2 ->
      cacheKeyForRequestAndBody request b1
      <> cacheKeyForRequestAndBody request b2).
Proof.
  intros (o & x & H1 & _ & H2) Hp1 Hp2.
  pose proof (cacheKey_of_raw_text request b1 (parsed_text_truthy _ _ H1) Hp1)
    as Hk1.
  pose proof (cacheKey_of_raw_text request b2 (parsed_text_truthy _ _ H2) Hp2)
    as Hk2.
  split; [exact Hk1 | split; [exact Hk2|]].
  intros Hne Heq. rewrite Hk1, Hk2 in Heq. injection Heq as Heq.
  exact (Hne (append_inj_l _ _ _ Heq)).
Qed.

Lemma cacheKey_keeps_id_without_leading_brace_witness :
  cacheKeyForRequestAndBody
    (example_request "POST" "text/plain" EmptyString EmptyString)
    (js " {'id':1,'method':'status'}")
  <> cacheKeyForRequestAndBody
       (example_request "POST" "text/plain" EmptyString EmptyString)
       (js " {'id':2,'method':'status'}").
Proof.
  refine (proj2 (proj2 (cacheKey_keeps_id_without_leading_brace
                          (example_request "POST" "text/plain" EmptyString
                                           EmptyString)
                          (js " {'id':1,'method':'status'}")
                          (js " {'id':2,'method':'status'}") _ _ _)) _).
  - exists [("id", JNum 1); ("method", JStr "status")], (JNum 2).
    vm_compute. repeat split.
  - reflexivity.
  - reflexivity.
  - vm_compute. discriminate.
Defined.

(** C1 as stated fails: two bodies that are the same JSON object but for the
    [id], written with a leading space, get different keys, for the test of
    line 27 is on the first character of the text. *)
Lemma cacheKey_leading_space_counterexample :
  ~ (forall (request : Request) (b1 b2 : string),
        same_except_id b1 b2 ->
        cacheKeyForRequestAndBody request b1 = cacheKeyForRequestAndBody request b2).
Proof.
  intros H.
  specialize (H (example_request "POST" "text/plain" EmptyString EmptyString)
                (js " {'id':1,'method':'status'}")
                (js " {'id':2,'method':'status'}")).
  assert (Hsame : same_except_id (js " {'id':1,'method':'status'}")
                                 (js " {'id':2,'method':'status'}")).
  { exists [("id", JNum 1); ("method", JStr "status")], (JNum 2).
    vm_compute. repeat split. }
  apply H in Hsame. vm_compute in Hsame. discriminate Hsame.
Qed.

(** The shape of every key: the URL of the request with a digest, or nothing,
    appended to its path. *)
Lemma cacheKey_shape (request : Request) (b : string) (k : Request) :
  cacheKeyForRequestAndBody request b = Ok k ->
  exists b' : string,
    (truthy b = true -> truthy b' = true)
    /\ k = mkRequest "GET"
             (mkURL (url_base (url request))
                    (pathname (url request)
                     +:+ (if truthy b' then sha1 b' else EmptyString))
                    (search (url request)) (fragment (url request)))
             (headers request) EmptyString.
Proof.
  unfold cacheKeyForRequestAndBody. intros H.
  destruct (truthy b && String.prefix "{" b) eqn:Hguard.
  - unfold JSON_parse in H. destruct (JSON.parse b) as [v|]; [|discriminate H].
    simpl in H. destruct v as [| | | | |elems|o]; try discriminate H.
    + simpl in H. exists b. split; [auto | congruence].
    + destruct (JSON.obj_has "id" o).
      * exists (JSON_stringify (JObj (JSON.obj_set "id" (JNum (-1)) o))).
        split; [intros _; reflexivity|].
        simpl in H. injection H as <-. reflexivity.
      * simpl in H. exists b. split; [auto | congruence].
  - simpl in H. exists b. split; [auto | congruence].
Qed.

(** C7 (as amended). For a request with an empty body no digest is appended:
    the key is the URL of the request itself, with method [GET]. Among the
    calls of one request that key is the body-less call's own: whatever
    non-empty body goes with the same request, its key is never that URL. *)
Theorem cacheKey_empty_body (request : Request) :
  cacheKeyForRequestAndBody request EmptyString
  = Ok (mkRequest "GET" (url request) (headers request) EmptyString)
  /\ forall (b : string) (k : Request),
       truthy b = true ->
       cacheKeyForRequestAndBody request b = Ok k ->
       URL_toString (url k) <> URL_toString (url request).
Proof.
  split.
  - unfold cacheKeyForRequestAndBody. simpl. now rewrite URL_eta.
  - intros b k Hb Hk. apply cacheKey_shape in Hk as (b' & Hb' & ->).
    rewrite (Hb' Hb). intros Heq. apply (f_equal String.length) in Heq.
    unfold URL_toString in Heq. simpl in Heq.
    rewrite !length_append, sha1_length in Heq. lia.
Qed.

Lemma cacheKey_empty_body_witness :
  URL_toString
    (url (mkRequest "GET"
            (mkURL "https://rpc.example"
                   ("/" +:+ sha1 (js "{'id':-1,'method':'status'}"))
                   EmptyString EmptyString)
            [("content-type", "application/json"); ("origin", EmptyString)]
            EmptyString))
  <> URL_toString
       (url (example_request "POST" "application/json" EmptyString EmptyString)).
Proof.
  refine (proj2 (cacheKey_empty_body
                   (example_request "POST" "application/json" EmptyString EmptyString))
                (js "{'id':1,'method':'status'}") _ _ _).
  - vm_compute. reflexivity.
  - vm_compute. reflexivity.
Defined.

(** C7 as stated fails: the key of an empty body is the bare URL, not the
    path followed by the digest of the empty string. *)
Lemma cacheKey_empty_body_counterexample :
  ~ (forall request : Request,
        exists k : Request,
          cacheKeyForRequestAndBody request EmptyString = Ok k
          /\ pathname (url k) = pathname (url request) +:+ sha1 EmptyString
          /\ URL_toString (url k) <> URL_toString (url request)).
Proof.
  intros H.
  destruct (H (example_request "GET" EmptyString EmptyString EmptyString))
    as (k & Hk & Hpath & _).
  vm_compute in Hk. injection Hk as <-. vm_compute in Hpath. discriminate Hpath.
Qed.


(** ** Cache lookup *)

(** What the callback of lines 79-92 returns, in terms of what
    [cache.match] found under the key. *)
Lemma lookup_spec (c : Cache) (request : Request) (b : string) (i : nat)
    (key : Request) :
  cacheKeyForRequestAndBody request b = Ok key ->
  lookup c request b i
  = Ok (mkEntry b i (Response_text <$> cache_match c key)
          (match cache_match c key with
           | Some found => truthy (Response_text found)
           | None => false
           end)).
Proof.
  intros Hk. unfold lookup. rewrite Hk. simpl.
  destruct (cache_match c key); reflexivity.
Qed.

(** C6 (as amended). A call counts as a cache hit exactly when the lookup
    finds a response whose body text is not empty. A response that is present
    with an empty body is classified as a miss ([cached] is false), like an
    absent one; its empty text is kept in [response]. *)
Theorem lookup_classification (c : Cache) (request : Request) (b : string)
    (i : nat) (key : Request) :
  cacheKeyForRequestAndBody request b = Ok key ->
  (forall found : Response,
      cache_match c key = Some found ->
      Response_text found = EmptyString ->
      lookup c request b i = Ok (mkEntry b i (Some EmptyString) false))
  /\ (forall found : Response,
         cache_match c key = Some found ->
         Response_text found <> EmptyString ->
         lookup c request b i = Ok (mkEntry b i (Some (Response_text found)) true))
  /\ (cache_match c key = None ->
      lookup c request b i = Ok (mkEntry b i None false)).
Proof.
  intros Hk. rewrite (lookup_spec c request b i key Hk).
  repeat split.
  - intros found Hf Ht. rewrite Hf. simpl. rewrite Ht. reflexivity.
  - intros found Hf Hne. rewrite Hf. simpl. f_equal. f_equal.
    destruct (Response_text found); [congruence | reflexivity].
  - intros ->. reflexivity.
Qed.

Lemma lookup_classification_witness :
  lookup cache_with_empty_body
         (example_request "POST" "application/json" EmptyString EmptyString)
         status_call 0
  = Ok (mkEntry status_call 0 (Some EmptyString) false).
Proof.
  refine (proj1 (lookup_classification cache_with_empty_body
                   (example_request "POST" "application/json" EmptyString EmptyString)
                   status_call 0
                   (mkRequest "GET"
                      (mkURL "https://rpc.example"
                             ("/" +:+ sha1 (js "{'id':-1,'method':'status'}"))
                             EmptyString EmptyString)
                      [("content-type", "application/json"); ("origin", EmptyString)]
                      EmptyString) _)
                (mkResponse 200 [] (Some EmptyString)) _ _).
  - vm_compute. reflexivity.
  - vm_compute. reflexivity.
  - reflexivity.
Defined.

(** C6 as stated fails: a response that is present with an empty body is not
    classified as a hit. *)
Lemma lookup_empty_body_counterexample :
  ~ (forall (c : Cache) (request : Request) (b : string) (i : nat)
            (key : Request) (found : Response),
        cacheKeyForRequestAndBody request b = Ok key ->
        cache_match c key = Some found ->
        r_body found = Some EmptyString ->
        exists e : Entry, lookup c request b i = Ok e /\ cached e = true).
Proof.
  intros H.
  destruct (H cache_with_empty_body
              (example_request "POST" "application/json" EmptyString EmptyString)
              status_call 0%nat
              (mkRequest "GET"
                 (mkURL "https://rpc.example"
                    ("/" +:+ sha1 (js "{'id':-1,'method':'status'}"))
                    EmptyString EmptyString)
                 [("content-type", "application/json"); ("origin", EmptyString)]
                 EmptyString)
              (mkResponse 200 [] (Some EmptyString)))
    as (e & He & Hc).
  - vm_compute. reflexivity.
  - vm_compute. reflexivity.
  - reflexivity.
  - vm_compute in He. injection He as <-. discriminate Hc.
Qed.

(** ** The patterns of the allow-list *)

Lemma append_empty_inv (s1 s2 : string) :
  s1 +:+ s2 = EmptyString -> s1 = EmptyString /\ s2 = EmptyString.
Proof. destruct s1; simpl; intros H; [auto | discriminate H]. Qed.

Lemma nullable_complete (r : regex) (s : string) :
  matches r s -> s = EmptyString -> nullable r = true.
Proof.
  induction 1 as [ | | |r1 r2 s1 s2 _ IH1 _ IH2| | | | ]; intros Hs; simpl;
    try discriminate Hs; try reflexivity.
  - apply append_empty_inv in Hs as [-> ->]. now rewrite IH1, IH2.
  - now rewrite IHmatches.
  - rewrite IHmatches by assumption. apply orb_true_r.
Qed.

Lemma nullable_sound (r : regex) : nullable r = true -> matches r EmptyString.
Proof.
  induction r as [ | | | |r1 IH1 r2 IH2|r1 IH1 r2 IH2|r IH]; simpl; intros H;
    try discriminate H.
  - constructor.
  - apply andb_true_iff in H as [H1 H2].
    change EmptyString with (EmptyString +:+ EmptyString). constructor; auto.
  - apply orb_true_iff in H as [H|H]; [apply MAltL | apply MAltR]; auto.
  - constructor.
Qed.

Lemma deriv_complete (r : regex) (w : string) :
  matches r w ->
  forall (c : ascii) (s : string), w = String c s -> matches (deriv c r) s.
Proof.
  induction 1 as [ |c'|c' Hd|r1 r2 s1 s2 H1 IH1 H2 IH2|r1 r2 s0 H1 IH1
                  |r1 r2 s0 H2 IH2| |r s1 s2 H1 IH1 H2 IH2];
    intros c s Hw; simpl; try discriminate Hw.
  - injection Hw as <- <-. rewrite Ascii.eqb_refl. constructor.
  - injection Hw as <- <-. rewrite Hd. constructor.
  - destruct s1 as [|a s1'].
    + simpl in Hw. rewrite (nullable_complete r1 EmptyString H1 eq_refl).
      apply MAltR. now apply IH2.
    + simpl in Hw. injection Hw as -> <-.
      assert (matches (Seq (deriv c r1) r2) (s1' +:+ s2))
        by (constructor; [now apply IH1 | assumption]).
      destruct (nullable r1); [now apply MAltL | assumption].
  - apply MAltL. now apply IH1.
  - apply MAltR. now apply IH2.
  - destruct s1 as [|a s1'].
    + simpl in Hw. now apply IH2.
    + simpl in Hw. injection Hw as -> <-.
      constructor; [now apply IH1 | assumption].
Qed.

Lemma deriv_sound (c : ascii) (r : regex) :
  forall s : string, matches (deriv c r) s -> matches r (String c s).
Proof.
  induction r as [ | |c'| |r1 IH1 r2 IH2|r1 IH1 r2 IH2|r IH]; simpl; intros s H.
  - inversion H.
  - inversion H.
  - destruct (Ascii.eqb_spec c c') as [->|]; inversion H. constructor.
  - destruct (dot_matches c) eqn:Hd; inversion H. now constructor.
  - assert (Hseq : forall t, matches (Seq (deriv c r1) r2) t ->
                             matches (Seq r1 r2) (String c t)).
    { intros t Ht. inversion Ht as [ | | |? ? t1 t2 Ha Hb| | | | ]; subst.
      change (String c (t1 +:+ t2)) with (String c t1 +:+ t2).
      constructor; auto. }
    destruct (nullable r1) eqn:Hn; [|now apply Hseq].
    inversion H as [ | | | |? ? ? Ha|? ? ? Hb| | ]; subst; [now apply Hseq|].
    change (String c s) with (EmptyString +:+ String c s).
    constructor; [now apply nullable_sound | now apply IH2].
  - inversion H; subst; [apply MAltL | apply MAltR]; auto.
  - inversion H as [ | | |? ? t1 t2 Ha Hb| | | | ]; subst.
    change (String c (t1 +:+ t2)) with (String c t1 +:+ t2).
    constructor; auto.
Qed.

(** [match_here] finds exactly the prefixes that the pattern denotes. *)
Lemma match_here_spec (s : string) :
  forall r : regex,
    match_here r s = true
    <-> exists w q : string, s = w +:+ q /\ matches r w.
Proof.
  induction s as [|c s IH]; intros r; simpl.
  - rewrite orb_false_r. split.
    + intros H. exists EmptyString, EmptyString. auto using nullable_sound.
    + intros (w & q & Hs & Hw). symmetry in Hs.
      apply append_empty_inv in Hs as [-> ->].
      now apply (nullable_complete r EmptyString).
  - rewrite orb_true_iff, IH. split.
    + intros [Hn|(w & q & -> & Hw)].
      * exists EmptyString, (String c s). auto using nullable_sound.
      * exists (String c w), q. auto using deriv_sound.
    + intros (w & q & Hs & Hw). destruct w as [|a w].
      * left. now apply (nullable_complete r EmptyString).
      * simpl in Hs. injection Hs as <- ->. right. exists w, q.
        split; [reflexivity | now apply (deriv_complete r (String c w))].
Qed.

(** [test] without anchors: some substring is denoted by the pattern. *)
Lemma test_spec (r : regex) (s : string) :
  test r s = true
  <-> exists p w q : string, s = p +:+ w +:+ q /\ matches r w.
Proof.
  induction s as [|c s IH]; cbn [test].
  - rewrite orb_false_r, (match_here_spec EmptyString). split.
    + intros (w & q & Hs & Hw). exists EmptyString, w, q. auto.
    + intros (p & w & q & Hs & Hw). symmetry in Hs.
      apply append_empty_inv in Hs as [-> Hs].
      apply append_empty_inv in Hs as [-> ->].
      exists EmptyString, EmptyString. auto.
  - rewrite orb_true_iff, (match_here_spec (String c s)), IH. split.
    + intros [(w & q & Hs & Hw)|(p & w & q & -> & Hw)].
      * exists EmptyString, w, q. auto.
      * exists (String c p), w, q. auto.
    + intros (p & w & q & Hs & Hw). destruct p as [|a p].
      * left. exists w, q. auto.
      * simpl in Hs. injection Hs as <- ->. right. exists p, w, q. auto.
Qed.

Lemma matches_Lit (s : string) : matches (Lit s) s.
Proof.
  induction s as [|c s IH]; simpl; [constructor|].
  change (String c s) with (String c EmptyString +:+ s).
  constructor; [constructor | assumption].
Qed.

(** Any text that contains [daodao.zone] passes the allow-list test. *)
Lemma origin_allowed_substring (pre post : string) :
  origin_allowed (pre +:+ "daodao.zone" +:+ post) = true.
Proof.
  unfold origin_allowed, ALLOWED_ORIGINS. cbn [existsb].
  apply orb_true_iff. right. apply orb_true_iff. left.
  apply test_spec. exists pre, "daodao.zone", post. split; [reflexivity|].
  change "daodao.zone" with (EmptyString +:+ "daodao.zone") at 2.
  constructor; [apply MAltR; constructor | apply (matches_Lit "daodao.zone")].
Qed.

(** ** The stages of the [GET]/[POST] branch *)

Lemma mapM_spec {A B : Type} (f : A -> result B) (l : list A) :
  forall l' : list B,
    mapM f l = Ok l' ->
    length l' = length l
    /\ forall (j : nat) (a : A),
         l !! j = Some a -> exists b : B, l' !! j = Some b /\ f a = Ok b.
Proof.
  induction l as [|a l IH]; simpl; intros l' H.
  - injection H as <-. split; [reflexivity|]. intros j a' Hj. discriminate Hj.
  - destruct (f a) as [b|] eqn:Hfa; [|discriminate H]. simpl in H.
    destruct (mapM f l) as [bs|]; [|discriminate H]. simpl in H.
    injection H as <-. destruct (IH bs eq_refl) as [Hlen Hall].
    split; [simpl; now rewrite Hlen|].
    intros [|j] a' Hj; simpl in Hj.
    + injection Hj as <-. exists b. auto.
    + apply Hall in Hj. exact Hj.
Qed.

Lemma mapM_indexed_spec {A B : Type} (f : A -> nat -> result B) (l : list A) :
  forall (i : nat) (l' : list B),
    mapM_indexed f i l = Ok l' ->
    length l' = length l
    /\ forall (j : nat) (a : A),
         l !! j = Some a -> exists b : B, l' !! j = Some b /\ f a (i + j)%nat = Ok b.
Proof.
  induction l as [|a l IH]; simpl; intros i l' H.
  - injection H as <-. split; [reflexivity|]. intros j a' Hj. discriminate Hj.
  - destruct (f a i) as [b|] eqn:Hfa; [|discriminate H]. simpl in H.
    destruct (mapM_indexed f (S i) l) as [bs|] eqn:Hrest; [|discriminate H].
    simpl in H. injection H as <-. destruct (IH (S i) bs Hrest) as [Hlen Hall].
    split; [simpl; now rewrite Hlen|].
    intros [|j] a' Hj; simpl in Hj.
    + injection Hj as <-. exists b. rewrite Nat.add_0_r. auto.
    + apply Hall in Hj as (b' & Hb' & Hf). exists b'.
      replace (i + S j)%nat with (S i + j)%nat by lia. auto.
Qed.

Lemma lookup_inv (c : Cache) (request : Request) (b : string) (i : nat)
    (e : Entry) :
  lookup c request b i = Ok e ->
  body e = b /\ index e = i
  /\ exists key : Request,
       cacheKeyForRequestAndBody request b = Ok key
       /\ response e = Response_text <$> cache_match c key
       /\ cached e = truthy (default EmptyString (response e)).
Proof.
  unfold lookup. intros H.
  destruct (cacheKeyForRequestAndBody request b) as [key|]; [|discriminate H].
  simpl in H. injection H as <-. simpl. eauto 6.
Qed.

(** After lines 78-93 entry [j] is the lookup of body [j]. *)
Lemma bodiesWithResponses_spec (c : Cache) (request : Request)
    (bodies : list string) (bws : list Entry) :
  bodiesWithResponses_of c request bodies = Ok bws ->
  length bws = length bodies
  /\ forall (j : nat) (e : Entry),
       bws !! j = Some e ->
       index e = j /\ bodies !! j = Some (body e)
       /\ lookup c request (body e) j = Ok e.
Proof.
  intros H. apply mapM_indexed_spec in H as [Hlen Hall].
  split; [exact Hlen|]. intros j e Hj.
  assert (Hlt : (j < length bodies)%nat)
    by (rewrite <- Hlen; now apply lookup_lt_Some in Hj).
  apply lookup_lt_is_Some in Hlt as [b Hb].
  destruct (Hall j b Hb) as (e' & He' & Hlook).
  rewrite Hj in He'. injection He' as <-. simpl in Hlook.
  destruct (lookup_inv _ _ _ _ _ Hlook) as (Hbody & Hidx & _).
  rewrite Hbody. auto.
Qed.

Lemma backfilled_length (rs : list json) (bws : list Entry) :
  forall k : nat, length (backfilled rs k bws) = length bws.
Proof.
  induction bws as [|b bws IH]; intros k; simpl; [reflexivity|].
  destruct (cached b); simpl; now rewrite IH.
Qed.

(** Writing the fetched results back changes no [cached] flag, no [index]
    and no [body]. *)
Lemma backfilled_cached (rs : list json) (bws : list Entry) :
  forall k : nat, cached <$> backfilled rs k bws = cached <$> bws.
Proof.
  induction bws as [|b bws IH]; intros k; simpl; [reflexivity|].
  destruct (cached b) eqn:Hc; simpl; now rewrite IH, ?Hc.
Qed.

Lemma backfilled_lookup (rs : list json) (bws : list Entry) :
  forall (k j : nat) (e : Entry),
    backfilled rs k bws !! j = Some e ->
    exists e0 : Entry,
      bws !! j = Some e0 /\ body e = body e0 /\ index e = index e0
      /\ cached e = cached e0
      /\ (cached e0 = true -> e = e0).
Proof.
  induction bws as [|b bws IH]; intros k j e H; simpl in H; [discriminate H|].
  destruct (cached b) eqn:Hc; destruct j as [|j]; simpl in H.
  - injection H as <-. exists b. auto 6.
  - apply IH in H. exact H.
  - injection H as <-. exists b. simpl. repeat split; auto. congruence.
  - apply IH in H. exact H.
Qed.

Lemma insert_middle {A : Type} (l1 l2 : list A) (x y : A) :
  <[length l1 := y]> (l1 ++ x :: l2)%list = (l1 ++ y :: l2)%list.
Proof.
  rewrite insert_app_r_alt by lia. now rewrite Nat.sub_diag.
Qed.

(** Lines 134-153 compute [backfilled]: with the entries before [suf]
    already done, the callbacks over the misses of [suf] finish the job, and
    they send nothing to the origin. *)
Lemma store_all_spec (request : Request) (ur : Response) (rs : list json)
    (suf : list Entry) :
  forall (pre : list Entry) (k : nat) (w : World),
    (forall (j : nat) (e : Entry),
        suf !! j = Some e -> index e = (length pre + j)%nat) ->
    (forall e : Entry,
        In e suf -> exists key, cacheKeyForRequestAndBody request (body e) = Ok key) ->
    exists w' : World,
      store_all request ur rs (uncachedBodies_of suf) k (pre ++ suf)%list w
      = (Ok (pre ++ backfilled rs k suf)%list, w')
      /\ origin_calls w' = origin_calls w.
Proof.
  induction suf as [|b suf IH]; intros pre k w Hidx Hkey.
  - simpl. exists w. auto.
  - assert (Hidx' : forall (j : nat) (e : Entry),
               suf !! j = Some e -> index e = (length (pre ++ [b]) + j)%nat).
    { intros j e Hj. rewrite length_app. simpl.
      rewrite (Hidx (S j) e Hj). lia. }
    assert (Hkey' : forall e : Entry,
               In e suf -> exists key,
                 cacheKeyForRequestAndBody request (body e) = Ok key)
      by (intros e He; apply Hkey; now right).
    unfold uncachedBodies_of. simpl. destruct (cached b) eqn:Hc; simpl.
    + destruct (IH (pre ++ [b])%list k w Hidx' Hkey') as (w' & Hrun & Hcalls).
      rewrite <- !app_assoc in Hrun. simpl in Hrun. exists w'. auto.
    + destruct (Hkey b (or_introl eq_refl)) as [key Hk].
      pose proof (Hidx 0%nat b eq_refl) as Hb. rewrite Nat.add_0_r in Hb.
      destruct b as [bb bi br bc]. simpl in Hc, Hb, Hk. subst bc bi.
      unfold mbind' at 1. unfold store. cbn [body index cached]. rewrite Hk.
      unfold mbind', pure, cache_put. cbn [fst snd].
      rewrite list_lookup_middle by reflexivity.
      rewrite insert_middle. cbn [body index cached].
      match goal with
      | |- context [store_all _ _ _ _ _ (pre ++ ?e' :: suf)%list ?w1] =>
          destruct (IH (pre ++ [e'])%list (S k) w1) as (w' & Hrun & Hcalls)
      end.
      * intros j e Hj. rewrite length_app. simpl.
        rewrite (Hidx (S j) e Hj). lia.
      * exact Hkey'.
      * rewrite <- !app_assoc in Hrun. simpl in Hrun.
        exists w'. split; [exact Hrun | exact Hcalls].
Qed.

(** Lines 100-118, when more than one call is uncached: one request with
    the array of the parsed bodies, and the checks on what comes back. *)
Lemma dispatch_batch (origin_fetch : Request -> result Response)
    (request : Request) (ub : list Entry) (parsed : list json) (w : World) :
  (1 < length ub)%nat ->
  mapM (fun b => JSON_parse (body b)) ub = Ok parsed ->
  let req := Request_with_body request (Some (JSON_stringify (JArr parsed))) in
  dispatch origin_fetch request ub w
  = (match origin_fetch req with
     | Throw e => Throw e
     | Ok ur =>
         match Response_json ur with
         | Throw e => Throw e
         | Ok (JArr rs) =>
             if (length ub =? length rs)%nat then Ok (Fetched ur rs)
             else Throw count_mismatch
         | Ok _ => Throw not_an_array
         end
     end, sent req w).
Proof.
  intros Hlen Hparsed req. unfold dispatch.
  apply Nat.ltb_lt in Hlen. rewrite Hlen, Hparsed.
  unfold mbind', pure, await_fetch. fold req. fold (sent req w).
  destruct (origin_fetch req) as [ur|e]; [|reflexivity].
  destruct (Response_json ur) as [v|e]; [|reflexivity].
  destruct v; try reflexivity.
  destruct (length ub =? length elems)%nat; reflexivity.
Qed.

(** Lines 119-131, when exactly one call is uncached: the request carries
    that call's body. *)
Lemma dispatch_single (origin_fetch : Request -> result Response)
    (request : Request) (b : Entry) (w : World) :
  let req := Request_with_body request
               (if truthy (body b) then Some (body b) else None) in
  dispatch origin_fetch request [b] w
  = (match origin_fetch req with
     | Throw e => Throw e
     | Ok ur =>
         if decide (Headers_get "content-type" (r_headers ur) = Some "text/html")
         then Ok (ReturnVerbatim ur)
         else match Response_json ur with
              | Throw e => Throw e
              | Ok r => Ok (Fetched ur [r])
              end
     end, sent req w).
Proof.
  intros req. unfold dispatch. cbn [length Nat.ltb Nat.leb].
  unfold mbind', pure, await_fetch. fold req. fold (sent req w).
  destruct (origin_fetch req) as [ur|e]; [|reflexivity].
  destruct (decide _); [reflexivity|].
  destruct (Response_json ur); reflexivity.
Qed.

(** The dispatcher writes nothing to the cache. *)
Lemma dispatch_cache (origin_fetch : Request -> result Response)
    (request : Request) (ub : list Entry) (w : World) :
  cache (snd (dispatch origin_fetch request ub w)) = cache w
  /\ cache_puts (snd (dispatch origin_fetch request ub w)) = cache_puts w.
Proof.
  unfold dispatch. destruct (1 <? length ub)%nat.
  - unfold mbind', pure, await_fetch.
    destruct (mapM _ ub) as [parsed|e]; [|auto].
    destruct (origin_fetch _) as [ur|e]; [|auto].
    destruct (Response_json ur) as [v|e]; [|auto].
    destruct v; auto. destruct (negb _); auto.
  - destruct ub as [|b ub]; [auto|].
    unfold mbind', pure, await_fetch.
    destruct (origin_fetch _) as [ur|e]; [|auto].
    destruct (decide _); [auto|].
    destruct (Response_json ur); auto.
Qed.

Lemma handle_rpc_unfold (origin_fetch : Request -> result Response)
    (request : Request) (origin : string) (w : World) :
  handle_rpc origin_fetch request origin w
  = match resolve origin_fetch request w with
    | (Ok (inl uncachedResponse), w') => (Ok uncachedResponse, w')
    | (Ok (inr entries), w') => (final_response origin entries, w')
    | (Throw e, w') => (Throw e, w')
    end.
Proof.
  unfold handle_rpc, mbind', pure.
  destruct (resolve origin_fetch request w) as [[[r|entries]|e] w']; reflexivity.
Qed.

(** For [GET] and [POST] the handler always resolves: with the response of
    the branch, or with the text built in the [catch] block. *)
Lemma fetch_rpc (origin_fetch : Request -> result Response)
    (request : Request) (w : World) :
  rpc_method request = true ->
  fetch origin_fetch request w
  = match handle_rpc origin_fetch request (origin_of request) w with
    | (Ok r, w') => (Resolved r, w')
    | (Throw e, w') => (Resolved (error_response e), w')
    end.
Proof.
  unfold rpc_method. intros Hm. unfold fetch, try_block. rewrite Hm.
  unfold mbind', pure.
  destruct (handle_rpc origin_fetch request (origin_of request) w) as [[r|e] w'];
    reflexivity.
Qed.

(** What [resolve] does, stage by stage. *)
Lemma resolve_unfold (origin_fetch : Request -> result Response)
    (request : Request) (w : World) (bodies : list string) (bws : list Entry) :
  bodies_of request = Ok bodies ->
  bodiesWithResponses_of (cache w) request bodies = Ok bws ->
  resolve origin_fetch request w
  = if (0 <? length (uncachedBodies_of bws))%nat then
      match dispatch origin_fetch request (uncachedBodies_of bws) w with
      | (Ok (ReturnVerbatim ur), w1) => (Ok (inl ur), w1)
      | (Ok (Fetched ur rs), w1) =>
          match store_all request ur rs (uncachedBodies_of bws) 0 bws w1 with
          | (Ok updated, w2) => (Ok (inr updated), w2)
          | (Throw e, w2) => (Throw e, w2)
          end
      | (Throw e, w1) => (Throw e, w1)
      end
    else (Ok (inr bws), w).
Proof.
  intros Hb Hl. unfold resolve. rewrite Hb. unfold mbind' at 1. unfold pure at 1.
  rewrite Hl. unfold mbind' at 1. unfold pure at 1.
  destruct (0 <? length (uncachedBodies_of bws))%nat; [|reflexivity].
  unfold mbind' at 1.
  destruct (dispatch origin_fetch request (uncachedBodies_of bws) w)
    as [[[ur|ur rs]|e] w1]; reflexivity.
Qed.

(** ** The dispatcher *)

(** With more than one miss, a request reaches the origin only when every
    dispatched body parses, and it carries the array of the parsed bodies. *)
Lemma dispatch_batch_call (origin_fetch : Request -> result Response)
    (request : Request) (ub : list Entry) (w : World) (req : Request) :
  (1 < length ub)%nat ->
  origin_calls (snd (dispatch origin_fetch request ub w))
  = (origin_calls w ++ [req])%list ->
  exists parsed : list json,
    mapM (fun b => JSON_parse (body b)) ub = Ok parsed
    /\ req = Request_with_body request (Some (JSON_stringify (JArr parsed))).
Proof.
  intros Hlen Hcall.
  destruct (mapM (fun b => JSON_parse (body b)) ub) as [parsed|e] eqn:Hparsed.
  - rewrite (dispatch_batch _ _ _ parsed w Hlen Hparsed) in Hcall.
    cbn [snd sent origin_calls] in Hcall.
    apply app_inv_head in Hcall. injection Hcall as <-. eauto.
  - unfold dispatch in Hcall. apply Nat.ltb_lt in Hlen.
    rewrite Hlen, Hparsed in Hcall. cbn [mbind' pure snd] in Hcall.
    apply (f_equal length) in Hcall. rewrite length_app in Hcall.
    simpl in Hcall. lia.
Qed.

(** C3. When more than one call is uncached and the origin answers the
    request the dispatcher sent, the dispatcher parses the body of that
    response as JSON; it throws if the value is not an array, and it throws
    if the array has not as many elements as calls were dispatched. In both
    cases it yields no results; results are yielded only for an array of the
    right length. *)
Theorem dispatch_validates_batch (origin_fetch : Request -> result Response)
    (request : Request) (ub : list Entry) (req : Request) (ur : Response)
    (v : json) (w : World) :
  (1 < length ub)%nat ->
  origin_calls (snd (dispatch origin_fetch request ub w))
  = (origin_calls w ++ [req])%list ->
  origin_fetch req = Ok ur ->
  JSON.parse (Response_text ur) = Some v ->
  ((forall rs : list json, v <> JArr rs) ->
   fst (dispatch origin_fetch request ub w) = Throw not_an_array)
  /\ (forall rs : list json,
         v = JArr rs -> length rs <> length ub ->
         fst (dispatch origin_fetch request ub w) = Throw count_mismatch)
  /\ (forall rs : list json,
         v = JArr rs -> length rs = length ub ->
         fst (dispatch origin_fetch request ub w) = Ok (Fetched ur rs)).
Proof.
  intros Hlen Hcall Hur Hv.
  destruct (dispatch_batch_call _ _ _ _ _ Hlen Hcall) as (parsed & Hparsed & ->).
  rewrite (dispatch_batch origin_fetch request ub parsed w Hlen Hparsed).
  cbn [fst]. rewrite Hur. unfold Response_json, JSON_parse. rewrite Hv.
  repeat split.
  - intros Hna. destruct v; try reflexivity. now destruct (Hna elems).
  - intros rs -> Hne. apply not_eq_sym, Nat.eqb_neq in Hne. now rewrite Hne.
  - intros rs -> Heq. symmetry in Heq. apply Nat.eqb_eq in Heq. now rewrite Heq.
Qed.

Lemma dispatch_validates_batch_witness :
  fst (dispatch (origin_answering (js "[{'result':1}]"))
         (example_request "POST" "application/json" EmptyString two_calls)
         two_misses empty_world)
  = Throw count_mismatch.
Proof.
  refine (proj1 (proj2 (dispatch_validates_batch
                          (origin_answering (js "[{'result':1}]"))
                          (example_request "POST" "application/json" EmptyString
                             two_calls)
                          two_misses
                          (example_request "POST" "application/json" EmptyString
                             two_calls)
                          (mkResponse 200 [("content-type", "application/json")]
                             (Some (js "[{'result':1}]")))
                          (JArr [JObj [("result", JNum 1)]])
                          empty_world _ _ _ _))
                [JObj [("result", JNum 1)]] _ _).
  - simpl. lia.
  - vm_compute. reflexivity.
  - reflexivity.
  - vm_compute. reflexivity.
  - reflexivity.
  - simpl. lia.
Defined.

(** A write-back sends nothing to the origin. *)
Lemma store_all_origin_calls (request : Request) (ur : Response) (rs : list json)
    (ub : list Entry) :
  forall (k : nat) (bws : list Entry) (w : World),
    origin_calls (snd (store_all request ur rs ub k bws w)) = origin_calls w.
Proof.
  induction ub as [|b ub IH]; intros k bws w; simpl; [reflexivity|].
  unfold mbind' at 1. unfold store.
  destruct (cacheKeyForRequestAndBody request (body b)) as [key|e];
    unfold mbind', pure, cache_put; cbn [fst snd]; [|reflexivity].
  destruct (bws !! index b); [|reflexivity].
  rewrite IH. reflexivity.
Qed.

(** The requests a [GET] or a [POST] sends to the origin are those of the
    dispatcher. *)
Lemma fetch_origin_calls (origin_fetch : Request -> result Response)
    (request : Request) (w : World) (bodies : list string) (bws : list Entry) :
  rpc_method request = true ->
  bodies_of request = Ok bodies ->
  bodiesWithResponses_of (cache w) request bodies = Ok bws ->
  (0 < length (uncachedBodies_of bws))%nat ->
  origin_calls (snd (fetch origin_fetch request w))
  = origin_calls (snd (dispatch origin_fetch request (uncachedBodies_of bws) w)).
Proof.
  intros Hm Hb Hl Hpos. apply Nat.ltb_lt in Hpos.
  rewrite (fetch_rpc _ _ _ Hm), handle_rpc_unfold, (resolve_unfold _ _ _ _ _ Hb Hl).
  rewrite Hpos.
  destruct (dispatch origin_fetch request (uncachedBodies_of bws) w)
    as [[[ur|ur rs]|e] w1]; try reflexivity.
  pose proof (store_all_origin_calls request ur rs (uncachedBodies_of bws) 0 bws w1)
    as Hcalls.
  destruct (store_all request ur rs (uncachedBodies_of bws) 0 bws w1)
    as [[updated|e] w2]; cbn [snd] in Hcalls |- *.
  - destruct (final_response (origin_of request) updated); exact Hcalls.
  - exact Hcalls.
Qed.

(** C4 (as amended). When more than one miss was dispatched and the origin
    returns an array whose length is not the number of dispatched misses, the
    whole request fails with the count error, which the handler reports as
    its text, and no [cache.put] is issued: the cache is as it was. *)
Theorem count_mismatch_writes_nothing
    (origin_fetch : Request -> result Response) (request : Request) (w : World)
    (bodies : list string) (bws : list Entry) (req : Request)
    (ur : Response) (rs : list json) :
  rpc_method request = true ->
  bodies_of request = Ok bodies ->
  bodiesWithResponses_of (cache w) request bodies = Ok bws ->
  (1 < length (uncachedBodies_of bws))%nat ->
  origin_calls (snd (fetch origin_fetch request w))
  = (origin_calls w ++ [req])%list ->
  origin_fetch req = Ok ur ->
  JSON.parse (Response_text ur) = Some (JArr rs) ->
  length rs <> length (uncachedBodies_of bws) ->
  fst (fetch origin_fetch request w) = Resolved (error_response count_mismatch)
  /\ cache_puts (snd (fetch origin_fetch request w)) = cache_puts w
  /\ cache (snd (fetch origin_fetch request w)) = cache w.
Proof.
  intros Hm Hb Hl Hlen Hcall Hur Hv Hne.
  rewrite (fetch_origin_calls _ _ _ _ _ Hm Hb Hl) in Hcall by lia.
  destruct (dispatch_batch_call _ _ _ _ _ Hlen Hcall) as (parsed & Hparsed & ->).
  rewrite (fetch_rpc _ _ _ Hm), handle_rpc_unfold, (resolve_unfold _ _ _ _ _ Hb Hl).
  assert (H0 : (0 <? length (uncachedBodies_of bws))%nat = true)
    by (apply Nat.ltb_lt; lia).
  rewrite H0, (dispatch_batch _ _ _ parsed w Hlen Hparsed), Hur.
  unfold Response_json, JSON_parse. rewrite Hv.
  apply not_eq_sym, Nat.eqb_neq in Hne. rewrite Hne. auto.
Qed.

Lemma count_mismatch_writes_nothing_witness :
  fst (fetch (origin_answering (js "[{'result':1}]"))
         (example_request "POST" "application/json" EmptyString two_calls)
         empty_world)
  = Resolved (error_response count_mismatch)
  /\ cache_puts
       (snd (fetch (origin_answering (js "[{'result':1}]"))
               (example_request "POST" "application/json" EmptyString two_calls)
               empty_world))
     = []
  /\ cache
       (snd (fetch (origin_answering (js "[{'result':1}]"))
               (example_request "POST" "application/json" EmptyString two_calls)
               empty_world))
     = ∅.
Proof.
  refine (count_mismatch_writes_nothing
            (origin_answering (js "[{'result':1}]"))
            (example_request "POST" "application/json" EmptyString two_calls)
            empty_world
            [js "{'id':1,'method':'status'}"; js "{'id':2,'method':'health'}"]
            two_misses
            (example_request "POST" "application/json" EmptyString two_calls)
            (mkResponse 200 [("content-type", "application/json")]
               (Some (js "[{'result':1}]")))
            [JObj [("result", JNum 1)]] _ _ _ _ _ _ _ _).
  - vm_compute. reflexivity.
  - vm_compute. reflexivity.
  - vm_compute. reflexivity.
  - simpl. lia.
  - vm_compute. reflexivity.
  - reflexivity.
  - vm_compute. reflexivity.
  - simpl. lia.
Defined.

(** C4 as stated fails: with a single miss the origin is asked for that
    call alone and whatever JSON it returns is the result, an array
    included; the request succeeds and the result is written to the cache. *)
Lemma single_miss_array_counterexample :
  ~ (forall (origin_fetch : Request -> result Response) (request : Request)
            (w : World) (bodies : list string) (bws : list Entry)
            (req : Request) (ur : Response) (rs : list json),
        rpc_method request = true ->
        bodies_of request = Ok bodies ->
        bodiesWithResponses_of (cache w) request bodies = Ok bws ->
        origin_calls (snd (fetch origin_fetch request w))
        = (origin_calls w ++ [req])%list ->
        origin_fetch req = Ok ur ->
        JSON.parse (Response_text ur) = Some (JArr rs) ->
        length rs <> length (uncachedBodies_of bws) ->
        (exists e : JsError,
            fst (fetch origin_fetch request w) = Resolved (error_response e))
        /\ cache_puts (snd (fetch origin_fetch request w)) = cache_puts w).
Proof.
  intros H.
  destruct (H (origin_answering (js "[]"))
              (example_request "POST" "application/json" EmptyString status_call)
              empty_world
              [status_call]
              [mkEntry status_call 0 None false]
              (example_request "POST" "application/json" EmptyString status_call)
              (mkResponse 200 [("content-type", "application/json")]
                 (Some (js "[]")))
              [])
    as [_ Hputs].
  - vm_compute. reflexivity.
  - vm_compute. reflexivity.
  - vm_compute. reflexivity.
  - vm_compute. reflexivity.
  - reflexivity.
  - vm_compute. reflexivity.
  - simpl. lia.
  - vm_compute in Hputs. discriminate Hputs.
Qed.

Lemma stringify_truthy (v : json) :
  wf_json v -> truthy (JSON_stringify v) = true.
Proof.
  intros Hwf. destruct v as [|[]|n|negative ds E| | | ]; try reflexivity.
  - unfold JSON_stringify, JSON.stringify, JSON.number_to_string.
    destruct (Z.to_int n) as [[]|[]]; reflexivity.
  - change (JSON_stringify (JDec negative ds E))
      with (JSON.decimal_to_string negative ds E).
    destruct (wf_dec_inv _ _ _ Hwf) as (Hds & _ & _).
    now destruct (decimal_text_head negative ds E Hds) as (c & t & -> & _).
Qed.

(** The calls of a parsed batch are well formed. *)
Lemma parsed_call_wf (text : string) (elems : list json) (j : nat)
    (call : json) :
  JSON.parse text = Some (JArr elems) -> elems !! j = Some call -> wf_json call.
Proof.
  intros Hp Hj. pose proof (JSON_parse_wf _ _ Hp) as Hwf.
  inversion Hwf as [| | | | |? Hall|]; subst.
  rewrite List.Forall_forall in Hall. apply Hall, list_elem_of_In.
  apply list_elem_of_lookup. eauto.
Qed.

Lemma stringify_not_wrapped (v : json) :
  JSON_stringify v <> JSON_stringify (JArr [v]).
Proof.
  intros H. apply (f_equal String.length) in H.
  unfold JSON_stringify in H. simpl in H.
  rewrite length_append in H. simpl in H. lia.
Qed.

Lemma bodies_of_batch (request : Request) (elems : list json) :
  Headers_get "content-type" (headers request) = Some "application/json" ->
  JSON.parse (text request) = Some (JArr elems) ->
  bodies_of request = Ok (JSON_stringify <$> elems).
Proof.
  intros Hct Hp. unfold bodies_of, Request_json, JSON_parse.
  rewrite Hp. destruct (decide _); [reflexivity | contradiction].
Qed.

(** The bodies of a batch are read back as the calls they were made of. *)
Lemma batch_bodies_parse (request : Request) (c : Cache) (elems : list json)
    (bws : list Entry) :
  JSON.parse (text request) = Some (JArr elems) ->
  bodiesWithResponses_of c request (JSON_stringify <$> elems) = Ok bws ->
  mapM (fun b => JSON_parse (body b)) (uncachedBodies_of bws)
  = Ok (missed_calls elems bws).
Proof.
  intros Hp Hl. apply JSON_parse_wf in Hp.
  inversion Hp as [| | | | |? Hwf|]; subst. rewrite List.Forall_forall in Hwf.
  destruct (bodiesWithResponses_spec _ _ _ _ Hl) as [_ Hall].
  unfold missed_calls.
  assert (Hsub : forall b, In b (uncachedBodies_of bws) -> In b bws)
    by (intros b Hb; now apply List.filter_In in Hb as [? _]).
  induction (uncachedBodies_of bws) as [|b ub IH]; [reflexivity|].
  assert (Hb : In b bws) by (apply Hsub; now left).
  apply list_elem_of_In, list_elem_of_lookup in Hb as [j Hj].
  destruct (Hall j b Hj) as (Hidx & Hbody & _).
  rewrite list_lookup_fmap in Hbody.
  destruct (elems !! j) as [call|] eqn:Hcall; [|discriminate Hbody].
  injection Hbody as Hbody.
  cbn [mapM omap list_omap]. rewrite Hidx, Hcall, <- Hbody.
  unfold JSON_parse at 1. rewrite JSON_parse_stringify.
  - cbn [rbind]. rewrite IH; [reflexivity|].
    intros b' Hb'. apply Hsub. now right.
  - apply Hwf. apply list_elem_of_In, list_elem_of_lookup. eauto.
Qed.

(** With more than one miss in a batch the origin is called once, with the
    array of the missed calls in their order. *)
Lemma batch_request_sent (origin_fetch : Request -> result Response)
    (request : Request) (w : World) (elems : list json) (bws : list Entry) :
  rpc_method request = true ->
  Headers_get "content-type" (headers request) = Some "application/json" ->
  JSON.parse (text request) = Some (JArr elems) ->
  bodiesWithResponses_of (cache w) request (JSON_stringify <$> elems) = Ok bws ->
  (1 < length (uncachedBodies_of bws))%nat ->
  origin_calls (snd (fetch origin_fetch request w))
  = (origin_calls w
     ++ [Request_with_body request
           (Some (JSON_stringify (JArr (missed_calls elems bws))))])%list.
Proof.
  intros Hm Hct Hp Hl Hlen.
  pose proof (bodies_of_batch request elems Hct Hp) as Hb.
  rewrite (fetch_origin_calls _ _ _ _ _ Hm Hb Hl) by lia.
  rewrite (dispatch_batch _ _ _ _ w Hlen (batch_bodies_parse _ _ _ _ Hp Hl)).
  reflexivity.
Qed.

(** C8. When exactly one call of a batch is uncached, the origin is called
    once, with that call's own text as the body of the request, not with an
    array that holds it. *)
Theorem single_miss_sent_alone (origin_fetch : Request -> result Response)
    (request : Request) (w : World) (elems : list json) (bws : list Entry)
    (b : Entry) :
  rpc_method request = true ->
  Headers_get "content-type" (headers request) = Some "application/json" ->
  JSON.parse (text request) = Some (JArr elems) ->
  bodiesWithResponses_of (cache w) request (JSON_stringify <$> elems) = Ok bws ->
  uncachedBodies_of bws = [b] ->
  exists call : json,
    elems !! index b = Some call
    /\ body b = JSON_stringify call
    /\ origin_calls (snd (fetch origin_fetch request w))
       = (origin_calls w
          ++ [mkRequest (method request) (url request) (headers request)
                        (JSON_stringify call)])%list
    /\ JSON_stringify call <> JSON_stringify (JArr [call]).
Proof.
  intros Hm Hct Hp Hl Hub.
  pose proof (bodies_of_batch request elems Hct Hp) as Hb.
  destruct (bodiesWithResponses_spec _ _ _ _ Hl) as [_ Hall].
  assert (Hin : b ∈ bws).
  { apply list_elem_of_In. apply (List.filter_In (fun e => negb (cached e))).
    fold (uncachedBodies_of bws). rewrite Hub. now left. }
  apply list_elem_of_lookup in Hin as [j Hj].
  destruct (Hall j b Hj) as (Hidx & Hbody & _).
  rewrite list_lookup_fmap in Hbody.
  destruct (elems !! j) as [call|] eqn:Hcall; [|discriminate Hbody].
  injection Hbody as Hbody. exists call. rewrite Hidx.
  repeat split; [exact Hcall | auto | | apply stringify_not_wrapped].
  rewrite (fetch_rpc _ _ _ Hm), handle_rpc_unfold, (resolve_unfold _ _ _ _ _ Hb Hl).
  rewrite Hub. cbn [length Nat.ltb Nat.leb].
  rewrite dispatch_single.
  rewrite <- Hbody, stringify_truthy by exact (parsed_call_wf _ _ _ _ Hp Hcall).
  unfold Request_with_body. cbn [default].
  destruct (origin_fetch _) as [ur|e]; [|reflexivity].
  destruct (decide _); [reflexivity|].
  destruct (Response_json ur) as [r|e]; [|reflexivity].
  pose proof (store_all_origin_calls request ur [r] [b] 0 bws
                (sent (mkRequest (method request) (url request) (headers request)
                                 (JSON_stringify call)) w)) as Hcalls.
  destruct (store_all request ur [r] [b] 0 bws _) as [[updated|e] w2];
    cbn [snd] in Hcalls.
  - destruct (final_response (origin_of request) updated); exact Hcalls.
  - exact Hcalls.
Qed.

Lemma single_miss_sent_alone_witness :
  exists call : json,
    three_elems !! 1%nat = Some call
    /\ js "{'id':2,'method':'health'}" = JSON_stringify call
    /\ origin_calls
         (snd (fetch (origin_answering (js "{'result':'h'}"))
                 (example_request "POST" "application/json" EmptyString three_calls)
                 world_with_two_hits))
       = ([] ++ [mkRequest "POST" example_url
                   [("content-type", "application/json"); ("origin", EmptyString)]
                   (JSON_stringify call)])%list
    /\ JSON_stringify call <> JSON_stringify (JArr [call]).
Proof.
  refine (single_miss_sent_alone
            (origin_answering (js "{'result':'h'}"))
            (example_request "POST" "application/json" EmptyString three_calls)
            world_with_two_hits three_elems three_entries
            (mkEntry (js "{'id':2,'method':'health'}") 1 None false)
            _ _ _ _ _).
  - vm_compute. reflexivity.
  - vm_compute. reflexivity.
  - vm_compute. reflexivity.
  - vm_compute. reflexivity.
  - vm_compute. reflexivity.
Defined.

(** ** The [catch] block *)

(** The text built in the [catch] block: status 200, plain text. *)
Lemma error_response_plain_text (e : JsError) :
  status (error_response e) = 200
  /\ Headers_get "content-type" (r_headers (error_response e))
     = Some "text/plain;charset=UTF-8"
  /\ r_body (error_response e) = Some ("Error thrown " +:+ message_of e).
Proof. repeat split. Qed.

(** Whatever is thrown while a [GET] or a [POST] is served is caught. *)
Lemma fetch_rpc_catches (origin_fetch : Request -> result Response)
    (request : Request) (w : World) :
  rpc_method request = true ->
  exists r : Response,
    fst (fetch origin_fetch request w) = Resolved r
    /\ forall e : JsError,
         fst (handle_rpc origin_fetch request (origin_of request) w) = Throw e ->
         r = error_response e.
Proof.
  intros Hm. rewrite (fetch_rpc _ _ _ Hm).
  destruct (handle_rpc origin_fetch request (origin_of request) w) as [[r|e] w'];
    cbn [fst].
  - exists r. split; [reflexivity | intros e He; discriminate He].
  - exists (error_response e). split; [reflexivity|].
    intros e' He'. now injection He' as <-.
Qed.

(** An [OPTIONS] request is answered without any call that could throw. *)
Lemma fetch_options (origin_fetch : Request -> result Response)
    (request : Request) (w : World) :
  rpc_method request = false ->
  toUpperCase (method request) = "OPTIONS" ->
  fetch origin_fetch request w
  = (Resolved (handle_options request (origin_of request)), w).
Proof.
  unfold rpc_method. intros Hm Ho. unfold fetch, try_block. rewrite Hm, Ho.
  reflexivity.
Qed.

(** C9, at the input where the code departs from it. For a method other than
    [GET], [POST] and [OPTIONS] the request is passed on with
    [return fetch(request)] (line 222). The promise is returned, not awaited,
    so when the origin fetch rejects the [catch] block is not run: the
    handler's promise rejects with that error and no diagnostic response is
    made. *)
Theorem passthrough_rejection_not_caught
    (origin_fetch : Request -> result Response) (request : Request) (w : World)
    (e : JsError) :
  rpc_method request = false ->
  toUpperCase (method request) <> "OPTIONS" ->
  origin_fetch request = Throw e ->
  fetch origin_fetch request w = (Rejected e, sent request w).
Proof.
  unfold rpc_method. intros Hm Ho He. unfold fetch, try_block. rewrite Hm.
  apply String.eqb_neq in Ho. rewrite Ho.
  unfold await_fetch. rewrite He. reflexivity.
Qed.

Lemma passthrough_rejection_not_caught_witness :
  fetch origin_down
        (example_request "PUT" "application/json" EmptyString status_call)
        empty_world
  = (Rejected (Error "Network connection lost."),
     sent (example_request "PUT" "application/json" EmptyString status_call)
          empty_world).
Proof.
  refine (passthrough_rejection_not_caught origin_down
            (example_request "PUT" "application/json" EmptyString status_call)
            empty_world (Error "Network connection lost.") _ _ _).
  - vm_compute. reflexivity.
  - vm_compute. discriminate.
  - reflexivity.
Defined.

(** ** Write-back and assembly *)

(** Every miss gets a result: the dispatcher yields as many results as
    calls it was given. *)
Lemma dispatch_fetched_length (origin_fetch : Request -> result Response)
    (request : Request) (ub : list Entry) (w w1 : World) (ur : Response)
    (rs : list json) :
  (0 < length ub)%nat ->
  dispatch origin_fetch request ub w = (Ok (Fetched ur rs), w1) ->
  length rs = length ub.
Proof.
  intros Hpos. unfold dispatch.
  destruct (1 <? length ub)%nat eqn:Hlen.
  - unfold mbind', pure, await_fetch.
    destruct (mapM _ ub) as [parsed|e]; [|discriminate].
    destruct (origin_fetch _) as [ur'|e]; [|discriminate].
    destruct (Response_json ur') as [v|e]; [|discriminate].
    destruct v; try discriminate.
    destruct (length ub =? length elems)%nat eqn:Heq; simpl; [|discriminate].
    intros H. injection H as _ <- _. apply Nat.eqb_eq in Heq. auto.
  - apply Nat.ltb_ge in Hlen.
    destruct ub as [|b [|b' ub]]; simpl in Hpos, Hlen; try lia.
    unfold mbind', pure, await_fetch.
    destruct (origin_fetch _) as [ur'|e]; [|discriminate].
    destruct (decide _); [discriminate|].
    destruct (Response_json ur') as [v|e]; [|discriminate].
    intros H. injection H as _ <- _. reflexivity.
Qed.

(** The results the dispatcher yields are values that [JSON.parse]
    returned. *)
Lemma dispatch_fetched_wf (origin_fetch : Request -> result Response)
    (request : Request) (ub : list Entry) (w w1 : World) (ur : Response)
    (rs : list json) :
  dispatch origin_fetch request ub w = (Ok (Fetched ur rs), w1) ->
  List.Forall wf_json rs.
Proof.
  unfold dispatch, Response_json, JSON_parse.
  destruct (1 <? length ub)%nat.
  - unfold mbind', pure, await_fetch.
    destruct (mapM _ ub) as [parsed|e]; [|discriminate].
    destruct (origin_fetch _) as [ur'|e]; [|discriminate].
    destruct (JSON.parse (Response_text ur')) as [v|] eqn:E; [|discriminate].
    apply JSON_parse_wf in E. destruct v; try discriminate.
    destruct (negb _); [discriminate|].
    intros H. injection H as _ <- _. now inversion E.
  - destruct ub as [|b ub]; [discriminate|].
    unfold mbind', pure, await_fetch.
    destruct (origin_fetch _) as [ur'|e]; [|discriminate].
    destruct (decide _); [discriminate|].
    destruct (JSON.parse (Response_text ur')) as [v|] eqn:E; [|discriminate].
    apply JSON_parse_wf in E.
    intros H. injection H as _ <- _. now repeat constructor.
Qed.

(** A miss stands among the misses at a rank below their number. *)
Lemma rank_of_miss (bws : list Entry) :
  forall (i : nat) (e0 : Entry),
    bws !! i = Some e0 ->
    cached e0 = false ->
    (length (uncachedBodies_of (take i bws)) < length (uncachedBodies_of bws))%nat.
Proof.
  unfold uncachedBodies_of.
  induction bws as [|b bws IH]; intros i e0 Hi Hc; [discriminate Hi|].
  destruct i as [|i]; simpl in Hi |- *.
  - injection Hi as ->. rewrite Hc. simpl. lia.
  - specialize (IH i e0 Hi Hc). destruct (negb (cached b)); simpl; lia.
Qed.

(** A hit holds a non-empty text. *)
Lemma hit_has_text (c : Cache) (request : Request) (e : Entry) (i : nat) :
  lookup c request (body e) i = Ok e ->
  cached e = true ->
  exists text : string, response e = Some text /\ truthy text = true.
Proof.
  intros Hlook Hc.
  apply lookup_inv in Hlook as (_ & _ & key & _ & _ & Hflag).
  rewrite Hc in Hflag. destruct (response e) as [text|]; [|discriminate Hflag].
  exists text. split; [reflexivity | now symmetry].
Qed.

Lemma backfilled_all_cached (rs : list json) (bws : list Entry) :
  forall k : nat, uncachedBodies_of bws = [] -> backfilled rs k bws = bws.
Proof.
  unfold uncachedBodies_of.
  induction bws as [|b bws IH]; intros k H; simpl in *; [reflexivity|].
  destruct (cached b); simpl in H; [|discriminate H]. now rewrite IH.
Qed.

(** Entry [i] after the write-back: a hit is untouched; a miss carries the
    text of the result at its rank among the misses. *)
Lemma backfilled_lookup_rank (rs : list json) (bws : list Entry) :
  forall (k i : nat) (e0 : Entry),
    bws !! i = Some e0 ->
    backfilled rs k bws !! i
    = Some (if cached e0 then e0
            else mkEntry (body e0) (index e0)
                   (JSON_stringify
                      <$> (rs !! (k + length (uncachedBodies_of (take i bws)))%nat))
                   false).
Proof.
  unfold uncachedBodies_of.
  induction bws as [|b bws IH]; intros k i e0 Hi; [discriminate Hi|].
  destruct i as [|i]; simpl in Hi.
  - injection Hi as Hi. subst b. simpl. destruct (cached e0) eqn:Hc; simpl.
    + reflexivity.
    + now rewrite Nat.add_0_r.
  - simpl. destruct (cached b) eqn:Hc; simpl.
    + now apply IH.
    + rewrite (IH (S k) i e0 Hi). destruct (cached e0); [reflexivity|].
      do 3 f_equal. f_equal. lia.
Qed.

(** The entries that reach the assembly: those of the lookup, the misses
    filled with the results the dispatcher fetched for them, in order. *)
Lemma resolve_spec (origin_fetch : Request -> result Response)
    (request : Request) (w w' : World) (bodies : list string)
    (entries : list Entry) :
  bodies_of request = Ok bodies ->
  resolve origin_fetch request w = (Ok (inr entries), w') ->
  exists (bws : list Entry) (rs : list json),
    bodiesWithResponses_of (cache w) request bodies = Ok bws
    /\ entries = backfilled rs 0 bws
    /\ length rs = length (uncachedBodies_of bws)
    /\ List.Forall wf_json rs
    /\ (uncachedBodies_of bws <> [] ->
        exists ur : Response,
          fst (dispatch origin_fetch request (uncachedBodies_of bws) w)
          = Ok (Fetched ur rs)).
Proof.
  intros Hb Hres.
  destruct (bodiesWithResponses_of (cache w) request bodies) as [bws|e] eqn:Hl.
  2:{ unfold resolve in Hres. rewrite Hb in Hres. unfold mbind', pure in Hres.
      rewrite Hl in Hres. discriminate Hres. }
  rewrite (resolve_unfold _ _ _ _ _ Hb Hl) in Hres. exists bws.
  destruct (0 <? length (uncachedBodies_of bws))%nat eqn:Hpos.
  - apply Nat.ltb_lt in Hpos.
    destruct (dispatch origin_fetch request (uncachedBodies_of bws) w)
      as [[[ur|ur rs]|e] w1] eqn:Hd; try discriminate Hres.
    destruct (bodiesWithResponses_spec _ _ _ _ Hl) as [_ Hall].
    destruct (store_all_spec request ur rs bws [] 0 w1) as (w2 & Hrun & _).
    + intros j e Hj. now destruct (Hall j e Hj).
    + intros e He. apply list_elem_of_In, list_elem_of_lookup in He as [j Hj].
      destruct (Hall j e Hj) as (_ & _ & Hlook).
      apply lookup_inv in Hlook as (_ & _ & key & Hk & _). eauto.
    + simpl in Hrun. rewrite Hrun in Hres. injection Hres as <- _.
      exists rs. split; [reflexivity|]. split; [reflexivity|].
      split; [now apply (dispatch_fetched_length _ _ _ _ _ _ _ Hpos Hd)|].
      split; [exact (dispatch_fetched_wf _ _ _ _ _ _ _ Hd)|].
      intros _. exists ur. reflexivity.
  - apply Nat.ltb_ge in Hpos. injection Hres as <- _.
    assert (Hnil : uncachedBodies_of bws = [])
      by (destruct (uncachedBodies_of bws); [reflexivity | simpl in Hpos; lia]).
    exists []. rewrite (backfilled_all_cached [] bws 0 Hnil), Hnil.
    split; [reflexivity|]. split; [reflexivity|]. split; [reflexivity|].
    split; [constructor|]. intros Hne. now destruct Hne.
Qed.

Lemma fetch_assembled (origin_fetch : Request -> result Response)
    (request : Request) (w w' : World) (entries : list Entry) (r : Response) :
  rpc_method request = true ->
  resolve origin_fetch request w = (Ok (inr entries), w') ->
  final_response (origin_of request) entries = Ok r ->
  fetch origin_fetch request w = (Resolved r, w').
Proof.
  intros Hm Hres Hfin.
  now rewrite (fetch_rpc _ _ _ Hm), handle_rpc_unfold, Hres, Hfin.
Qed.

(** The entries that reach the assembly stand in the order of the calls. *)
Lemma resolve_entries_in_order (origin_fetch : Request -> result Response)
    (request : Request) (w w' : World) (bodies : list string)
    (entries : list Entry) :
  bodies_of request = Ok bodies ->
  resolve origin_fetch request w = (Ok (inr entries), w') ->
  length entries = length bodies
  /\ forall (i : nat) (e : Entry),
       entries !! i = Some e -> index e = i /\ bodies !! i = Some (body e).
Proof.
  intros Hb Hres.
  destruct (resolve_spec _ _ _ _ _ _ Hb Hres) as (bws & rs & Hl & -> & _).
  destruct (bodiesWithResponses_spec _ _ _ _ Hl) as [Hlen Hall].
  split; [now rewrite backfilled_length|].
  intros i e Hi. apply backfilled_lookup in Hi as (e0 & H0 & -> & -> & _).
  now destruct (Hall i e0 H0) as (? & ? & _).
Qed.

(** C2 (as amended). When the payload holds exactly one call, alone or as a
    batch of one, the body of the assembled response is the result of that
    call as it is, not wrapped in an array: the cached text of a hit, the
    JSON text of the value the origin returned for a miss. When the payload
    is a batch of N calls with N other than 1, the body is a JSON array of
    exactly N elements, and element i is the result of the call at index i:
    the value of the cached text for a hit, and for a miss the value the
    origin returned at the rank of that miss among the misses. *)
Theorem assembled_shape (origin_fetch : Request -> result Response)
    (request : Request) (w w' : World) (bodies : list string)
    (entries : list Entry) (r : Response) :
  rpc_method request = true ->
  bodies_of request = Ok bodies ->
  resolve origin_fetch request w = (Ok (inr entries), w') ->
  final_response (origin_of request) entries = Ok r ->
  fetch origin_fetch request w = (Resolved r, w')
  /\ exists (bws : list Entry) (rs : list json),
       bodiesWithResponses_of (cache w) request bodies = Ok bws
       /\ length bws = length bodies
       /\ length rs = length (uncachedBodies_of bws)
       /\ (uncachedBodies_of bws <> [] ->
           exists ur : Response,
             fst (dispatch origin_fetch request (uncachedBodies_of bws) w)
             = Ok (Fetched ur rs))
       /\ (length bodies = 1%nat ->
           exists e0 : Entry,
             bws = [e0]
             /\ (cached e0 = true -> r_body r = response e0)
             /\ (cached e0 = false ->
                 exists v : json, rs = [v] /\ r_body r = Some (JSON_stringify v)))
       /\ (length bodies <> 1%nat ->
           exists values : list json,
             r_body r = Some (JSON_stringify (JArr values))
             /\ length values = length bodies
             /\ forall (i : nat) (e0 : Entry),
                  bws !! i = Some e0 ->
                  index e0 = i
                  /\ bodies !! i = Some (body e0)
                  /\ (cached e0 = true ->
                      exists (cached_text : string) (v : json),
                        response e0 = Some cached_text
                        /\ JSON.parse cached_text = Some v
                        /\ values !! i = Some v)
                  /\ (cached e0 = false ->
                      exists v : json,
                        rs !! length (uncachedBodies_of (take i bws)) = Some v
                        /\ values !! i = Some v)).
Proof.
  intros Hm Hb Hres Hfin.
  split; [exact (fetch_assembled _ _ _ _ _ _ Hm Hres Hfin)|].
  destruct (resolve_spec _ _ _ _ _ _ Hb Hres)
    as (bws & rs & Hl & -> & Hrs & Hwf & Hd).
  destruct (bodiesWithResponses_spec _ _ _ _ Hl) as [Hlen Hall].
  exists bws, rs. do 4 (split; [assumption|]). split.
  - intros H1. rewrite <- Hlen in H1.
    destruct bws as [|e0 [|e1 bws]]; simpl in H1; try lia.
    exists e0. split; [reflexivity|].
    unfold uncachedBodies_of in Hrs. simpl in Hrs, Hfin.
    destruct (cached e0) eqn:Hc; simpl in Hrs, Hfin.
    + split; [intros _|discriminate].
      unfold final_response in Hfin. simpl in Hfin. now injection Hfin as <-.
    + split; [discriminate|]. intros _.
      destruct rs as [|v [|v' rs]]; simpl in Hrs; try lia.
      exists v. split; [reflexivity|].
      unfold final_response in Hfin. simpl in Hfin. now injection Hfin as <-.
  - intros Hn. unfold final_response in Hfin.
    assert (Hn' : (length (backfilled rs 0 bws) =? 1)%nat = false)
      by (apply Nat.eqb_neq; rewrite backfilled_length; lia).
    rewrite Hn' in Hfin.
    destruct (mapM response_value (backfilled rs 0 bws)) as [values|e]
      eqn:Hvalues; [|discriminate Hfin].
    simpl in Hfin. injection Hfin as <-. exists values.
    destruct (mapM_spec _ _ _ Hvalues) as [Hvlen Hvall].
    split; [reflexivity|].
    split; [rewrite Hvlen, backfilled_length; exact Hlen|].
    intros i e0 Hi. destruct (Hall i e0 Hi) as (Hidx & Hbody & Hlook).
    split; [exact Hidx|]. split; [exact Hbody|].
    pose proof (backfilled_lookup_rank rs bws 0 i e0 Hi) as Hentry. simpl in Hentry.
    destruct (Hvall i _ Hentry) as (v & Hv & Hvalue). split.
    + intros Hc. rewrite Hc in Hvalue.
      destruct (hit_has_text _ _ _ _ Hlook Hc) as (text & Htext & Htruthy).
      unfold response_value in Hvalue. rewrite Htext, Htruthy in Hvalue.
      unfold JSON_parse in Hvalue.
      destruct (JSON.parse text) as [v'|] eqn:E; [|discriminate Hvalue].
      injection Hvalue as ->. eauto.
    + intros Hc. rewrite Hc in Hvalue.
      pose proof (rank_of_miss bws i e0 Hi Hc) as Hrank. rewrite <- Hrs in Hrank.
      apply lookup_lt_is_Some in Hrank as [v0 Hv0].
      unfold response_value in Hvalue. cbn [response] in Hvalue.
      rewrite Hv0 in Hvalue. cbn [fmap option_fmap option_map] in Hvalue.
      assert (Hwf0 : wf_json v0).
      { rewrite List.Forall_forall in Hwf. apply Hwf.
        apply list_elem_of_In, list_elem_of_lookup. eauto. }
      rewrite stringify_truthy in Hvalue by exact Hwf0.
      unfold JSON_parse in Hvalue.
      rewrite JSON_parse_stringify in Hvalue by exact Hwf0.
      injection Hvalue as ->. eauto.
Qed.

Lemma assembled_shape_witness :
  fetch (origin_answering (js "{'result':'h'}")) three_request world_with_two_hits
  = (Resolved three_response,
     snd (resolve (origin_answering (js "{'result':'h'}")) three_request
            world_with_two_hits)).
Proof.
  refine (proj1 (assembled_shape (origin_answering (js "{'result':'h'}"))
                   three_request world_with_two_hits
                   (snd (resolve (origin_answering (js "{'result':'h'}"))
                           three_request world_with_two_hits))
                   three_bodies three_final_entries three_response _ _ _ _)).
  - vm_compute. reflexivity.
  - vm_compute. reflexivity.
  - vm_compute. reflexivity.
  - vm_compute. reflexivity.
Defined.

(** C2 as stated fails: a batch of one call is answered with the bare
    result, not with an array of one element, for line 156 looks at the
    number of calls and not at the shape of the payload. *)
Lemma batch_of_one_counterexample :
  ~ (forall (origin_fetch : Request -> result Response) (request : Request)
            (w w' : World) (elems : list json) (entries : list Entry)
            (r : Response),
        rpc_method request = true ->
        Headers_get "content-type" (headers request) = Some "application/json" ->
        JSON.parse (text request) = Some (JArr elems) ->
        resolve origin_fetch request w = (Ok (inr entries), w') ->
        final_response (origin_of request) entries = Ok r ->
        exists values : list json,
          r_body r = Some (JSON_stringify (JArr values))
          /\ length values = length elems).
Proof.
  intros H.
  destruct (H (origin_answering (js "{'result':'ok'}")) one_call_batch empty_world
              (snd (resolve (origin_answering (js "{'result':'ok'}"))
                      one_call_batch empty_world))
              [JObj [("id", JNum 1); ("method", JStr "status")]]
              [mkEntry status_call 0 (Some (js "{'result':'ok'}")) false]
              (mkResponse 200
                 [("Content-Type", "application/json"); ("Cached", "false")]
                 (Some (js "{'result':'ok'}"))))
    as (values & Hbody & _).
  - vm_compute. reflexivity.
  - vm_compute. reflexivity.
  - vm_compute. reflexivity.
  - vm_compute. reflexivity.
  - vm_compute. reflexivity.
  - simpl in Hbody. injection Hbody as Hbody. vm_compute in Hbody.
    discriminate Hbody.
Qed.

(** ** The [Cached] header *)

Lemma positions_of_indices (l : list Entry) :
  forall start : nat,
    (forall (j : nat) (e : Entry), l !! j = Some e -> index e = (start + j)%nat) ->
    index <$> List.filter cached l = positions_from start (cached <$> l).
Proof.
  induction l as [|b l IH]; intros start Hidx; simpl; [reflexivity|].
  assert (Htail : index <$> List.filter cached l
                  = positions_from (S start) (cached <$> l)).
  { apply IH. intros j e Hj. rewrite (Hidx (S j) e Hj). lia. }
  destruct (cached b); simpl; [|exact Htail].
  f_equal; [rewrite (Hidx 0%nat b eq_refl); lia | exact Htail].
Qed.

Lemma Cached_header_single (origin : string) (e : Entry) (r : Response) :
  final_response origin [e] = Ok r ->
  Headers_get "Cached" (r_headers r) = Some (JSON_stringify (JBool (cached e))).
Proof.
  unfold final_response, cors. simpl. intros H. injection H as <-.
  destruct (response e), (origin_allowed origin); reflexivity.
Qed.

Lemma Cached_header_many (origin : string) (entries : list Entry) (r : Response) :
  length entries <> 1%nat ->
  final_response origin entries = Ok r ->
  Headers_get "Cached" (r_headers r)
  = Some (JSON_stringify
            (JArr ((fun i => JNum (Z.of_nat i))
                     <$> (index <$> List.filter cached entries)))).
Proof.
  intros Hn. unfold final_response. apply Nat.eqb_neq in Hn. rewrite Hn.
  destruct (mapM response_value entries) as [values|]; [|discriminate].
  cbn [rbind]. intros H. injection H as <-.
  rewrite <- (list_fmap_compose index (fun i => JNum (Z.of_nat i))).
  unfold cors. destruct (origin_allowed origin); reflexivity.
Qed.

(** C5 (as amended). The [Cached] header reports the flags as they were set
    at lookup time: writing the fetched results back flips no flag, and a
    flag is set exactly when the lookup found a non-empty body in the cache.
    For a payload of N calls with N other than 1 the header is the list of
    the indices that were hits at lookup time; for a payload of one call,
    a batch of one included, it is the boolean flag of that call. *)
Theorem Cached_header_reflects_lookup
    (origin_fetch : Request -> result Response) (request : Request)
    (w w' : World) (bodies : list string) (bws entries : list Entry)
    (r : Response) :
  rpc_method request = true ->
  bodies_of request = Ok bodies ->
  bodiesWithResponses_of (cache w) request bodies = Ok bws ->
  resolve origin_fetch request w = (Ok (inr entries), w') ->
  final_response (origin_of request) entries = Ok r ->
  fetch origin_fetch request w = (Resolved r, w')
  /\ cached <$> entries = cached <$> bws
  /\ (forall (i : nat) (e : Entry),
         bws !! i = Some e ->
         exists key : Request,
           cacheKeyForRequestAndBody request (body e) = Ok key
           /\ cached e = match cache_match (cache w) key with
                         | Some found => truthy (Response_text found)
                         | None => false
                         end)
  /\ (length bodies = 1%nat ->
      exists e0 : Entry,
        bws = [e0]
        /\ Headers_get "Cached" (r_headers r)
           = Some (JSON_stringify (JBool (cached e0))))
  /\ (length bodies <> 1%nat ->
      Headers_get "Cached" (r_headers r)
      = Some (JSON_stringify
                (JArr ((fun i => JNum (Z.of_nat i)) <$> hit_positions bws)))).
Proof.
  intros Hm Hb Hl Hres Hfin.
  destruct (resolve_spec _ _ _ _ _ _ Hb Hres) as (bws' & rs & Hl' & -> & _).
  rewrite Hl in Hl'. injection Hl' as <-.
  destruct (bodiesWithResponses_spec _ _ _ _ Hl) as [Hlen Hall].
  split; [exact (fetch_assembled _ _ _ _ _ _ Hm Hres Hfin)|].
  split; [apply backfilled_cached|]. split; [|split].
  - intros i e Hi. destruct (Hall i e Hi) as (_ & _ & Hlook).
    destruct (lookup_inv _ _ _ _ _ Hlook) as (_ & _ & key & Hk & _).
    exists key. split; [exact Hk|].
    rewrite (lookup_spec _ _ _ _ _ Hk) in Hlook. injection Hlook as <-.
    reflexivity.
  - intros H1. rewrite <- Hlen in H1.
    destruct bws as [|e0 [|e1 bws]]; simpl in H1; try lia.
    exists e0. split; [reflexivity|].
    assert (Hflag : forall e, backfilled rs 0 [e0] = [e] -> cached e = cached e0).
    { simpl. destruct (cached e0) eqn:Hc; intros e He; injection He as <-;
        simpl; congruence. }
    destruct (backfilled rs 0 [e0]) as [|e [|e' l]] eqn:Hbf;
      try (apply (f_equal length) in Hbf; rewrite backfilled_length in Hbf;
           simpl in Hbf; lia).
    rewrite (Cached_header_single _ _ _ Hfin), (Hflag e eq_refl). reflexivity.
  - intros Hn. rewrite <- Hlen, <- (backfilled_length rs bws 0) in Hn.
    rewrite (Cached_header_many _ _ _ Hn Hfin). unfold hit_positions.
    rewrite (positions_of_indices (backfilled rs 0 bws) 0), backfilled_cached;
      [reflexivity|].
    intros j e Hj. apply backfilled_lookup in Hj as (e0 & H0 & _ & -> & _).
    now destruct (Hall j e0 H0).
Qed.

Lemma Cached_header_reflects_lookup_witness :
  Headers_get "Cached" (r_headers three_response)
  = Some (JSON_stringify
            (JArr ((fun i => JNum (Z.of_nat i)) <$> hit_positions three_entries))).
Proof.
  refine (proj2 (proj2 (proj2 (proj2
            (Cached_header_reflects_lookup
               (origin_answering (js "{'result':'h'}"))
               three_request world_with_two_hits
               (snd (resolve (origin_answering (js "{'result':'h'}"))
                       three_request world_with_two_hits))
               three_bodies three_entries three_final_entries three_response
               _ _ _ _ _)))) _).
  - vm_compute. reflexivity.
  - vm_compute. reflexivity.
  - vm_compute. reflexivity.
  - vm_compute. reflexivity.
  - vm_compute. reflexivity.
  - simpl. lia.
Defined.

(** C5 as stated fails for a batch of one call: its header is the boolean
    flag of the call, not the list of the hit indices. *)
Lemma Cached_header_batch_of_one_counterexample :
  ~ (forall (origin_fetch : Request -> result Response) (request : Request)
            (w w' : World) (elems : list json) (bws entries : list Entry)
            (r : Response),
        rpc_method request = true ->
        Headers_get "content-type" (headers request) = Some "application/json" ->
        JSON.parse (text request) = Some (JArr elems) ->
        bodiesWithResponses_of (cache w) request (JSON_stringify <$> elems)
        = Ok bws ->
        resolve origin_fetch request w = (Ok (inr entries), w') ->
        final_response (origin_of request) entries = Ok r ->
        Headers_get "Cached" (r_headers r)
        = Some (JSON_stringify
                  (JArr ((fun i => JNum (Z.of_nat i)) <$> hit_positions bws)))).
Proof.
  intros H.
  specialize (H origin_down one_call_batch world_with_status_hit
                world_with_status_hit
                [JObj [("id", JNum 1); ("method", JStr "status")]]
                [mkEntry status_call 0 (Some (js "{'result':'ok'}")) true]
                [mkEntry status_call 0 (Some (js "{'result':'ok'}")) true]
                (mkResponse 200
                   [("Content-Type", "application/json"); ("Cached", "true")]
                   (Some (js "{'result':'ok'}")))).
  assert (Hheader : Some "true" = Some "[0]"); [|discriminate Hheader].
  apply H; vm_compute; reflexivity.
Qed.

(** ** The CORS gate *)

Lemma cors_header_of_allowed (origin : string) (entries : list Entry)
    (r : Response) :
  origin_allowed origin = true ->
  final_response origin entries = Ok r ->
  Headers_get "Access-Control-Allow-Origin" (r_headers r) = Some origin.
Proof.
  intros Ha. unfold final_response, cors. rewrite Ha.
  destruct (length entries =? 1)%nat.
  - destruct entries as [|first rest]; [discriminate|].
    intros H. injection H as <-. destruct (response first); reflexivity.
  - destruct (mapM response_value entries) as [values|]; [|discriminate].
    cbn [rbind]. intros H. injection H as <-. reflexivity.
Qed.

(** An origin the allow-list does not let through gets no such header. *)
Example evil_example_not_allowed : origin_allowed "https://evil.example" = false.
Proof. vm_compute. reflexivity. Qed.

Example app_daodao_zone_allowed : origin_allowed "https://app.daodao.zone" = true.
Proof. vm_compute. reflexivity. Qed.

(** The allow-list as described lets the intended origins through. *)
Example described_allow_list_accepts :
  described_allow_list "https://daodao.zone" = true
  /\ described_allow_list "https://app.daodao.zone" = true
  /\ described_allow_list "http://localhost:3000" = true
  /\ described_allow_list "https://dao-dao-git-main-da0da0.vercel.app" = true
  /\ described_allow_list "https://evil.example" = false.
Proof. vm_compute. repeat split. Qed.

(** C10. The patterns of the allow-list are not anchored. The origins
    [https://daodao.zone.evil.example] and [https://notdaodao.zone] are
    outside the allow-list as it is described (neither host is the production
    domain or one of its subdomains), and yet every origin that merely
    contains [daodao.zone] passes the test of the code, and the assembled
    response carries an [Access-Control-Allow-Origin] header that echoes
    it. *)
Theorem unanchored_allow_list :
  described_allow_list "https://daodao.zone.evil.example" = false
  /\ described_allow_list "https://notdaodao.zone" = false
  /\ origin_allowed "https://daodao.zone.evil.example" = true
  /\ origin_allowed "https://notdaodao.zone" = true
  /\ forall (pre post : string) (origin_fetch : Request -> result Response)
            (request : Request) (w w' : World) (entries : list Entry)
            (r : Response),
       Headers_get "Origin" (headers request)
       = Some (pre +:+ "daodao.zone" +:+ post) ->
       rpc_method request = true ->
       resolve origin_fetch request w = (Ok (inr entries), w') ->
       final_response (origin_of request) entries = Ok r ->
       origin_allowed (pre +:+ "daodao.zone" +:+ post) = true
       /\ fetch origin_fetch request w = (Resolved r, w')
       /\ Headers_get "Access-Control-Allow-Origin" (r_headers r)
          = Some (pre +:+ "daodao.zone" +:+ post).
Proof.
  split; [vm_compute; reflexivity|]. split; [vm_compute; reflexivity|].
  split; [exact (origin_allowed_substring "https://" ".evil.example")|].
  split; [exact (origin_allowed_substring "https://not" EmptyString)|].
  intros pre post origin_fetch request w w' entries r Ho Hm Hres Hfin.
  pose proof (origin_allowed_substring pre post) as Ha.
  split; [exact Ha|]. split; [exact (fetch_assembled _ _ _ _ _ _ Hm Hres Hfin)|].
  assert (Horigin : origin_of request = pre +:+ "daodao.zone" +:+ post)
    by (unfold origin_of; now rewrite Ho).
  rewrite Horigin in Hfin. exact (cors_header_of_allowed _ _ _ Ha Hfin).
Qed.

Lemma unanchored_allow_list_witness :
  origin_allowed "https://daodao.zone.evil.example" = true
  /\ fetch (origin_answering (js "{'result':'ok'}")) evil_request empty_world
     = (Resolved
          (mkResponse 200
             [("Content-Type", "application/json"); ("Cached", "false");
              ("Access-Control-Allow-Origin", "https://daodao.zone.evil.example")]
             (Some (js "{'result':'ok'}"))),
        snd (resolve (origin_answering (js "{'result':'ok'}")) evil_request
               empty_world))
  /\ Headers_get "Access-Control-Allow-Origin"
       (r_headers
          (mkResponse 200
             [("Content-Type", "application/json"); ("Cached", "false");
              ("Access-Control-Allow-Origin", "https://daodao.zone.evil.example")]
             (Some (js "{'result':'ok'}"))))
     = Some "https://daodao.zone.evil.example".
Proof.
  refine (proj2 (proj2 (proj2 (proj2 unanchored_allow_list)))
            "https://" ".evil.example"
            (origin_answering (js "{'result':'ok'}")) evil_request empty_world
            (snd (resolve (origin_answering (js "{'result':'ok'}")) evil_request
                    empty_world))
            [mkEntry status_call 0 (Some (js "{'result':'ok'}")) false]
            (mkResponse 200
               [("Content-Type", "application/json"); ("Cached", "false");
                ("Access-Control-Allow-Origin", "https://daodao.zone.evil.example")]
               (Some (js "{'result':'ok'}")))
            _ _ _ _).
  - vm_compute. reflexivity.
  - vm_compute. reflexivity.
  - vm_compute. reflexivity.
  - vm_compute. reflexivity.
Defined.

(* ===================================================================== *)
(** * Further properties of the worker *)
(* ===================================================================== *)

(** ** The digest in the path of a key *)

Lemma hex_digit_lower_hex (d : Z) :
  0 <= d < 16 -> is_lower_hex (hex_digit d) = true.
Proof.
  intros Hd.
  assert (H : d = 0 \/ d = 1 \/ d = 2 \/ d = 3 \/ d = 4 \/ d = 5 \/ d = 6
              \/ d = 7 \/ d = 8 \/ d = 9 \/ d = 10 \/ d = 11 \/ d = 12
              \/ d = 13 \/ d = 14 \/ d = 15) by lia.
  repeat (destruct H as [-> | H]; [reflexivity|]). now subst.
Qed.

Lemma all_chars_append (p : ascii -> bool) (s t : string) :
  all_chars p (s +:+ t) = all_chars p s && all_chars p t.
Proof.
  induction s as [|c s IH]; cbn [String.append all_chars]; [reflexivity|].
  now rewrite IH, andb_assoc.
Qed.

Lemma hex_fold_lower_hex (bs : list Z) :
  all_chars is_lower_hex (foldr (fun b acc => hex2 b +:+ acc) EmptyString bs)
  = true.
Proof.
  induction bs as [|b bs IH]; [reflexivity|].
  cbn [foldr]. rewrite all_chars_append, IH, andb_true_r.
  unfold hex2. cbn [all_chars].
  rewrite !hex_digit_lower_hex; [reflexivity | |]; apply Z.mod_pos_bound; lia.
Qed.

Lemma sha1_all_lower_hex (message : string) :
  all_chars is_lower_hex (sha1 message) = true.
Proof. unfold sha1. apply hex_fold_lower_hex. Qed.

(** X1. [sha1] (lines 1-11) answers, for every message, a text of exactly
    32 characters, each of them one of [0-9a-f]: what is appended to the
    path of a key never holds a separator of a URL. *)
Theorem sha1_lower_hex (message : string) :
  String.length (sha1 message) = 32%nat
  /\ all_chars is_lower_hex (sha1 message) = true.
Proof.
  split; [apply sha1_length | apply sha1_all_lower_hex].
Qed.

(** X2. Whatever the body, a key that [cacheKeyForRequestAndBody] (lines
    22-47) returns is a [GET] request without a body that carries the
    headers of the inbound request and addresses the same URL but for the
    path: its path is the inbound path followed by nothing when the body is
    empty, and by the 32 hexadecimal characters of a digest when it is not.
    The query string and the fragment are kept. *)
Theorem cacheKey_is_get_on_extended_path (request : Request) (b : string)
    (k : Request) :
  cacheKeyForRequestAndBody request b = Ok k ->
  method k = "GET" /\ headers k = headers request /\ text k = EmptyString
  /\ url_base (url k) = url_base (url request)
  /\ search (url k) = search (url request)
  /\ fragment (url k) = fragment (url request)
  /\ exists d : string,
       pathname (url k) = pathname (url request) +:+ d
       /\ (b = EmptyString -> d = EmptyString)
       /\ (b <> EmptyString ->
           String.length d = 32%nat /\ all_chars is_lower_hex d = true).
Proof.
  intros Hk. destruct b as [|c b].
  - unfold cacheKeyForRequestAndBody in Hk. cbn in Hk. injection Hk as <-.
    cbn [method headers text url url_base search fragment pathname].
    repeat split. exists EmptyString.
    split; [reflexivity|]. split; [reflexivity|]. intros H. now contradict H.
  - destruct (cacheKey_shape request _ k Hk) as (b' & Hb' & ->).
    cbn [method headers text url url_base search fragment pathname].
    repeat split. rewrite Hb' by reflexivity.
    exists (sha1 b').
    repeat split; try discriminate. apply sha1_all_lower_hex.
Qed.

Lemma cacheKey_is_get_on_extended_path_witness :
  method (mkRequest "GET"
            (mkURL "https://rpc.example"
                   ("/" +:+ sha1 (js "{'id':-1,'method':'status'}"))
                   EmptyString EmptyString)
            [("content-type", "application/json"); ("origin", EmptyString)]
            EmptyString) = "GET".
Proof.
  refine (proj1 (cacheKey_is_get_on_extended_path
                   (example_request "POST" "application/json" EmptyString
                                    status_call)
                   status_call _ _)).
  vm_compute. reflexivity.
Defined.

(** X3. Every key is also the key of the request without a body that
    addresses the URL of the key (lines 36-40: the digest is made part of
    the path, and an empty body adds nothing to it). So a call with a body
    and a plain [GET] of the path that ends in the digest of that body share
    one cache entry. *)
Theorem cacheKey_shared_with_bodiless_request (request : Request) (b : string)
    (k : Request) (m t : string) :
  cacheKeyForRequestAndBody request b = Ok k ->
  cacheKeyForRequestAndBody (mkRequest m (url k) (headers request) t) EmptyString
  = Ok k.
Proof.
  intros Hk. destruct (cacheKey_shape request b k Hk) as (b' & _ & ->).
  unfold cacheKeyForRequestAndBody.
  cbn [truthy String.eqb negb andb rbind url headers url_base pathname search
       fragment].
  now rewrite append_nil_r.
Qed.

Lemma cacheKey_shared_with_bodiless_request_witness :
  cacheKeyForRequestAndBody
    (mkRequest "GET"
       (mkURL "https://rpc.example" "/900150983cd24fb0d6963f7d28e17f72"
              EmptyString EmptyString)
       [("content-type", "text/plain"); ("origin", EmptyString)] EmptyString)
    EmptyString
  = cacheKeyForRequestAndBody
      (example_request "POST" "text/plain" EmptyString "abc") "abc".
Proof.
  refine (eq_trans
            (cacheKey_shared_with_bodiless_request
               (example_request "POST" "text/plain" EmptyString "abc") "abc"
               (mkRequest "GET"
                  (mkURL "https://rpc.example" "/900150983cd24fb0d6963f7d28e17f72"
                         EmptyString EmptyString)
                  [("content-type", "text/plain"); ("origin", EmptyString)]
                  EmptyString)
               "GET" EmptyString _) _).
  - vm_compute. reflexivity.
  - vm_compute. reflexivity.
Defined.

(** ** Payloads that cannot be read *)





(** ** Calls of the origin *)

Lemma fetch_all_hits (origin_fetch : Request -> result Response)
    (request : Request) (w : World) (bodies : list string) (bws : list Entry) :
  rpc_method request = true ->
  bodies_of request = Ok bodies ->
  bodiesWithResponses_of (cache w) request bodies = Ok bws ->
  uncachedBodies_of bws = [] ->
  fetch origin_fetch request w
  = (Resolved (assembled_or_diagnostic (origin_of request) bws), w).
Proof.
  intros Hm Hb Hl Hub.
  rewrite (fetch_rpc _ _ _ Hm), handle_rpc_unfold, (resolve_unfold _ _ _ _ _ Hb Hl).
  rewrite Hub. cbn [length Nat.ltb Nat.leb]. unfold assembled_or_diagnostic.
  destruct (final_response _ _); reflexivity.
Qed.

(** X6. When every call of a [GET] or [POST] is found in the cache (line
    97), the answer is assembled from the cached texts alone: the origin is
    not called and nothing is written to the cache. *)
Theorem all_hits_served_from_cache
    (origin_fetch : Request -> result Response) (request : Request) (w : World)
    (bodies : list string) (bws : list Entry) :
  rpc_method request = true ->
  bodies_of request = Ok bodies ->
  bodiesWithResponses_of (cache w) request bodies = Ok bws ->
  uncachedBodies_of bws = [] ->
  fetch origin_fetch request w
  = (Resolved (assembled_or_diagnostic (origin_of request) bws), w).
Proof.
  intros Hm Hb Hl Hub.
  rewrite (fetch_rpc _ _ _ Hm), handle_rpc_unfold, (resolve_unfold _ _ _ _ _ Hb Hl).
  rewrite Hub. cbn [length Nat.ltb Nat.leb]. unfold assembled_or_diagnostic.
  destruct (final_response _ _); reflexivity.
Qed.

Lemma all_hits_served_from_cache_witness :
  fetch origin_down
        (example_request "POST" "application/json" EmptyString status_call)
        world_with_status_hit
  = (Resolved
       (assembled_or_diagnostic EmptyString
          [mkEntry status_call 0 (Some (js "{'result':'ok'}")) true]),
     world_with_status_hit).
Proof.
  refine (all_hits_served_from_cache origin_down
            (example_request "POST" "application/json" EmptyString status_call)
            world_with_status_hit [status_call]
            [mkEntry status_call 0 (Some (js "{'result':'ok'}")) true] _ _ _ _).
  - vm_compute. reflexivity.
  - vm_compute. reflexivity.
  - vm_compute. reflexivity.
  - vm_compute. reflexivity.
Defined.



(** X8. When exactly one call is not in the cache and the origin answers it
    with a response of content type [text/html] (lines 125-128), that
    response is handed back as it is, also for a batch whose other calls
    were found in the cache: no answer is assembled and nothing is written
    to the cache. *)
Theorem html_reply_returned_verbatim
    (origin_fetch : Request -> result Response) (request : Request) (w : World)
    (bodies : list string) (bws : list Entry) (b : Entry) (ur : Response) :
  rpc_method request = true ->
  bodies_of request = Ok bodies ->
  bodiesWithResponses_of (cache w) request bodies = Ok bws ->
  uncachedBodies_of bws = [b] ->
  origin_fetch (Request_with_body request
                  (if truthy (body b) then Some (body b) else None)) = Ok ur ->
  Headers_get "content-type" (r_headers ur) = Some "text/html" ->
  fetch origin_fetch request w
  = (Resolved ur,
     sent (Request_with_body request
             (if truthy (body b) then Some (body b) else None)) w).
Proof.
  intros Hm Hb Hl Hub Hur Hct.
  rewrite (fetch_rpc _ _ _ Hm), handle_rpc_unfold, (resolve_unfold _ _ _ _ _ Hb Hl).
  rewrite Hub. cbn [length Nat.ltb Nat.leb].
  rewrite dispatch_single. cbv zeta. rewrite Hur.
  destruct (decide _) as [_|Hn]; [reflexivity | contradiction].
Qed.

Lemma html_reply_returned_verbatim_witness :
  fetch (origin_answering_html "<html></html>") three_request world_with_two_hits
  = (Resolved (mkResponse 200 [("content-type", "text/html")]
                          (Some "<html></html>")),
     sent (Request_with_body three_request
             (if truthy (js "{'id':2,'method':'health'}")
              then Some (js "{'id':2,'method':'health'}") else None))
          world_with_two_hits).
Proof.
  refine (html_reply_returned_verbatim (origin_answering_html "<html></html>")
            three_request world_with_two_hits three_bodies three_entries
            (mkEntry (js "{'id':2,'method':'health'}") 1 None false)
            (mkResponse 200 [("content-type", "text/html")] (Some "<html></html>"))
            _ _ _ _ _ _).
  - vm_compute. reflexivity.
  - vm_compute. reflexivity.
  - vm_compute. reflexivity.
  - vm_compute. reflexivity.
  - reflexivity.
  - vm_compute. reflexivity.
Defined.

Lemma dispatch_verbatim_inv (origin_fetch : Request -> result Response)
    (request : Request) (ub : list Entry) (w : World) (ur : Response) :
  fst (dispatch origin_fetch request ub w) = Ok (ReturnVerbatim ur) ->
  Headers_get "content-type" (r_headers ur) = Some "text/html"
  /\ exists req : Request, origin_fetch req = Ok ur.
Proof.
  unfold dispatch, mbind', pure, await_fetch.
  repeat (case_match; cbn [fst snd]); intros Hv; try discriminate Hv;
    injection Hv as <-; eauto.
Qed.

Lemma final_response_status (origin : string) (entries : list Entry)
    (r : Response) :
  final_response origin entries = Ok r -> status r = 200.
Proof.
  unfold final_response. destruct (_ =? _)%nat.
  - destruct entries; intros H; [discriminate H|]. now injection H as <-.
  - destruct (mapM _ _); intros H; [|discriminate H]. now injection H as <-.
Qed.

(** What a [GET] or [POST] is answered with: an assembled response, the
    diagnostic, or a page of the origin. *)
Lemma fetch_rpc_answers (origin_fetch : Request -> result Response)
    (request : Request) (w : World) :
  rpc_method request = true ->
  exists r : Response,
    fst (fetch origin_fetch request w) = Resolved r
    /\ ((exists entries : list Entry,
            final_response (origin_of request) entries = Ok r)
        \/ (exists e : JsError, r = error_response e)
        \/ (Headers_get "content-type" (r_headers r) = Some "text/html"
            /\ exists req : Request, origin_fetch req = Ok r)).
Proof.
  intros Hm. rewrite (fetch_rpc _ _ _ Hm), handle_rpc_unfold.
  destruct (resolve origin_fetch request w) as [[[ur|entries]|e] w'] eqn:Hr.
  - exists ur. split; [reflexivity|]. right. right.
    unfold resolve, mbind', pure in Hr.
    destruct (bodies_of request) as [bodies|e]; [|discriminate Hr].
    destruct (bodiesWithResponses_of _ _ _) as [bws|e]; [|discriminate Hr].
    destruct (0 <? _)%nat; [|discriminate Hr].
    pose proof (dispatch_verbatim_inv origin_fetch request
                  (uncachedBodies_of bws) w) as Hd.
    destruct (dispatch _ _ _ w) as [[[ur'|ur' rs]|e] w1].
    + injection Hr as <- <-. now apply Hd.
    + destruct (store_all _ _ _ _ _ _ w1) as [[updated|e] w2]; discriminate Hr.
    + discriminate Hr.
  - destruct (final_response _ _) as [r|e] eqn:Hf.
    + exists r. split; [reflexivity|]. left. now exists entries.
    + exists (error_response e). split; [reflexivity|]. right. left. now exists e.
  - exists (error_response e). split; [reflexivity|]. right. left. now exists e.
Qed.

(** X9. A [GET] or [POST] is always answered, and with status 200, unless
    the answer is a [text/html] response of the origin handed back as it is:
    the assembled response (lines 157, 168) and the diagnostic (line 225)
    are built without a status, so the status of the origin's reply is not
    passed on. *)
Theorem rpc_answer_is_200_or_html
    (origin_fetch : Request -> result Response) (request : Request) (w : World) :
  rpc_method request = true ->
  exists r : Response,
    fst (fetch origin_fetch request w) = Resolved r
    /\ (status r = 200
        \/ (Headers_get "content-type" (r_headers r) = Some "text/html"
            /\ exists req : Request, origin_fetch req = Ok r)).
Proof.
  intros Hm.
  destruct (fetch_rpc_answers origin_fetch request w Hm)
    as (r & Hr & [[entries Hf] | [[e He] | Hhtml]]);
    exists r; (split; [exact Hr|]).
  - left. exact (final_response_status _ _ _ Hf).
  - left. now rewrite He.
  - now right.
Qed.

Lemma rpc_answer_is_200_or_html_witness :
  exists r : Response,
    fst (fetch (fun _ => Ok (mkResponse 500 [("content-type", "application/json")]
                                        (Some (js "{'error':'down'}"))))
               (example_request "POST" "application/json" EmptyString status_call)
               empty_world) = Resolved r
    /\ (status r = 200
        \/ (Headers_get "content-type" (r_headers r) = Some "text/html"
            /\ exists req : Request,
                 (fun _ : Request =>
                    Ok (mkResponse 500 [("content-type", "application/json")]
                                   (Some (js "{'error':'down'}")))) req = Ok r)).
Proof.
  refine (rpc_answer_is_200_or_html _ _ _ _).
  vm_compute. reflexivity.
Defined.

(** ** What is written to the cache *)

Lemma store_all_puts (request : Request) (ur : Response) (rs : list json)
    (ub : list Entry) :
  forall (k : nat) (bws updated : list Entry) (w w' : World),
    store_all request ur rs ub k bws w = (Ok updated, w') ->
    (k + length ub <= length rs)%nat ->
    exists keys : list string,
      length keys = length ub
      /\ (forall (j : nat) (e : Entry),
             ub !! j = Some e ->
             exists key : Request,
               cacheKeyForRequestAndBody request (body e) = Ok key
               /\ keys !! j = Some (URL_toString (url key)))
      /\ cache_puts w'
         = (cache_puts w ++ zip keys (stored_response ur <$> drop k rs))%list
      /\ cache w' = cache w.
Proof.
  induction ub as [|b rest IH]; intros k bws updated w w' Hs Hlen.
  - injection Hs as _ <-. exists []. repeat split.
    + intros j e Hj. discriminate Hj.
    + cbn [zip zip_with]. now rewrite app_nil_r.
  - cbn [store_all] in Hs. unfold mbind' in Hs.
    destruct (store request ur rs bws b k w) as [[upd|e] w1] eqn:Hst;
      [|discriminate Hs].
    cbn [length] in Hlen.
    destruct (lookup_lt_is_Some_2 rs k ltac:(lia)) as [v Hv].
    unfold store, mbind', pure, cache_put in Hst. rewrite Hv in Hst.
    destruct (cacheKeyForRequestAndBody request (body b)) as [key|e] eqn:Hkey;
      [|discriminate Hst].
    cbn [fmap option_fmap option_map] in Hst.
    assert (Hw1 : w1 = mkWorld
                         (cache w)
                         (origin_calls w)
                         (cache_puts w
                          ++ [(URL_toString (url key), stored_response ur v)])%list).
    { destruct (bws !! index b); injection Hst as _ <-; reflexivity. }
    subst w1.
    destruct (IH (S k) upd updated _ w' Hs ltac:(lia))
      as (keys & Hkl & Hkeys & Hputs & Hcache).
    exists (URL_toString (url key) :: keys).
    rewrite (drop_S _ _ _ Hv). cbn [fmap list_fmap zip zip_with].
    repeat split.
    + cbn [length]. now rewrite Hkl.
    + intros [|j] e Hj.
      * injection Hj as <-. exists key. now split.
      * exact (Hkeys j e Hj).
    + rewrite Hputs. cbn [cache_puts]. now rewrite <- app_assoc.
    + rewrite Hcache. reflexivity.
Qed.

Lemma resolve_stages (origin_fetch : Request -> result Response)
    (request : Request) (w w' : World) (bodies : list string)
    (bws entries : list Entry) :
  bodies_of request = Ok bodies ->
  bodiesWithResponses_of (cache w) request bodies = Ok bws ->
  resolve origin_fetch request w = (Ok (inr entries), w') ->
  (uncachedBodies_of bws = [] /\ w' = w)
  \/ exists (ur : Response) (rs : list json) (w1 : World),
       dispatch origin_fetch request (uncachedBodies_of bws) w
       = (Ok (Fetched ur rs), w1)
       /\ store_all request ur rs (uncachedBodies_of bws) 0 bws w1
          = (Ok entries, w')
       /\ length rs = length (uncachedBodies_of bws)
       /\ cache w1 = cache w /\ cache_puts w1 = cache_puts w.
Proof.
  intros Hb Hl Hr. rewrite (resolve_unfold _ _ _ _ _ Hb Hl) in Hr.
  destruct (0 <? length (uncachedBodies_of bws))%nat eqn:Hpos.
  - right. apply Nat.ltb_lt in Hpos.
    pose proof (dispatch_cache origin_fetch request (uncachedBodies_of bws) w)
      as [Hc Hp].
    destruct (dispatch origin_fetch request (uncachedBodies_of bws) w)
      as [[[ur|ur rs]|e] w1] eqn:Hd; try discriminate Hr.
    cbn [snd] in Hc, Hp.
    pose proof (dispatch_fetched_length _ _ _ _ _ _ _ Hpos Hd) as Hlen.
    destruct (store_all request ur rs (uncachedBodies_of bws) 0 bws w1)
      as [[updated|e] w2] eqn:Hs; [|discriminate Hr].
    injection Hr as <- <-. exists ur, rs, w1. repeat split; assumption.
  - left. apply Nat.ltb_ge in Hpos. injection Hr as _ <-.
    split; [|reflexivity].
    destruct (uncachedBodies_of bws); [reflexivity | cbn [length] in Hpos; lia].
Qed.

(** X10. When a [GET] or [POST] gets as far as the assembly, the cache was
    written once for every call that was not found in it, in the order of
    the calls, and for no other (lines 134-153): the write for a miss is
    under the key of that call and stores the text of its result with the
    status and the headers of the origin's reply and [Cache-Control:
    s-maxage=1] appended. *)
Theorem misses_written_once_under_their_keys
    (origin_fetch : Request -> result Response) (request : Request)
    (w w' : World) (bodies : list string) (bws entries : list Entry) :
  bodies_of request = Ok bodies ->
  bodiesWithResponses_of (cache w) request bodies = Ok bws ->
  resolve origin_fetch request w = (Ok (inr entries), w') ->
  exists (ur : Response) (rs : list json) (keys : list string),
    length rs = length (uncachedBodies_of bws)
    /\ length keys = length (uncachedBodies_of bws)
    /\ (uncachedBodies_of bws <> [] ->
        fst (dispatch origin_fetch request (uncachedBodies_of bws) w)
        = Ok (Fetched ur rs))
    /\ (forall (j : nat) (e : Entry),
           uncachedBodies_of bws !! j = Some e ->
           exists key : Request,
             cacheKeyForRequestAndBody request (body e) = Ok key
             /\ keys !! j = Some (URL_toString (url key)))
    /\ cache_puts w'
       = (cache_puts w ++ zip keys (stored_response ur <$> rs))%list.
Proof.
  intros Hb Hl Hr.
  destruct (resolve_stages _ _ _ _ _ _ _ Hb Hl Hr)
    as [[Hnil ->] | (ur & rs & w1 & Hd & Hs & Hlen & Hc & Hp)].
  - rewrite Hnil. exists (mkResponse 200 [] None), [], [].
    repeat split.
    + intros Hne. now contradict Hne.
    + intros j e Hj. discriminate Hj.
    + cbn [fmap list_fmap zip zip_with]. now rewrite app_nil_r.
  - destruct (store_all_puts _ _ _ _ _ _ _ _ _ Hs ltac:(lia))
      as (keys & Hkl & Hkeys & Hputs & Hcache).
    rewrite drop_0 in Hputs.
    exists ur, rs, keys. rewrite Hputs, Hp, Hd.
    repeat split; auto.
Qed.

Lemma misses_written_once_under_their_keys_witness :
  exists (ur : Response) (rs : list json) (keys : list string),
    length keys = 1%nat
    /\ cache_puts (snd (resolve (origin_answering (js "{'result':'h'}"))
                          three_request world_with_two_hits))
       = ([] ++ zip keys (stored_response ur <$> rs))%list.
Proof.
  destruct (misses_written_once_under_their_keys
              (origin_answering (js "{'result':'h'}")) three_request
              world_with_two_hits
              (snd (resolve (origin_answering (js "{'result':'h'}"))
                      three_request world_with_two_hits))
              three_bodies three_entries three_final_entries)
    as (ur & rs & keys & _ & Hk & _ & _ & Hp).
  - vm_compute. reflexivity.
  - vm_compute. reflexivity.
  - vm_compute. reflexivity.
  - exists ur, rs, keys. split; [exact Hk | exact Hp].
Defined.

Lemma stored_response_truthy (ur : Response) (v : json) :
  wf_json v -> truthy (Response_text (stored_response ur v)) = true.
Proof. apply stringify_truthy. Qed.

Lemma apply_puts_holds (puts : list (string * Response)) :
  forall (c : Cache) (k : string),
    forallb (fun kr => truthy (Response_text (snd kr))) puts = true ->
    holds_text c k \/ (exists r : Response, (k, r) ∈ puts) ->
    holds_text (apply_puts c puts) k.
Proof.
  induction puts as [|[k0 r0] puts IH]; intros c k Hall Hk.
  - destruct Hk as [Hk | [r Hr]]; [exact Hk | inversion Hr].
  - cbn [forallb snd] in Hall. apply andb_true_iff in Hall as [H0 Hall].
    cbn [apply_puts foldl fst snd]. apply IH; [exact Hall|].
    destruct Hk as [(found & Hf & Ht) | [r Hr]].
    + left. destruct (decide (k0 = k)) as [->|Hne].
      * exists r0. rewrite lookup_insert_eq. now split.
      * exists found. now rewrite lookup_insert_ne.
    + apply elem_of_cons in Hr as [Heq | Hin]; [|right; now exists r].
      injection Heq as -> ->. left. exists r0.
      rewrite lookup_insert_eq. now split.
Qed.

Lemma lookup_hit (c : Cache) (request : Request) (b : string) (i : nat)
    (key : Request) :
  cacheKeyForRequestAndBody request b = Ok key ->
  holds_text c (URL_toString (url key)) ->
  exists e : Entry, lookup c request b i = Ok e /\ cached e = true.
Proof.
  intros Hkey (found & Hf & Ht). rewrite (lookup_spec _ _ _ _ _ Hkey).
  unfold cache_match. rewrite Hf. eexists. split; [reflexivity | exact Ht].
Qed.

Lemma mapM_indexed_all {A B : Type} (f : A -> nat -> result B) (P : B -> Prop)
    (l : list A) :
  forall i : nat,
    (forall (j : nat) (a : A),
        l !! j = Some a -> exists b : B, f a (i + j)%nat = Ok b /\ P b) ->
    exists l' : list B, mapM_indexed f i l = Ok l' /\ List.Forall P l'.
Proof.
  induction l as [|a l IH]; intros i H.
  - exists []. split; [reflexivity | constructor].
  - destruct (H 0%nat a eq_refl) as (b & Hb & HP).
    rewrite Nat.add_0_r in Hb.
    destruct (IH (S i)) as (l' & Hl' & Hall).
    { intros j a' Hj. destruct (H (S j) a' Hj) as (b' & Hb' & HP').
      exists b'. split; [|exact HP'].
      now replace (S i + j)%nat with (i + S j)%nat by lia. }
    exists (b :: l'). cbn [mapM_indexed]. rewrite Hb, Hl'.
    split; [reflexivity | now constructor].
Qed.

Lemma all_cached_no_miss (bws : list Entry) :
  List.Forall (fun e => cached e = true) bws -> uncachedBodies_of bws = [].
Proof.
  induction 1 as [|e l He _ IH]; [reflexivity|].
  unfold uncachedBodies_of in *. cbn [List.filter]. now rewrite He.
Qed.

(** X11. Lines 134-153 write each miss under the very key that lines
    79-90 look it up with. So once a [GET] or [POST] got as far as the
    assembly, the same request is answered from the cache alone, without a
    call of the origin and without a write, in every later state of the
    cache that still holds a text under each key that held one before and
    holds one under the key of each write the request issued. *)
Theorem repeated_request_served_from_cache
    (origin_fetch origin_fetch' : Request -> result Response)
    (request : Request) (w w' later : World) (bodies : list string)
    (entries : list Entry) :
  rpc_method request = true ->
  bodies_of request = Ok bodies ->
  resolve origin_fetch request w = (Ok (inr entries), w') ->
  (forall k : string, holds_text (cache w) k -> holds_text (cache later) k) ->
  (forall kr : string * Response,
      kr ∈ drop (length (cache_puts w)) (cache_puts w') ->
      holds_text (cache later) (fst kr)) ->
  exists bws' : list Entry,
    bodiesWithResponses_of (cache later) request bodies = Ok bws'
    /\ List.Forall (fun e => cached e = true) bws'
    /\ fetch origin_fetch' request later
       = (Resolved (assembled_or_diagnostic (origin_of request) bws'), later).
Proof.
  intros Hm Hb Hr Hkept Hwrites.
  destruct (resolve_spec _ _ _ _ _ _ Hb Hr) as (bws & rs0 & Hl & _).
  assert (Hwritten :
            exists (ur : Response) (rs : list json) (keys : list string),
              length rs = length (uncachedBodies_of bws)
              /\ (forall (j : nat) (e : Entry),
                     uncachedBodies_of bws !! j = Some e ->
                     exists key : Request,
                       cacheKeyForRequestAndBody request (body e) = Ok key
                       /\ keys !! j = Some (URL_toString (url key)))
              /\ drop (length (cache_puts w)) (cache_puts w')
                 = zip keys (stored_response ur <$> rs)).
  { destruct (resolve_stages _ _ _ _ _ _ _ Hb Hl Hr)
      as [[Hnil ->] | (ur & rs & w1 & _ & Hs & Hlen & _ & Hp)].
    - rewrite Hnil. exists (mkResponse 200 [] None), [], [].
      repeat split; [intros j e Hj; discriminate Hj|].
      now rewrite drop_all.
    - destruct (store_all_puts _ _ _ _ _ _ _ _ _ Hs ltac:(lia))
        as (keys & _ & Hkeys & Hputs & _).
      rewrite drop_0, Hp in Hputs. exists ur, rs, keys.
      repeat split; [exact Hlen | exact Hkeys|].
      now rewrite Hputs, drop_app_length. }
  destruct Hwritten as (ur & rs & keys & Hrl & Hkeys & Hputs).
  rewrite Hputs in Hwrites.
  destruct (bodiesWithResponses_spec _ _ _ _ Hl) as [Hlen Hall].
  destruct (mapM_indexed_all (lookup (cache later) request)
              (fun e => cached e = true) bodies 0) as (bws' & Hl' & Hhits).
  { intros j b Hj. cbn [Nat.add].
    destruct (lookup_lt_is_Some_2 bws j) as [e He].
    { rewrite Hlen. now apply lookup_lt_Some in Hj. }
    destruct (Hall j e He) as (Hidx & Hbody & Hlook).
    rewrite Hj in Hbody. injection Hbody as ->.
    destruct (lookup_inv _ _ _ _ _ Hlook) as (_ & _ & key & Hkey & Hresp & Hc).
    apply (lookup_hit _ _ _ _ key Hkey).
    destruct (cached e) eqn:Hce.
    - apply Hkept. unfold cache_match in Hresp.
      destruct (cache w !! URL_toString (url key)) as [found|] eqn:Hf.
      + exists found. split; [exact Hf|]. rewrite Hresp in Hc.
        symmetry. exact Hc.
      + rewrite Hresp in Hc. discriminate Hc.
    - assert (Hin : e ∈ uncachedBodies_of bws).
      { apply list_elem_of_In. apply List.filter_In. split.
        - apply list_elem_of_In. now apply list_elem_of_lookup_2 in He.
        - now rewrite Hce. }
      apply list_elem_of_lookup in Hin as [q Hq].
      destruct (Hkeys q e Hq) as (key' & Hkey' & Hkq).
      rewrite Hkey in Hkey'. injection Hkey' as <-.
      destruct (lookup_lt_is_Some_2 rs q) as [v Hv].
      { rewrite Hrl. now apply lookup_lt_Some in Hq. }
      apply (Hwrites (URL_toString (url key), stored_response ur v)).
      apply (list_elem_of_lookup_2 _ q). apply lookup_zip_with_Some.
      exists (URL_toString (url key)), (stored_response ur v).
      repeat split; [exact Hkq|]. now rewrite list_lookup_fmap, Hv. }
  exists bws'. split; [exact Hl' | split; [exact Hhits|]].
  apply (fetch_all_hits _ _ _ bodies bws' Hm Hb Hl').
  now apply all_cached_no_miss.
Qed.

Lemma repeated_request_served_from_cache_witness :
  exists bws' : list Entry,
    bodiesWithResponses_of
      (cache (after_writes
                (snd (resolve (origin_answering (js "{'result':'h'}"))
                        three_request world_with_two_hits))))
      three_request three_bodies = Ok bws'
    /\ List.Forall (fun e => cached e = true) bws'
    /\ fetch origin_down three_request
             (after_writes
                (snd (resolve (origin_answering (js "{'result':'h'}"))
                        three_request world_with_two_hits)))
       = (Resolved (assembled_or_diagnostic (origin_of three_request) bws'),
          after_writes
            (snd (resolve (origin_answering (js "{'result':'h'}"))
                    three_request world_with_two_hits))).
Proof.
  refine (repeated_request_served_from_cache
            (origin_answering (js "{'result':'h'}")) origin_down three_request
            world_with_two_hits
            (snd (resolve (origin_answering (js "{'result':'h'}"))
                    three_request world_with_two_hits))
            (after_writes
               (snd (resolve (origin_answering (js "{'result':'h'}"))
                       three_request world_with_two_hits)))
            three_bodies three_final_entries _ _ _ _ _).
  - vm_compute. reflexivity.
  - vm_compute. reflexivity.
  - vm_compute. reflexivity.
  - intros k Hk. apply apply_puts_holds; [vm_compute; reflexivity|].
    left. exact Hk.
  - intros kr Hin. apply apply_puts_holds; [vm_compute; reflexivity|].
    right. exists (snd kr). destruct kr as [k r]. exact Hin.
Defined.

(** ** Methods that are not served from the cache *)

(** X12. An [OPTIONS] request (lines 191-219) is answered by the worker
    itself, with status 200 and without a body: the origin is not called
    and the cache is left alone. The answer names an allowed origin only if
    it is the [Origin] of the request, that origin passes the allow-list and
    the request asks for a method; the headers it allows are then the ones
    the request asked for. Every other [OPTIONS] request is answered with
    the [Allow] header. *)
Theorem options_answered_locally
    (origin_fetch : Request -> result Response) (request : Request) (w : World) :
  toUpperCase (method request) = "OPTIONS" ->
  exists r : Response,
    fetch origin_fetch request w = (Resolved r, w)
    /\ status r = 200 /\ r_body r = None
    /\ (forall o : string,
           Headers_get "Access-Control-Allow-Origin" (r_headers r) = Some o ->
           o = origin_of request /\ origin_allowed o = true
           /\ Headers_get "Access-Control-Request-Method" (headers request) <> None
           /\ Headers_get "Access-Control-Allow-Headers" (r_headers r)
              = Headers_get "Access-Control-Request-Headers" (headers request))
    /\ (Headers_get "Access-Control-Allow-Origin" (r_headers r) = None ->
        Headers_get "Allow" (r_headers r) = Some "GET, HEAD, POST, OPTIONS").
Proof.
  intros Hm.
  assert (Hrpc : rpc_method request = false).
  { unfold rpc_method. now rewrite Hm. }
  rewrite (fetch_options _ _ _ Hrpc Hm).
  exists (handle_options request (origin_of request)).
  split; [reflexivity|].
  assert (Hplain :
            let r := new_Response None [("Allow", "GET, HEAD, POST, OPTIONS")] in
            status r = 200 /\ r_body r = None
            /\ (forall o : string,
                   Headers_get "Access-Control-Allow-Origin" (r_headers r) = Some o ->
                   o = origin_of request /\ origin_allowed o = true
                   /\ Headers_get "Access-Control-Request-Method" (headers request)
                      <> None
                   /\ Headers_get "Access-Control-Allow-Headers" (r_headers r)
                      = Headers_get "Access-Control-Request-Headers"
                          (headers request))
            /\ (Headers_get "Access-Control-Allow-Origin" (r_headers r) = None ->
                Headers_get "Allow" (r_headers r) = Some "GET, HEAD, POST, OPTIONS")).
  { split; [reflexivity|]. split; [reflexivity|]. split.
    - intros o Heq. vm_compute in Heq. discriminate Heq.
    - intros _. reflexivity. }
  unfold handle_options.
  destruct (truthy (origin_of request)) eqn:Ho; cbn [andb]; [|exact Hplain].
  destruct (bool_decide _) eqn:Hrm; cbn [andb]; [|exact Hplain].
  destruct (Headers_get "Access-Control-Request-Headers" (headers request))
    as [h|] eqn:Hh; cbn [default from_option id]; [|exact Hplain].
  destruct (truthy h) eqn:Hth; cbn [andb]; [|exact Hplain].
  destruct (origin_allowed (origin_of request)) eqn:Ha; [|exact Hplain].
  apply bool_decide_eq_true in Hrm.
  split; [reflexivity|]. split; [reflexivity|]. split.
  - intros o Heq.
    change (Some (origin_of request) = Some o) in Heq. injection Heq as <-.
    repeat split; auto.
  - intros Hn. change (Some (origin_of request) = None) in Hn. discriminate Hn.
Qed.

Lemma options_answered_locally_witness :
  exists r : Response,
    fetch origin_down
          (mkRequest "OPTIONS" example_url
             [("Origin", "https://dao.daodao.zone");
              ("Access-Control-Request-Method", "POST");
              ("Access-Control-Request-Headers", "content-type")]
             EmptyString)
          empty_world
    = (Resolved r, empty_world)
    /\ status r = 200 /\ r_body r = None.
Proof.
  destruct (options_answered_locally origin_down
              (mkRequest "OPTIONS" example_url
                 [("Origin", "https://dao.daodao.zone");
                  ("Access-Control-Request-Method", "POST");
                  ("Access-Control-Request-Headers", "content-type")]
                 EmptyString)
              empty_world)
    as (r & Hf & Hs & Hb & _).
  - vm_compute. reflexivity.
  - exists r. repeat split; assumption.
Defined.

(** X13. A request of any other method ([PUT], [DELETE], [HEAD], ...) is
    sent to the origin as it came, once (line 222), and what the origin
    answers is handed back as it is; the cache is neither read nor
    written. *)
Theorem other_methods_passed_through
    (origin_fetch : Request -> result Response) (request : Request) (w : World)
    (r : Response) :
  rpc_method request = false ->
  toUpperCase (method request) <> "OPTIONS" ->
  origin_fetch request = Ok r ->
  fetch origin_fetch request w
  = (Resolved r,
     mkWorld (cache w) (origin_calls w ++ [request])%list (cache_puts w)).
Proof.
  unfold rpc_method. intros Hm Ho Hr. unfold fetch, try_block. rewrite Hm.
  apply String.eqb_neq in Ho. rewrite Ho.
  unfold await_fetch. rewrite Hr. reflexivity.
Qed.

Lemma other_methods_passed_through_witness :
  fetch (origin_answering (js "{'result':'ok'}"))
        (example_request "HEAD" "application/json" EmptyString EmptyString)
        world_with_status_hit
  = (Resolved (mkResponse 200 [("content-type", "application/json")]
                          (Some (js "{'result':'ok'}"))),
     mkWorld (cache world_with_status_hit)
             (origin_calls world_with_status_hit
              ++ [example_request "HEAD" "application/json" EmptyString
                                  EmptyString])%list
             (cache_puts world_with_status_hit)).
Proof.
  refine (other_methods_passed_through _ _ _ _ _ _ _).
  - vm_compute. reflexivity.
  - vm_compute. discriminate.
  - reflexivity.
Defined.

(** ** The allow-list, read exactly *)

Lemma matches_Chr_inv (c : ascii) (w : string) :
  matches (Chr c) w -> w = String c EmptyString.
Proof. intros H. now inversion H. Qed.

Lemma matches_Dot_inv (w : string) :
  matches Dot w -> exists c : ascii, w = String c EmptyString /\ dot_matches c = true.
Proof. intros H. inversion H; subst. eauto. Qed.

Lemma matches_Lit_inv (s : string) :
  forall w : string, matches (Lit s) w -> w = s.
Proof.
  induction s as [|c s IH]; intros w H; cbn [Lit] in H.
  - now inversion H.
  - inversion H as [| | |r1 r2 s1 s2 H1 H2| | | |]; subst.
    apply matches_Chr_inv in H1 as ->. apply IH in H2 as ->. reflexivity.
Qed.

Lemma matches_Star_Dot (w : string) :
  matches (Star Dot) w -> all_chars dot_matches w = true.
Proof.
  intros H. remember (Star Dot) as r eqn:Hr.
  induction H as [| | | | | | |r' s1 s2 H1 _ H2 IH2]; try discriminate Hr.
  - reflexivity.
  - injection Hr as ->.
    apply matches_Dot_inv in H1 as (c & -> & Hc).
    cbn [String.append all_chars]. now rewrite Hc, IH2.
Qed.

Lemma matches_Plus_Dot (w : string) :
  matches (Plus Dot) w ->
  exists (c : ascii) (rest : string),
    w = String c rest /\ all_chars dot_matches w = true.
Proof.
  intros H. unfold Plus in H.
  inversion H as [| | |r1 r2 s1 s2 H1 H2| | | |]; subst.
  apply matches_Dot_inv in H1 as (c & -> & Hc). apply matches_Star_Dot in H2.
  exists c, s2. cbn [String.append all_chars]. now rewrite Hc, H2.
Qed.

Lemma matches_Plus_Dot_one (c : ascii) :
  dot_matches c = true -> matches (Plus Dot) (String c EmptyString).
Proof.
  intros Hc.
  exact (MSeq Dot (Star Dot) (String c EmptyString) EmptyString
              (MDot c Hc) (MStarNil Dot)).
Qed.

Lemma last_char (c : ascii) (rest : string) :
  all_chars dot_matches (String c rest) = true ->
  exists (init : string) (z : ascii),
    String c rest = init +:+ String z EmptyString /\ dot_matches z = true.
Proof.
  revert c. induction rest as [|d rest IH]; intros c H.
  - exists EmptyString, c. cbn [all_chars] in H.
    apply andb_true_iff in H as [Hc _]. now split.
  - cbn [all_chars] in H. apply andb_true_iff in H as [_ H].
    destruct (IH d H) as (init & z & Heq & Hz).
    exists (String c init), z. cbn [String.append]. now rewrite Heq.
Qed.

(** X14. What the three patterns of lines 13-17 accept, as [test] applies
    them in lines 162, 184 and 201: an origin passes exactly when it
    contains [localhost:] followed by a character, or contains
    [daodao.zone], or contains [-da0da0.vercel.app] preceded by a character
    (a character other than a line break). Nothing ties the match to the
    scheme, to the start or to the end of the host. *)
Theorem origin_allowed_exactly (origin : string) :
  origin_allowed origin = true
  <-> (exists (p q : string) (c : ascii),
          origin = p +:+ "localhost:" +:+ String c q /\ dot_matches c = true)
      \/ (exists p q : string, origin = p +:+ "daodao.zone" +:+ q)
      \/ (exists (p q : string) (c : ascii),
             origin = p +:+ String c ("-da0da0.vercel.app" +:+ q)
             /\ dot_matches c = true).
Proof.
  unfold origin_allowed, ALLOWED_ORIGINS. cbn [existsb].
  rewrite orb_false_r, !orb_true_iff, !test_spec. split.
  - intros [H | [H | H]]; destruct H as (p & w & q & -> & Hw).
    + left. inversion Hw as [| | |r1 r2 s1 s2 H1 H2| | | |]; subst.
      apply (matches_Lit_inv "localhost:") in H1 as ->.
      apply matches_Plus_Dot in H2 as (c & rest & -> & Hall).
      cbn [all_chars] in Hall. apply andb_true_iff in Hall as [Hc _].
      exists p, (rest +:+ q), c. split; [reflexivity | exact Hc].
    + right. left. inversion Hw as [| | |r1 r2 s1 s2 H1 H2| | | |]; subst.
      apply (matches_Lit_inv "daodao.zone") in H2 as ->.
      exists (p +:+ s1), q. now rewrite !append_assoc.
    + right. right. inversion Hw as [| | |r1 r2 s1 s2 H1 H2| | | |]; subst.
      apply (matches_Lit_inv "-da0da0.vercel.app") in H2 as ->.
      apply matches_Plus_Dot in H1 as (c & rest & -> & Hall).
      destruct (last_char c rest Hall) as (init & z & -> & Hz).
      exists (p +:+ init), q, z. split; [|exact Hz].
      rewrite !append_assoc. reflexivity.
  - intros [(p & q & c & -> & Hc) | [(p & q & ->) | (p & q & c & -> & Hc)]].
    + left. exists p, ("localhost:" +:+ String c EmptyString), q. split.
      * reflexivity.
      * apply MSeq; [apply matches_Lit | now apply matches_Plus_Dot_one].
    + right. left. exists p, "daodao.zone", q. split; [reflexivity|].
      apply (MSeq _ _ EmptyString "daodao.zone"); [|apply matches_Lit].
      apply MAltR, MEps.
    + right. right.
      exists p, (String c EmptyString +:+ "-da0da0.vercel.app"), q. split.
      * reflexivity.
      * apply MSeq; [now apply matches_Plus_Dot_one | apply matches_Lit].
Qed.

(** ** The CORS header of an answer *)

Lemma final_response_cors (origin : string) (entries : list Entry)
    (r : Response) :
  final_response origin entries = Ok r ->
  Headers_get "Access-Control-Allow-Origin" (r_headers r)
  = if origin_allowed origin then Some origin else None.
Proof.
  unfold final_response, cors.
  destruct (length entries =? 1)%nat.
  - destruct entries as [|first rest]; [discriminate|].
    intros H. injection H as <-.
    destruct (origin_allowed origin), (response first); reflexivity.
  - destruct (mapM response_value entries) as [values|]; [|discriminate].
    cbn [rbind]. intros H. injection H as <-.
    destruct (origin_allowed origin); reflexivity.
Qed.

(** X15. The answer to a [GET] or [POST] names an allowed origin only if it
    is the [Origin] of the request and passes the allow-list (lines 162-164
    and 184-186), or if the answer is a page of the origin handed back as it
    is. The diagnostic of the [catch] block (line 225) never carries the
    header, whatever the origin of the request. *)
Theorem cors_header_only_for_allowed_origin
    (origin_fetch : Request -> result Response) (request : Request) (w : World)
    (r : Response) (o : string) :
  rpc_method request = true ->
  fst (fetch origin_fetch request w) = Resolved r ->
  Headers_get "Access-Control-Allow-Origin" (r_headers r) = Some o ->
  (o = origin_of request /\ origin_allowed o = true
   /\ exists entries : list Entry,
        final_response (origin_of request) entries = Ok r)
  \/ (Headers_get "content-type" (r_headers r) = Some "text/html"
      /\ exists req : Request, origin_fetch req = Ok r).
Proof.
  intros Hm Hr Ho.
  destruct (fetch_rpc_answers origin_fetch request w Hm)
    as (r' & Hr' & [[entries Hf] | [[e He] | Hhtml]]);
    rewrite Hr in Hr'; injection Hr' as ->.
  - left. rewrite (final_response_cors _ _ _ Hf) in Ho.
    destruct (origin_allowed (origin_of request)) eqn:Ha; [|discriminate Ho].
    injection Ho as <-. repeat split; [exact Ha | now exists entries].
  - rewrite He in Ho. vm_compute in Ho. discriminate Ho.
  - now right.
Qed.

Lemma cors_header_only_for_allowed_origin_witness :
  ("https://dao.daodao.zone" = origin_of three_request
   /\ origin_allowed "https://dao.daodao.zone" = true
   /\ exists entries : list Entry,
        final_response (origin_of three_request) entries = Ok three_response)
  \/ (Headers_get "content-type" (r_headers three_response) = Some "text/html"
      /\ exists req : Request,
           origin_answering (js "{'result':'h'}") req = Ok three_response).
Proof.
  refine (cors_header_only_for_allowed_origin
            (origin_answering (js "{'result':'h'}")) three_request
            world_with_two_hits three_response "https://dao.daodao.zone" _ _ _).
  - vm_compute. reflexivity.
  - vm_compute. reflexivity.
  - vm_compute. reflexivity.
Defined.

(** ** Batches *)

Lemma omap_total_lookup {A B : Type} (f : A -> option B) (l : list A) :
  (forall a : A, a ∈ l -> is_Some (f a)) ->
  length (omap f l) = length l
  /\ forall (j : nat) (a : A), l !! j = Some a -> omap f l !! j = f a.
Proof.
  induction l as [|a l IH]; intros H.
  - split; [reflexivity|]. intros j a Hj. discriminate Hj.
  - destruct (H a) as [b Hb]; [now left|].
    destruct IH as [Hlen Hlk]; [intros a' Ha'; apply H; now right|].
    cbn [omap list_omap]. rewrite Hb. cbn [length]. split; [now rewrite Hlen|].
    intros [|j] a' Hj.
    + injection Hj as <-. now rewrite Hb.
    + exact (Hlk j a' Hj).
Qed.

(** X16. When more than one call of a batch is not in the cache, the origin
    is called once, with the JSON array of exactly those calls, in the order
    of the batch and each as it was sent (lines 101-106): the calls found in
    the cache are left out, and the [id] of a call is not the [-1] of its
    key. *)
Theorem misses_rebatched_in_order
    (origin_fetch : Request -> result Response) (request : Request) (w : World)
    (elems : list json) (bws : list Entry) :
  rpc_method request = true ->
  Headers_get "content-type" (headers request) = Some "application/json" ->
  JSON.parse (text request) = Some (JArr elems) ->
  bodiesWithResponses_of (cache w) request (JSON_stringify <$> elems) = Ok bws ->
  (1 < length (uncachedBodies_of bws))%nat ->
  exists calls : list json,
    origin_calls (snd (fetch origin_fetch request w))
    = (origin_calls w
       ++ [mkRequest (method request) (url request) (headers request)
                     (JSON_stringify (JArr calls))])%list
    /\ length calls = length (uncachedBodies_of bws)
    /\ forall (j : nat) (e : Entry),
         uncachedBodies_of bws !! j = Some e ->
         cached e = false
         /\ exists call : json,
              elems !! index e = Some call
              /\ body e = JSON_stringify call
              /\ calls !! j = Some call.
Proof.
  intros Hm Hct Hp Hl Hub. exists (missed_calls elems bws).
  split; [exact (batch_request_sent _ _ _ _ _ Hm Hct Hp Hl Hub)|].
  destruct (bodiesWithResponses_spec _ _ _ _ Hl) as [_ Hall].
  assert (Hcall : forall e : Entry,
             e ∈ uncachedBodies_of bws ->
             cached e = false
             /\ exists call : json,
                  elems !! index e = Some call /\ body e = JSON_stringify call).
  { intros e He. apply list_elem_of_In, List.filter_In in He as [He Hc].
    split; [now destruct (cached e)|].
    apply list_elem_of_In, list_elem_of_lookup in He as [i Hi].
    destruct (Hall i e Hi) as (Hidx & Hbody & _).
    rewrite list_lookup_fmap in Hbody.
    destruct (elems !! i) as [call|] eqn:Hcall; [|discriminate Hbody].
    injection Hbody as Hbody. exists call. now rewrite Hidx. }
  destruct (omap_total_lookup (fun b => elems !! index b) (uncachedBodies_of bws))
    as [Hlen Hlk].
  { intros e He. destruct (Hcall e He) as (_ & call & Hc & _). now exists call. }
  split; [exact Hlen|]. intros j e Hj.
  destruct (Hcall e (list_elem_of_lookup_2 _ _ _ Hj)) as (Hc & call & Hi & Hb).
  split; [exact Hc|]. exists call. repeat split; try assumption.
  unfold missed_calls. now rewrite (Hlk j e Hj).
Qed.

Lemma misses_rebatched_in_order_witness :
  exists calls : list json,
    origin_calls
      (snd (fetch (origin_answering (js "[{'result':'ok'},{'result':'h'}]"))
              (example_request "POST" "application/json" EmptyString two_calls)
              empty_world))
    = ([] ++ [mkRequest "POST" example_url
                [("content-type", "application/json"); ("origin", EmptyString)]
                (JSON_stringify (JArr calls))])%list
    /\ length calls = 2%nat.
Proof.
  destruct (misses_rebatched_in_order
              (origin_answering (js "[{'result':'ok'},{'result':'h'}]"))
              (example_request "POST" "application/json" EmptyString two_calls)
              empty_world
              [JObj [("id", JNum 1); ("method", JStr "status")];
               JObj [("id", JNum 2); ("method", JStr "health")]]
              two_misses)
    as (calls & Hsent & Hlen & _).
  - vm_compute. reflexivity.
  - vm_compute. reflexivity.
  - vm_compute. reflexivity.
  - vm_compute. reflexivity.
  - vm_compute. lia.
  - exists calls. split; [exact Hsent | exact Hlen].
Defined.

(** X17. An empty batch (the payload [[]] of type [application/json]) is
    answered with the empty array and an empty list of hits: there is
    nothing to look up, the origin is not called and the cache is left
    alone (lines 66-67, 97 and 167-189). *)
Theorem empty_batch_answered_empty
    (origin_fetch : Request -> result Response) (request : Request) (w : World) :
  rpc_method request = true ->
  Headers_get "content-type" (headers request) = Some "application/json" ->
  JSON.parse (text request) = Some (JArr []) ->
  fetch origin_fetch request w
  = (Resolved
       (mkResponse 200
          ([("Content-Type", "application/json"); ("Cached", "[]")]
           ++ cors (origin_of request))%list
          (Some "[]")),
     w).
Proof.
  intros Hm Hct Hp.
  rewrite (fetch_all_hits origin_fetch request w [] [] Hm
             (bodies_of_batch request [] Hct Hp) eq_refl eq_refl).
  reflexivity.
Qed.

Lemma empty_batch_answered_empty_witness :
  fetch origin_down
        (example_request "POST" "application/json" EmptyString "[]") empty_world
  = (Resolved
       (mkResponse 200
          ([("Content-Type", "application/json"); ("Cached", "[]")]
           ++ cors (origin_of (example_request "POST" "application/json"
                                               EmptyString "[]")))%list
          (Some "[]")),
     empty_world).
Proof.
  refine (empty_batch_answered_empty _ _ _ _ _ _).
  - vm_compute. reflexivity.
  - vm_compute. reflexivity.
  - vm_compute. reflexivity.
Defined.

(** ** When the cache is written, and what is forwarded *)

Lemma dispatch_fetched_inv (origin_fetch : Request -> result Response)
    (request : Request) (ub : list Entry) (w w1 : World) (ur : Response)
    (rs : list json) :
  dispatch origin_fetch request ub w = (Ok (Fetched ur rs), w1) ->
  exists (b : option string) (v : json),
    origin_fetch (Request_with_body request b) = Ok ur
    /\ Response_json ur = Ok v
    /\ origin_calls w1 = (origin_calls w ++ [Request_with_body request b])%list.
Proof.
  unfold dispatch, mbind', pure, await_fetch.
  repeat (case_match; cbn [fst snd]); intros Hv; try discriminate Hv;
    injection Hv as <- <- <-; cbn [origin_calls]; eauto.
Qed.

(** X18. The cache is written only once the origin has answered with a
    JSON text: whatever the request, either the cache is as it was and no
    write was issued, or the one request sent to the origin was answered
    with a response whose body parses (lines 107, 130 and 134-153). A
    failure of the origin, a reply that is not JSON and a request that is
    not answered from its entries leave the cache alone. *)
Theorem cache_written_only_after_json_reply
    (origin_fetch : Request -> result Response) (request : Request) (w : World) :
  (cache (snd (fetch origin_fetch request w)) = cache w
   /\ cache_puts (snd (fetch origin_fetch request w)) = cache_puts w)
  \/ exists (req : Request) (ur : Response) (v : json),
       origin_fetch req = Ok ur /\ Response_json ur = Ok v
       /\ origin_calls (snd (fetch origin_fetch request w))
          = (origin_calls w ++ [req])%list.
Proof.
  destruct (rpc_method request) eqn:Hm.
  - rewrite (fetch_rpc _ _ _ Hm), handle_rpc_unfold.
    unfold resolve, mbind', pure.
    destruct (bodies_of request) as [bodies|e]; [|now left].
    destruct (bodiesWithResponses_of _ _ _) as [bws|e]; [|now left].
    destruct (0 <? _)%nat;
      [|destruct (final_response _ _); now left].
    pose proof (dispatch_cache origin_fetch request (uncachedBodies_of bws) w)
      as Hc.
    destruct (dispatch _ _ _ w) as [[[ur|ur rs]|e] w1] eqn:Hd;
      cbn [snd] in Hc |- *; try (now left).
    right.
    destruct (dispatch_fetched_inv _ _ _ _ _ _ _ Hd) as (b & v & Hur & Hv & Hcalls).
    exists (Request_with_body request b), ur, v.
    split; [exact Hur | split; [exact Hv|]].
    pose proof (store_all_origin_calls request ur rs (uncachedBodies_of bws)
                  0 bws w1) as Hs.
    destruct (store_all _ _ _ _ _ _ w1) as [[updated|e] w2]; cbn [snd] in Hs |- *.
    + destruct (final_response _ _); cbn [snd]; now rewrite Hs.
    + now rewrite Hs.
  - left. unfold rpc_method in Hm. unfold fetch, try_block. rewrite Hm.
    destruct (String.eqb _ "OPTIONS"); [now split|].
    unfold await_fetch. destruct (origin_fetch request); now split.
Qed.




(** X20. A hit is answered with the cached text whatever the [id] of the
    call: two single calls on one URL with the same headers that are equal
    but for their [id] get, while the result of the first is in the cache,
    the very same answer, the text that was stored (lines 83-90 and
    157-166). The answer is not rewritten for the [id] of the call it is
    given to. *)
Theorem hit_answered_whatever_the_id
    (origin_fetch1 origin_fetch2 : Request -> result Response)
    (m1 m2 t1 t2 : string) (u : URL) (h : Headers) (w : World)
    (o : list (string * json)) (x : json) (e1 : Entry) :
  rpc_method (mkRequest m1 u h t1) = true ->
  rpc_method (mkRequest m2 u h t2) = true ->
  Headers_get "content-type" h = Some "application/json" ->
  JSON.parse t1 = Some (JObj o) ->
  JSON.obj_has "id" o = true ->
  JSON.parse t2 = Some (JObj (JSON.obj_set "id" x o)) ->
  lookup (cache w) (mkRequest m1 u h t1) (JSON_stringify (JObj o)) 0 = Ok e1 ->
  cached e1 = true ->
  let answer :=
    new_Response (response e1)
      ([("Content-Type", "application/json"); ("Cached", "true")]
       ++ cors (origin_of (mkRequest m1 u h t1)))%list in
  fetch origin_fetch1 (mkRequest m1 u h t1) w = (Resolved answer, w)
  /\ fetch origin_fetch2 (mkRequest m2 u h t2) w = (Resolved answer, w).
Proof.
  intros Hm1 Hm2 Hct H1 Hid H2 Hlook Hc answer.
  pose proof (cacheKey_of_parsed_object (mkRequest m1 u h t1) t1 o H1 Hid) as Hk1.
  pose proof (cacheKey_of_parsed_object (mkRequest m2 u h t2) t2 _ H2
                (obj_has_set "id" x o Hid)) as Hk2.
  rewrite (obj_set_set "id" (JNum (-1)) x o Hid) in Hk2.
  cbn [url headers] in Hk1, Hk2.
  pose proof (lookup_spec (cache w) _ _ 0%nat _ Hk1) as Hl1.
  pose proof (lookup_spec (cache w) _ _ 0%nat _ Hk2) as Hl2.
  rewrite Hlook in Hl1. injection Hl1 as He1.
  assert (Hl2' : lookup (cache w) (mkRequest m2 u h t2)
                   (JSON_stringify (JObj (JSON.obj_set "id" x o))) 0
                 = Ok (mkEntry (JSON_stringify (JObj (JSON.obj_set "id" x o))) 0
                               (response e1) (cached e1))).
  { rewrite Hl2, He1. reflexivity. }
  split.
  - rewrite (fetch_all_hits origin_fetch1 _ w
               [JSON_stringify (JObj o)] [e1] Hm1).
    + unfold assembled_or_diagnostic, final_response.
      cbn [length Nat.eqb]. rewrite Hc. reflexivity.
    + unfold bodies_of, Request_json, JSON_parse. cbn [headers text].
      rewrite H1. destruct (decide _) as [_|Hn]; [reflexivity | contradiction].
    + unfold bodiesWithResponses_of. cbn [mapM_indexed]. rewrite Hlook.
      reflexivity.
    + unfold uncachedBodies_of. cbn [List.filter]. now rewrite Hc.
  - rewrite (fetch_all_hits origin_fetch2 _ w
               [JSON_stringify (JObj (JSON.obj_set "id" x o))]
               [mkEntry (JSON_stringify (JObj (JSON.obj_set "id" x o))) 0
                        (response e1) (cached e1)] Hm2).
    + unfold assembled_or_diagnostic, final_response.
      cbn [length Nat.eqb response cached]. rewrite Hc. reflexivity.
    + unfold bodies_of, Request_json, JSON_parse. cbn [headers text].
      rewrite H2. destruct (decide _) as [_|Hn]; [reflexivity | contradiction].
    + unfold bodiesWithResponses_of. cbn [mapM_indexed]. rewrite Hl2'.
      reflexivity.
    + unfold uncachedBodies_of. cbn [List.filter cached]. now rewrite Hc.
Qed.

Lemma hit_answered_whatever_the_id_witness :
  let answer :=
    new_Response
      (response (mkEntry status_call 0 (Some (js "{'result':'ok'}")) true))
      ([("Content-Type", "application/json"); ("Cached", "true")]
       ++ cors (origin_of (mkRequest "POST" example_url
                             [("content-type", "application/json")]
                             status_call)))%list in
  fetch origin_down
        (mkRequest "POST" example_url [("content-type", "application/json")]
                   status_call)
        world_with_status_hit
  = (Resolved answer, world_with_status_hit)
  /\ fetch origin_down
           (mkRequest "POST" example_url [("content-type", "application/json")]
                      (js "{'id':77,'method':'status'}"))
           world_with_status_hit
     = (Resolved answer, world_with_status_hit).
Proof.
  refine (hit_answered_whatever_the_id origin_down origin_down
            "POST" "POST" status_call (js "{'id':77,'method':'status'}")
            example_url [("content-type", "application/json")]
            world_with_status_hit
            [("id", JNum 1); ("method", JStr "status")] (JNum 77)
            (mkEntry status_call 0 (Some (js "{'result':'ok'}")) true)
            _ _ _ _ _ _ _ _).
  - vm_compute. reflexivity.
  - vm_compute. reflexivity.
  - vm_compute. reflexivity.
  - vm_compute. reflexivity.
  - vm_compute. reflexivity.
  - vm_compute. reflexivity.
  - vm_compute. reflexivity.
  - reflexivity.
Defined.

(** ** Where a diagnostic comes from *)










Lemma store_all_succeeds (c : Cache) (request : Request) (bodies : list string)
    (bws : list Entry) (ur : Response) (rs : list json) (w : World) :
  bodiesWithResponses_of c request bodies = Ok bws ->
  exists (updated : list Entry) (w' : World),
    store_all request ur rs (uncachedBodies_of bws) 0 bws w = (Ok updated, w').
Proof.
  intros Hl. destruct (bodiesWithResponses_spec _ _ _ _ Hl) as [_ Hall].
  destruct (store_all_spec request ur rs bws [] 0 w) as (w' & Hs & _).
  - intros j e' Hj. now destruct (Hall j e' Hj) as (-> & _).
  - intros e' Hin. apply list_elem_of_In, list_elem_of_lookup in Hin as [j Hj].
    destruct (Hall j e' Hj) as (_ & _ & Hlook).
    destruct (lookup_inv _ _ _ _ _ Hlook) as (_ & _ & key & Hkey & _).
    now exists key.
  - cbn [app] in Hs. eauto.
Qed.



(** ** The text of a JSON payload *)

Lemma store_all_same_key (m u h t1 t2 : _) (ur : Response) (rs : list json)
    (ub : list Entry) :
  forall (k : nat) (bws : list Entry) (w : World),
    store_all (mkRequest m u h t1) ur rs ub k bws w
    = store_all (mkRequest m u h t2) ur rs ub k bws w.
Proof.
  induction ub as [|b rest IH]; intros k bws w; [reflexivity|].
  cbn [store_all]. unfold mbind'.
  change (store (mkRequest m u h t2) ur rs bws b k w)
    with (store (mkRequest m u h t1) ur rs bws b k w).
  destruct (store _ _ _ _ _ _ w) as [[upd|e] w1]; [apply IH | reflexivity].
Qed.

Lemma dispatch_same_body (origin_fetch : Request -> result Response)
    (m u h t1 t2 : _) (ub : list Entry) (w : World) :
  (forall e : Entry, e ∈ ub -> truthy (body e) = true) ->
  dispatch origin_fetch (mkRequest m u h t1) ub w
  = dispatch origin_fetch (mkRequest m u h t2) ub w.
Proof.
  intros Ht. unfold dispatch. destruct (1 <? length ub)%nat; [reflexivity|].
  destruct ub as [|first rest]; [reflexivity|].
  rewrite (Ht first) by now left. reflexivity.
Qed.

(** X22. Of a payload of type [application/json] only the JSON value
    counts, not its text: two [GET] or [POST] requests with the same method,
    URL and headers whose bodies are two texts of one JSON value (spaced or
    escaped differently) are handled alike in every respect: same keys, same
    request to the origin, same writes, same answer. What the origin
    receives is the text that [JSON.stringify] gives the value (lines
    63-69). *)
Theorem json_payload_read_as_value
    (origin_fetch : Request -> result Response) (m t1 t2 : string) (u : URL)
    (h : Headers) (w : World) (v : json) :
  rpc_method (mkRequest m u h t1) = true ->
  Headers_get "content-type" h = Some "application/json" ->
  JSON.parse t1 = Some v ->
  JSON.parse t2 = Some v ->
  fetch origin_fetch (mkRequest m u h t1) w
  = fetch origin_fetch (mkRequest m u h t2) w.
Proof.
  intros Hm Hct H1 H2.
  assert (Hm2 : rpc_method (mkRequest m u h t2) = true) by exact Hm.
  rewrite (fetch_rpc _ _ _ Hm), (fetch_rpc _ _ _ Hm2), !handle_rpc_unfold.
  change (origin_of (mkRequest m u h t2)) with (origin_of (mkRequest m u h t1)).
  assert (Hb : exists bodies : list string,
             bodies_of (mkRequest m u h t1) = Ok bodies
             /\ bodies_of (mkRequest m u h t2) = Ok bodies
             /\ forall b : string, b ∈ bodies -> truthy b = true).
  { unfold bodies_of, Request_json, JSON_parse. cbn [headers text].
    rewrite H1, H2. destruct (decide _) as [_|Hn]; [|contradiction].
    pose proof (JSON_parse_wf _ _ H1) as Hwf.
    cbn [rbind]. destruct v as [|b0|z|negative ds E|s|elems|o];
      try (eexists; split; [reflexivity|]; split; [reflexivity|];
           intros b Hin; apply list_elem_of_singleton in Hin as ->;
           apply stringify_truthy; exact Hwf).
    exists (JSON_stringify <$> elems). split; [reflexivity|].
    split; [reflexivity|]. intros b Hin.
    apply list_elem_of_fmap in Hin as (x & -> & Hx).
    apply list_elem_of_lookup in Hx as [j Hj].
    apply stringify_truthy. exact (parsed_call_wf _ _ _ _ H1 Hj). }
  destruct Hb as (bodies & Hb1 & Hb2 & Htruthy).
  assert (Hres : resolve origin_fetch (mkRequest m u h t1) w
                 = resolve origin_fetch (mkRequest m u h t2) w).
  { unfold resolve, mbind', pure. rewrite Hb1, Hb2.
    change (bodiesWithResponses_of (cache w) (mkRequest m u h t2) bodies)
      with (bodiesWithResponses_of (cache w) (mkRequest m u h t1) bodies).
    destruct (bodiesWithResponses_of (cache w) (mkRequest m u h t1) bodies)
      as [bws|e] eqn:Hl; [|reflexivity].
    destruct (0 <? _)%nat; [|reflexivity].
    rewrite (dispatch_same_body origin_fetch m u h t1 t2).
    - destruct (dispatch _ _ _ w) as [[[ur|ur rs]|e] w1]; try reflexivity.
      now rewrite (store_all_same_key m u h t1 t2).
    - intros e He. apply list_elem_of_In, List.filter_In in He as [He _].
      apply list_elem_of_In, list_elem_of_lookup in He as [j Hj].
      destruct (bodiesWithResponses_spec _ _ _ _ Hl) as [_ Hall].
      destruct (Hall j e Hj) as (_ & Hbody & _).
      apply Htruthy. exact (list_elem_of_lookup_2 _ _ _ Hbody). }
  now rewrite Hres.
Qed.

Lemma json_payload_read_as_value_witness :
  fetch (origin_answering (js "{'result':'ok'}"))
        (mkRequest "POST" example_url [("content-type", "application/json")]
                   status_call)
        empty_world
  = fetch (origin_answering (js "{'result':'ok'}"))
          (mkRequest "POST" example_url [("content-type", "application/json")]
                     (js " { 'id' : 1 , 'method' : 'status' } "))
          empty_world.
Proof.
  refine (json_payload_read_as_value _ "POST" status_call
            (js " { 'id' : 1 , 'method' : 'status' } ") example_url
            [("content-type", "application/json")] empty_world
            (JObj [("id", JNum 1); ("method", JStr "status")]) _ _ _ _).
  - vm_compute. reflexivity.
  - vm_compute. reflexivity.
  - vm_compute. reflexivity.
  - vm_compute. reflexivity.
Defined.

(** ** Replies that are not JSON, and what stays in the cache *)



(** What a request does to the cache: it leaves what it reads as it is, and
    every write it hands to the platform stores the text of a JSON value. *)
Lemma fetch_writes (origin_fetch : Request -> result Response)
    (request : Request) (w : World) :
  cache (snd (fetch origin_fetch request w)) = cache w
  /\ exists (keys : list string) (ur : Response) (rs : list json),
       List.Forall wf_json rs
       /\ cache_puts (snd (fetch origin_fetch request w))
          = (cache_puts w ++ zip keys (stored_response ur <$> rs))%list.
Proof.
  assert (Hnone : forall w0 : World,
             cache w0 = cache w -> cache_puts w0 = cache_puts w ->
             cache w0 = cache w
             /\ exists (keys : list string) (ur : Response) (rs : list json),
                  List.Forall wf_json rs
                  /\ cache_puts w0
                     = (cache_puts w ++ zip keys (stored_response ur <$> rs))%list).
  { intros w0 Hc Hp. split; [exact Hc|].
    exists [], (mkResponse 200 [] None), []. split; [constructor|].
    now rewrite Hp, app_nil_r. }
  destruct (rpc_method request) eqn:Hm.
  - rewrite (fetch_rpc _ _ _ Hm), handle_rpc_unfold.
    unfold resolve, mbind', pure.
    destruct (bodies_of request) as [bodies|e]; [|now apply Hnone].
    destruct (bodiesWithResponses_of _ _ _) as [bws|e] eqn:Hl;
      [|now apply Hnone].
    destruct (0 <? length (uncachedBodies_of bws))%nat eqn:Hpos;
      [|destruct (final_response _ _); now apply Hnone].
    apply Nat.ltb_lt in Hpos.
    pose proof (dispatch_cache origin_fetch request (uncachedBodies_of bws) w)
      as [Hc Hp].
    destruct (dispatch _ _ _ w) as [[[ur|ur rs]|e] w1] eqn:Hd;
      cbn [snd] in Hc, Hp |- *; try (now apply Hnone).
    pose proof (dispatch_fetched_length _ _ _ _ _ _ _ Hpos Hd) as Hlen.
    pose proof (dispatch_fetched_wf _ _ _ _ _ _ _ Hd) as Hwf.
    destruct (store_all request ur rs (uncachedBodies_of bws) 0 bws w1)
      as [[updated|e] w2] eqn:Hs.
    + destruct (store_all_puts _ _ _ _ _ _ _ _ _ Hs ltac:(lia))
        as (keys & _ & _ & Hputs & Hcache).
      rewrite drop_0, Hp in Hputs. rewrite Hc in Hcache.
      assert (Hw2 : cache w2 = cache w
                    /\ exists (keys : list string) (ur : Response)
                         (rs : list json),
                         List.Forall wf_json rs
                         /\ cache_puts w2
                            = (cache_puts w
                               ++ zip keys (stored_response ur <$> rs))%list).
      { split; [exact Hcache|]. now exists keys, ur, rs. }
      destruct (final_response _ _); exact Hw2.
    + destruct (store_all_succeeds _ _ _ _ ur rs w1 Hl) as (updated & w3 & Hs').
      rewrite Hs' in Hs. discriminate Hs.
  - unfold rpc_method in Hm. unfold fetch, try_block. rewrite Hm.
    destruct (String.eqb _ "OPTIONS"); [now apply Hnone|].
    unfold await_fetch. destruct (origin_fetch request); now apply Hnone.
Qed.

(** X24. No request takes a result out of the cache: a key under which the
    cache holds a text that is not empty still holds one after the request,
    whatever the request and whatever the origin answers. The handler has no
    way to delete; it only hands writes to the platform (line 148), and what
    each of them stores is the text of a JSON value, which is never empty. *)
Theorem cached_results_stay_cached
    (origin_fetch : Request -> result Response) (request : Request) (w : World)
    (k : string) :
  holds_text (cache w) k ->
  holds_text (cache (snd (fetch origin_fetch request w))) k
  /\ forall kr : string * Response,
       kr ∈ drop (length (cache_puts w))
                 (cache_puts (snd (fetch origin_fetch request w))) ->
       truthy (Response_text (snd kr)) = true.
Proof.
  intros Hk.
  destruct (fetch_writes origin_fetch request w)
    as (Hc & keys & ur & rs & Hwf & Hp).
  rewrite Hc, Hp, drop_app_length. split; [exact Hk|].
  intros [k' r] Hin. apply elem_of_zip_r in Hin. cbn [snd].
  apply list_elem_of_fmap in Hin as (v & -> & Hv).
  apply stored_response_truthy.
  rewrite List.Forall_forall in Hwf. now apply Hwf, list_elem_of_In.
Qed.

Lemma cached_results_stay_cached_witness :
  holds_text
    (cache (snd (fetch (origin_answering (js "{'result':'h'}"))
                   (example_request "POST" "application/json" EmptyString
                                    (js "{'id':2,'method':'health'}"))
                   world_with_status_hit)))
    status_key
  /\ forall kr : string * Response,
       kr ∈ drop (length (cache_puts world_with_status_hit))
                 (cache_puts
                    (snd (fetch (origin_answering (js "{'result':'h'}"))
                            (example_request "POST" "application/json"
                               EmptyString (js "{'id':2,'method':'health'}"))
                            world_with_status_hit))) ->
       truthy (Response_text (snd kr)) = true.
Proof.
  refine (cached_results_stay_cached _ _ world_with_status_hit status_key _).
  exists (cached_result (js "{'result':'ok'}")). split.
  - vm_compute. reflexivity.
  - vm_compute. reflexivity.
Defined.
